(** * Umami data-sync function: a shallow embedding of the sync engine

    The development follows [src/core/services/umami/umami.service.ts]
    (the window-based [UmamiService]),
    [src/core/services/umami/umamiApi.service.ts] ([UmamiApiService]), the
    relational adapter [UmamiDbService] and the constants of
    [umami.constants.ts].

    Conventions of the embedding:
    - instants are [Z] milliseconds since the epoch (the time value of a
      JavaScript [Date]); [None] stands for [NaN] / an Invalid Date where
      the code can produce one;
    - a JavaScript string is held as the [string] of the bytes of its
      UTF-8 encoding: splitting at a comma, comparing, concatenating and
      the [$] patterns of [replace] are then operations on bytes, and the
      white space known to [trim] and [parseInt] is the list of the
      encodings of the code points of the ECMAScript WhiteSpace and
      LineTerminator classes;
    - everything outside the process (wall clock, MongoDB, MySQL, the Umami
      HTTP API, [process.env]) is described by an [Env] record of oracles;
      [String.prototype.toLowerCase], whose definition is the case tables
      of Unicode, is an oracle of that record too, so that every statement
      holds whatever these tables are;
    - what the run mutates lives in a [State] record that is threaded
      through a state-and-exception monad [M]. *)

From Stdlib Require Import ZArith NArith Ascii String List Bool Lia.
From stdpp Require Import base decidable option list strings gmap.

Local Open Scope string_scope.
Local Open Scope Z_scope.
Local Open Scope list_scope.

(** ** JavaScript string primitives used by the services *)

Module Js.

Definition bytes (s : string) : list ascii := list_ascii_of_string s.

Definition ofBytes (l : list ascii) : string := string_of_list_ascii l.

(** The UTF-8 encoding of a code point. *)
Definition utf8 (cp : N) : string :=
  let byte (n : N) := ascii_of_N n in
  (if cp <? 128 then String (byte cp) EmptyString
   else if cp <? 2048 then
     String (byte (192 + cp / 64)) (String (byte (128 + cp mod 64)) EmptyString)
   else if cp <? 65536 then
     String (byte (224 + cp / 4096))
       (String (byte (128 + cp / 64 mod 64)) (String (byte (128 + cp mod 64)) EmptyString))
   else
     String (byte (240 + cp / 262144))
       (String (byte (128 + cp / 4096 mod 64))
          (String (byte (128 + cp / 64 mod 64))
             (String (byte (128 + cp mod 64)) EmptyString))))%N.

(** The code points of WhiteSpace (TAB, VT, FF, ZWNBSP and the space
    separators of category Zs: SP, NBSP, U+1680, U+2000 to U+200A, U+202F,
    U+205F, U+3000) and of LineTerminator (LF, CR, LS, PS). *)
Definition whiteSpaceCodePoints : list N :=
  [9; 11; 12; 65279;
   32; 160; 5760; 8192; 8193; 8194; 8195; 8196; 8197; 8198; 8199; 8200; 8201; 8202;
   8239; 8287; 12288;
   10; 13; 8232; 8233]%N.

(** Their encodings. *)
Definition whiteSpace : list (list ascii) :=
  map (fun cp => bytes (utf8 cp)) whiteSpaceCodePoints.

Fixpoint startsWith (w l : list ascii) : bool :=
  match w, l with
  | [], _ => true
  | a :: w', b :: l' => Ascii.eqb a b && startsWith w' l'
  | _ :: _, [] => false
  end.

(** [l] without the first of [seqs] that it starts with, if there is one. *)
Fixpoint dropOne (seqs : list (list ascii)) (l : list ascii) : option (list ascii) :=
  match seqs with
  | [] => None
  | w :: seqs' => if startsWith w l then Some (drop (length w) l) else dropOne seqs' l
  end.

(** [l] without the members of [seqs] it starts with, one after the other;
    [fuel] bounds their number. *)
Fixpoint dropLeading (seqs : list (list ascii)) (fuel : nat) (l : list ascii)
  : list ascii :=
  match fuel with
  | O => l
  | S fuel' =>
      match dropOne seqs l with
      | Some rest => dropLeading seqs fuel' rest
      | None => l
      end
  end.

Definition trimStartBytes (l : list ascii) : list ascii :=
  dropLeading whiteSpace (length l) l.

(** The same from the end: on the reversed bytes, with each encoding
    reversed. *)
Definition trimEndBytes (l : list ascii) : list ascii :=
  rev (dropLeading (map (@rev ascii) whiteSpace) (length l) (rev l)).

Definition trimStart (s : string) : string := ofBytes (trimStartBytes (bytes s)).

Definition trimEnd (s : string) : string := ofBytes (trimEndBytes (bytes s)).

Definition trim (s : string) : string :=
  ofBytes (trimEndBytes (trimStartBytes (bytes s))).

Definition isEmpty (s : string) : bool :=
  match s with EmptyString => true | String _ _ => false end.

(** [Boolean(s)] for a string: the empty string is the only falsy one. *)
Definition truthy (s : string) : bool := negb (isEmpty s).

(** [a || b] on strings coming from [process.env] ([None] is [undefined]). *)
Definition orElse (a : option string) (b : string) : string :=
  match a with
  | Some s => if truthy s then s else b
  | None => b
  end.

(** [s.split(sep)] for a one-character separator: never the empty list,
    [''.split(',')] is [['']]. *)
Fixpoint split (sep : ascii) (s : string) : list string :=
  match s with
  | EmptyString => [EmptyString]
  | String c r =>
      if Ascii.eqb c sep then EmptyString :: split sep r
      else match split sep r with
           | [] => [String c EmptyString]
           | w :: ws => String c w :: ws
           end
  end.

Fixpoint join (sep : ascii) (l : list string) : string :=
  match l with
  | [] => EmptyString
  | [w] => w
  | w :: ws => w +:+ String sep (join sep ws)
  end.

Fixpoint contains (c : ascii) (s : string) : bool :=
  match s with
  | EmptyString => false
  | String d r => Ascii.eqb d c || contains c r
  end.

(** [s] without its prefix [p], if it has it. *)
Fixpoint dropPrefix (p s : string) : option string :=
  match p with
  | EmptyString => Some s
  | String a p' =>
      match s with
      | String b s' => if Ascii.eqb a b then dropPrefix p' s' else None
      | EmptyString => None
      end
  end.

(** What is before and what is after the first occurrence of [pat] in [s]. *)
Fixpoint splitAtFirst (pat s : string) : option (string * string) :=
  match dropPrefix pat s with
  | Some after => Some (EmptyString, after)
  | None =>
      match s with
      | EmptyString => None
      | String c r =>
          match splitAtFirst pat r with
          | Some (before, after) => Some (String c before, after)
          | None => None
          end
      end
  end.

(** GetSubstitution for a pattern that is a string: there are no captures,
    so the replacement patterns are [$$], [$&], [$`] and [$']; any other
    [$] stands for itself. *)
Fixpoint getSubstitution (matched before after : string) (replacement : string)
  : string :=
  match replacement with
  | EmptyString => EmptyString
  | String c r =>
      if Ascii.eqb c "$" then
        match r with
        | String d r' =>
            if Ascii.eqb d "$" then String "$" (getSubstitution matched before after r')
            else if Ascii.eqb d "&" then matched +:+ getSubstitution matched before after r'
            else if Ascii.eqb d "`" then before +:+ getSubstitution matched before after r'
            else if Ascii.eqb d "'" then after +:+ getSubstitution matched before after r'
            else String c (getSubstitution matched before after r)
        | EmptyString => String c EmptyString
        end
      else String c (getSubstitution matched before after r)
  end.

(** [s.replace(pat, replacement)] for strings [pat] and [replacement]: the
    first occurrence only. *)
Definition replace (s pat replacement : string) : string :=
  match splitAtFirst pat s with
  | Some (before, after) =>
      before +:+ getSubstitution pat before after replacement +:+ after
  | None => s
  end.

Definition lowerChar (c : ascii) : ascii :=
  let n := nat_of_ascii c in
  if (65 <=? n)%nat && (n <=? 90)%nat then ascii_of_nat (n + 32) else c.

(** Lower-casing of the letters A to Z, every other byte kept: what
    [toLowerCase] does to a string of ASCII characters. The sample worlds
    use it as their [toLowerCase]; their strings are ASCII. *)
Fixpoint lowerAscii (s : string) : string :=
  match s with
  | EmptyString => EmptyString
  | String c r => String (lowerChar c) (lowerAscii r)
  end.

(** Value of a digit character in the given radix (10 or 16). *)
Definition digitValue (radix : Z) (c : ascii) : option Z :=
  let n := Z.of_nat (nat_of_ascii c) in
  let v :=
    if (48 <=? n) && (n <=? 57) then Some (n - 48)
    else if (97 <=? n) && (n <=? 102) then Some (n - 87)
    else if (65 <=? n) && (n <=? 70) then Some (n - 55)
    else None in
  match v with
  | Some d => if d <? radix then Some d else None
  | None => None
  end.

(** Longest prefix of digits, accumulated left to right; the [bool] tells
    whether at least one digit was read. *)
Fixpoint readDigits (radix : Z) (s : string) (seen : bool) (acc : Z) : bool * Z :=
  match s with
  | EmptyString => (seen, acc)
  | String c r =>
      match digitValue radix c with
      | Some d => readDigits radix r true (acc * radix + d)
      | None => (seen, acc)
      end
  end.

Definition stripSign (s : string) : Z * string :=
  match s with
  | String "-" r => (-1, r)
  | String "+" r => (1, r)
  | _ => (1, s)
  end.

Definition stripHexPrefix (s : string) : Z * string :=
  match s with
  | String "0" (String "x" r) => (16, r)
  | String "0" (String "X" r) => (16, r)
  | _ => (10, s)
  end.

(** [parseInt(s)] without a radix argument; [None] is [NaN]. *)
Definition parseInt (s : string) : option Z :=
  let '(sign, s1) := stripSign (trimStart s) in
  let '(radix, s2) := stripHexPrefix s1 in
  match readDigits radix s2 false 0 with
  | (true, v) => Some (sign * v)
  | (false, _) => None
  end.

End Js.

(** ** JavaScript [Date] *)

Module JsDate.

Definition msPerDay : Z := 24 * 60 * 60 * 1000.

(** Largest magnitude of a valid time value (ECMAScript TimeClip). *)
Definition maxTime : Z := 8640000000000000.

(** [new Date(v)] for a number [v] ([None] for [NaN]): the time value, or
    [None] for an Invalid Date. *)
Definition ofNumber (v : option Z) : option Z :=
  match v with
  | Some t => if (- maxTime <=? t) && (t <=? maxTime) then Some t else None
  | None => None
  end.

Definition digitChar (d : Z) : ascii := ascii_of_nat (48 + Z.to_nat d).

(** [w] decimal digits of [n], zero padded. *)
Fixpoint digits (w : nat) (n : Z) : string :=
  match w with
  | O => EmptyString
  | S w' => digits w' (n / 10) +:+ String (digitChar (n mod 10)) EmptyString
  end.

(** Proleptic Gregorian (year, month, day) of a day number since the epoch. *)
Definition civil (day : Z) : Z * Z * Z :=
  let z := day + 719468 in
  let era := z / 146097 in
  let doe := z - era * 146097 in
  let yoe := (doe - doe / 1460 + doe / 36524 - doe / 146096) / 365 in
  let doy := doe - (365 * yoe + yoe / 4 - yoe / 100) in
  let mp := (5 * doy + 2) / 153 in
  let d := doy - (153 * mp + 2) / 5 + 1 in
  let m := if mp <? 10 then mp + 3 else mp - 9 in
  let y := yoe + era * 400 + (if m <=? 2 then 1 else 0) in
  (y, m, d).

Definition yearString (y : Z) : string :=
  if (0 <=? y) && (y <=? 9999) then digits 4 y
  else if y <? 0 then String "-" (digits 6 (- y))
  else String "+" (digits 6 y).

(** [d.toISOString()] of a valid time value. *)
Definition isoString (t : Z) : string :=
  let day := t / msPerDay in
  let ms := t mod msPerDay in
  let '(y, m, d) := civil day in
  yearString y +:+ "-" +:+ digits 2 m +:+ "-" +:+ digits 2 d +:+ "T"
  +:+ digits 2 (ms / 3600000) +:+ ":" +:+ digits 2 (ms / 60000 mod 60) +:+ ":"
  +:+ digits 2 (ms / 1000 mod 60) +:+ "." +:+ digits 3 (ms mod 1000) +:+ "Z".

(** [d.toISOString().split('T')[0]]. *)
Definition isoDay (t : Z) : string :=
  match Js.split "T" (isoString t) with
  | w :: _ => w
  | [] => EmptyString
  end.

End JsDate.

Arguments Js.trim : simpl never.
Arguments Js.trimStart : simpl never.
Arguments Js.trimEnd : simpl never.
Arguments Js.parseInt : simpl never.
Arguments Js.replace : simpl never.
Arguments JsDate.ofNumber : simpl never.
Arguments JsDate.isoString : simpl never.
Arguments JsDate.isoDay : simpl never.

(** ** Data model ([umami.types.ts], [user.model.ts], [systemConfig.model.ts]) *)

(** [MySqlSession]: a row of the relational [session] table as
    [UmamiDbService.getSessionsCreatedAfter] builds it, with the three
    properties of the interface. *)
Record MySqlSession := {
  session_id : string;
  created_at : Z;
  distinct_id : string
}.

(** [session.website_id]: the objects [getSessionsCreatedAfter] builds have
    the three properties above and no other, so the read gives [undefined]
    ([None]). *)
Definition website_id (session : MySqlSession) : option string := None.

(** [UmamiSession]: one record of a page of the sessions endpoint. *)
Record UmamiSession := {
  us_id : string;
  us_websiteId : string;
  us_browser : string;
  us_os : string;
  us_device : string;
  us_screen : string;
  us_language : string;
  us_country : option string;
  us_region : option string;
  us_city : option string;
  us_firstAt : Z;
  us_lastAt : Z;
  us_visits : Z;
  us_views : string;
  us_createdAt : Z
}.

(** [UmamiApiResponse]: [pageSize] is the page size the server reports. *)
Record UmamiApiResponse := {
  data : list UmamiSession;
  count : Z;
  page : Z;
  pageSize : Z
}.

(** The [umamiAnalytics] sub-document written onto a user. *)
Record UmamiAnalytics := {
  ua_id : string;
  ua_websiteId : string;
  ua_browser : string;
  ua_os : string;
  ua_device : string;
  ua_screen : string;
  ua_language : string;
  ua_country : string;
  ua_region : string;
  ua_city : string;
  ua_firstAt : Z;
  ua_lastAt : Z;
  ua_visits : Z;
  ua_views : string;
  ua_createdAt : Z
}.

(** A document of the [users] collection. *)
Record User := {
  email : string;
  user_session_id : option string;
  umamiAnalytics : option UmamiAnalytics;
  updatedAt : option Z
}.

(** [WebsiteSyncStatus]: every field is optional in the document. *)
Record WebsiteSyncStatus := {
  lastSync : option Z;
  lastDaySynced : option string;
  sessionsProcessed : option Z;
  errorCount : option Z
}.

(** The [umamiSync] sub-document of the [systemconfigs] singleton. The
    [websiteSyncStatus] object is a map keyed by website id (ids are taken
    as single path segments of the dotted update paths). *)
Record UmamiSync := {
  lastSuccessfulSync : option Z;
  lastSessionSync : option Z;
  lastAnalyticsSync : option Z;
  websiteSyncStatus : gmap string WebsiteSyncStatus
}.

(** The [systemconfigs] document with [_id = 'global']. *)
Record SystemConfig := {
  umamiSync : UmamiSync;
  createdAt : option Z;
  type_ : option string
}.

Definition emptyUmamiSync : UmamiSync :=
  {| lastSuccessfulSync := None; lastSessionSync := None;
     lastAnalyticsSync := None; websiteSyncStatus := ∅ |}.

Definition emptyStatus : WebsiteSyncStatus :=
  {| lastSync := None; lastDaySynced := None;
     sessionsProcessed := None; errorCount := None |}.

#[global] Instance UmamiAnalytics_eq_dec : EqDecision UmamiAnalytics.
Proof. solve_decision. Defined.

#[global] Instance User_eq_dec : EqDecision User.
Proof. solve_decision. Defined.

(** ** Errors and log records *)

Inductive Error :=
  | JsError (message : string)      (* [new Error(message)] raised by the services *)
  | RangeError (message : string)   (* raised by [toISOString] on an Invalid Date *)
  | DriverError (message : string). (* raised by the MongoDB driver *)

Inductive Level := Debug | Info | Warn | LError.

Module ERROR_MESSAGES.
Definition MISSING_CONFIG := "Missing required configuration".
Definition DB_CONNECTION_FAILED := "Failed to connect to Umami MySQL database".
Definition API_AUTH_FAILED := "Failed to authenticate with Umami API".
Definition API_REQUEST_FAILED := "Failed to fetch data from Umami API".
End ERROR_MESSAGES.

Module LOG_MESSAGES.
Definition SYNC_STARTED := "Umami sync process started".
Definition SYNC_COMPLETED := "Umami sync process completed successfully".
Definition SYNC_FAILED := "Umami sync process failed".
Definition SESSION_SYNC_STARTED := "Session ID sync started".
Definition SESSION_SYNC_COMPLETED := "Session ID sync completed".
Definition WEBSITE_SYNC_STARTED := "Started sync for website".
Definition WEBSITE_SYNC_COMPLETED := "Completed sync for website".
Definition BATCH_UPDATE_STARTED := "Started batch update of user records".
End LOG_MESSAGES.

(** [DEFAULT_CONFIG] of [umami.constants.ts]. *)
Module API_ENDPOINTS.
Definition LOGIN := "/api/auth/login".
Definition SESSIONS := "/api/websites/{websiteId}/sessions".
End API_ENDPOINTS.

Module DEFAULT_CONFIG.
Definition INITIAL_SYNC_DAYS : Z := 7.
Definition SESSION_SYNC_WINDOW_HOURS : Z := 24.
Definition SYNC_BUFFER_HOURS : Z := 12.
Definition BATCH_SIZE : Z := 100.
Definition API_PAGE_SIZE : Z := 100.
End DEFAULT_CONFIG.

(** ** The world outside the process *)

(** One GET of the sessions endpoint, as [fetchSessionsPage] issues it:
    the URL after the base URL of the service, and the query parameters. *)
Record PageRequest := {
  rq_path : string;
  rq_startAt : Z;
  rq_endAt : Z;
  rq_page : Z;
  rq_pageSize : Z
}.

(** Oracles for everything the run reads from outside. Each is indexed by
    how many calls of its kind came before, so any behaviour of the outside
    world over one run can be expressed. *)
Record Env := {
  (** [process.env] *)
  processEnv : string -> option string;
  (** the [n]-th reading of the wall clock ([new Date()], [Date.now()]) *)
  clock : nat -> Z;
  (** whether [DatabaseService.getInstance().getConnection()] is non-null *)
  connected : bool;
  (** whether the [n]-th MongoDB operation of the run throws *)
  storeFails : nat -> bool;
  (** [UmamiDbService.getSessionsAfterDate]: the rows, or [None] when the
      query throws *)
  sessionRows : Z -> option (list MySqlSession);
  (** the [n]-th POST to the login endpoint: the token, or [None] on failure *)
  login : nat -> option string;
  (** the [n]-th GET of the sessions endpoint: the body, or [None] on failure *)
  sessionsPage : nat -> PageRequest -> option UmamiApiResponse;
  (** [String.prototype.toLowerCase] of the host *)
  toLowerCase : string -> string
}.

(** What a run can change: the two collections, the service objects'
    fields, and the traces of calls made to the outside. *)
Record State := {
  ticks : nat;                        (* clock readings so far *)
  storeOps : nat;                     (* MongoDB operations so far *)
  systemconfig : option SystemConfig; (* the 'global' document, if any *)
  users : list User;                  (* the [users] collection *)
  websiteIds : list string;           (* [UmamiService.websiteIds] *)
  apiWebsiteIds : list string;        (* [UmamiApiService.websiteIds] *)
  currentToken : option string;       (* [UmamiApiService.currentToken] *)
  authCalls : nat;                    (* calls of [authenticate] so far *)
  pageRequests : list PageRequest;    (* GETs issued, oldest first *)
  logs : list (Level * string)        (* logger calls, oldest first *)
}.

Definition setTicks (n : nat) (s : State) : State :=
  {| ticks := n; storeOps := storeOps s; systemconfig := systemconfig s;
     users := users s; websiteIds := websiteIds s;
     apiWebsiteIds := apiWebsiteIds s; currentToken := currentToken s;
     authCalls := authCalls s; pageRequests := pageRequests s; logs := logs s |}.

Definition setStoreOps (n : nat) (s : State) : State :=
  {| ticks := ticks s; storeOps := n; systemconfig := systemconfig s;
     users := users s; websiteIds := websiteIds s;
     apiWebsiteIds := apiWebsiteIds s; currentToken := currentToken s;
     authCalls := authCalls s; pageRequests := pageRequests s; logs := logs s |}.

Definition setSystemconfig (c : option SystemConfig) (s : State) : State :=
  {| ticks := ticks s; storeOps := storeOps s; systemconfig := c;
     users := users s; websiteIds := websiteIds s;
     apiWebsiteIds := apiWebsiteIds s; currentToken := currentToken s;
     authCalls := authCalls s; pageRequests := pageRequests s; logs := logs s |}.

Definition setUsers (u : list User) (s : State) : State :=
  {| ticks := ticks s; storeOps := storeOps s; systemconfig := systemconfig s;
     users := u; websiteIds := websiteIds s;
     apiWebsiteIds := apiWebsiteIds s; currentToken := currentToken s;
     authCalls := authCalls s; pageRequests := pageRequests s; logs := logs s |}.

Definition setToken (t : option string) (s : State) : State :=
  {| ticks := ticks s; storeOps := storeOps s; systemconfig := systemconfig s;
     users := users s; websiteIds := websiteIds s;
     apiWebsiteIds := apiWebsiteIds s; currentToken := t;
     authCalls := authCalls s; pageRequests := pageRequests s; logs := logs s |}.

Definition setAuthCalls (n : nat) (s : State) : State :=
  {| ticks := ticks s; storeOps := storeOps s; systemconfig := systemconfig s;
     users := users s; websiteIds := websiteIds s;
     apiWebsiteIds := apiWebsiteIds s; currentToken := currentToken s;
     authCalls := n; pageRequests := pageRequests s; logs := logs s |}.

Definition setPageRequests (r : list PageRequest) (s : State) : State :=
  {| ticks := ticks s; storeOps := storeOps s; systemconfig := systemconfig s;
     users := users s; websiteIds := websiteIds s;
     apiWebsiteIds := apiWebsiteIds s; currentToken := currentToken s;
     authCalls := authCalls s; pageRequests := r; logs := logs s |}.

Definition setLogs (l : list (Level * string)) (s : State) : State :=
  {| ticks := ticks s; storeOps := storeOps s; systemconfig := systemconfig s;
     users := users s; websiteIds := websiteIds s;
     apiWebsiteIds := apiWebsiteIds s; currentToken := currentToken s;
     authCalls := authCalls s; pageRequests := pageRequests s; logs := l |}.

(** ** The monad: state plus exceptions *)

(** How a call ends. [Diverged] is reserved for a loop that is cut off by
    its fuel; the theorems show that it never happens. *)
Inductive Outcome (A : Type) :=
  | Returned (a : A)
  | Thrown (e : Error)
  | Diverged.

Arguments Returned {A} a.
Arguments Thrown {A} e.
Arguments Diverged {A}.

Definition M (A : Type) : Type := State -> Outcome A * State.

Definition ret {A} (a : A) : M A := fun s => (Returned a, s).

Definition throw {A} (e : Error) : M A := fun s => (Thrown e, s).

Definition bind {A B} (m : M A) (k : A -> M B) : M B :=
  fun s =>
    match m s with
    | (Returned a, s') => k a s'
    | (Thrown e, s') => (Thrown e, s')
    | (Diverged, s') => (Diverged, s')
    end.

(** [try { m } catch (error) { h error }] *)
Definition tryCatch {A} (m : M A) (h : Error -> M A) : M A :=
  fun s =>
    match m s with
    | (Thrown e, s') => h e s'
    | r => r
    end.

(** [try { m } finally { f }] where [f] itself cannot throw. *)
Definition tryFinally {A} (m : M A) (f : M unit) : M A :=
  fun s =>
    match m s with
    | (r, s') => (r, snd (f s'))
    end.

Definition get : M State := fun s => (Returned s, s).

Definition modify (f : State -> State) : M unit := fun s => (Returned tt, f s).

Declare Scope m_scope.
Delimit Scope m_scope with M.
Notation "x <- m ;; k" := (bind m (fun x => k))
  (at level 100, m at next level, right associativity) : m_scope.
Notation "m ;; k" := (bind m (fun _ => k))
  (at level 100, right associativity) : m_scope.
Local Open Scope m_scope.

Definition isReturned {A} (o : Outcome A) : bool :=
  match o with Returned _ => true | _ => false end.

Definition isThrown {A} (o : Outcome A) : bool :=
  match o with Thrown _ => true | _ => false end.

(** [logger.<level>(message, ...)]: the structured fields are not kept. *)
Definition log (l : Level) (msg : string) : M unit :=
  modify (fun s => setLogs (logs s ++ [(l, msg)]) s).

(** [try { m } catch (error) { h error }] followed by nothing else is used
    so often with a handler that logs and rethrows that it gets a name. *)
Definition rethrowing {A} (m : M A) (msg : string) : M A :=
  tryCatch m (fun error => log LError msg ;; throw error).

(** [Array.prototype.includes] on an array of strings, for a value that is
    a string or [undefined]. *)
Definition includes (l : list string) (x : option string) : bool :=
  match x with
  | Some v => bool_decide (v ∈ l)
  | None => false
  end.

(** ** MongoDB operations *)

(** Result of [updateOne]. *)
Record UpdateResult := {
  matchedCount : Z;
  modifiedCount : Z
}.

(** Replace the first document that satisfies [p] by its image under [f].
    The result tells whether a document matched and whether it changed. *)
Fixpoint updateFirst (p : User -> bool) (f : User -> User) (us : list User)
  : option bool * list User :=
  match us with
  | [] => (None, [])
  | u :: rest =>
      if p u then (Some (negb (bool_decide (f u = u))), f u :: rest)
      else let '(r, rest') := updateFirst p f rest in (r, u :: rest')
  end.

Definition countsOf (r : option bool) : UpdateResult :=
  match r with
  | None => {| matchedCount := 0; modifiedCount := 0 |}
  | Some changed => {| matchedCount := 1; modifiedCount := if changed then 1 else 0 |}
  end.

(** [$inc] of [umamiSync.websiteSyncStatus.<id>.errorCount] by one; missing
    levels of the path are created, a missing counter counts from 0. *)
Definition incErrorCount (st : WebsiteSyncStatus) : WebsiteSyncStatus :=
  {| lastSync := lastSync st; lastDaySynced := lastDaySynced st;
     sessionsProcessed := sessionsProcessed st;
     errorCount := Some (default 0 (errorCount st) + 1) |}.

Definition withStatuses (f : gmap string WebsiteSyncStatus -> gmap string WebsiteSyncStatus)
  (u : UmamiSync) : UmamiSync :=
  {| lastSuccessfulSync := lastSuccessfulSync u;
     lastSessionSync := lastSessionSync u;
     lastAnalyticsSync := lastAnalyticsSync u;
     websiteSyncStatus := f (websiteSyncStatus u) |}.

Definition withUmamiSync (f : UmamiSync -> UmamiSync) (c : SystemConfig) : SystemConfig :=
  {| umamiSync := f (umamiSync c); createdAt := createdAt c; type_ := type_ c |}.

(** The document an upsert starts from when none has [_id = 'global']. *)
Definition insertedConfig : SystemConfig :=
  {| umamiSync := emptyUmamiSync; createdAt := None; type_ := None |}.

(** [updateOne({_id:'global'}, u, {upsert:true})] where [u] only touches
    [umamiSync]. *)
Definition upsertUmamiSync (f : UmamiSync -> UmamiSync) (c : option SystemConfig)
  : option SystemConfig :=
  Some (withUmamiSync f (default insertedConfig c)).

(** The [$set] / [$setOnInsert] of [updateLastSuccessfulSync]. *)
Definition setLastSuccessful (t : Z) (now : Z) (c : option SystemConfig)
  : option SystemConfig :=
  let stamp u :=
    {| lastSuccessfulSync := Some t; lastSessionSync := Some t;
       lastAnalyticsSync := Some t; websiteSyncStatus := websiteSyncStatus u |} in
  match c with
  | Some d => Some (withUmamiSync stamp d)
  | None =>
      Some {| umamiSync := stamp emptyUmamiSync;
              createdAt := Some now; type_ := Some "system" |}
  end.

(** [config?.umamiSync?.lastSuccessfulSync] *)
Definition watermark (c : option SystemConfig) : option Z :=
  c ≫= fun d => lastSuccessfulSync (umamiSync d).

(** The status stored for a website, if any. *)
Definition statusOf (c : option SystemConfig) (websiteId : string)
  : option WebsiteSyncStatus :=
  c ≫= fun d => websiteSyncStatus (umamiSync d) !! websiteId.

Inductive SyncType := initial | incremental.

Record SyncWindow := {
  startDate : Z;
  endDate : Z;
  syncType : SyncType
}.

Section Services.

Variable env : Env.

(** [new Date()] / [Date.now()]: the next reading of the clock. *)
Definition now : M Z :=
  s <- get ;;
  modify (setTicks (S (ticks s))) ;;
  ret (clock env (ticks s)).

(** [d.toISOString()], which throws on an Invalid Date; the result pairs the
    time value of the (then valid) date with its ISO text. *)
Definition toISOString (d : option Z) : M (Z * string) :=
  match d with
  | Some t => ret (t, JsDate.isoString t)
  | None => throw (RangeError "Invalid time value")
  end.

(** [DatabaseService.getInstance().getConnection()] with the null check
    every caller makes. *)
Definition getConnection : M unit :=
  if connected env then ret tt
  else throw (JsError "Database connection not established").

(** One operation on a collection: it is counted, then it either throws or
    applies [body]. *)
Definition storeOp {A} (body : State -> A * State) : M A :=
  fun s =>
    let s1 := setStoreOps (S (storeOps s)) s in
    if storeFails env (storeOps s) then (Thrown (DriverError "MongoDB operation failed"), s1)
    else let '(a, s2) := body s1 in (Returned a, s2).

(** [db.collection('users').updateOne(filter, {$set: ...})] *)
Definition usersUpdateOne (p : User -> bool) (f : User -> User) : M UpdateResult :=
  storeOp (fun s =>
    let '(r, us) := updateFirst p f (users s) in (countsOf r, setUsers us s)).

(** [db.collection('systemconfigs').findOne({_id: 'global'})] *)
Definition configFindOne : M (option SystemConfig) :=
  storeOp (fun s => (systemconfig s, s)).

(** [db.collection('systemconfigs').updateOne({_id: 'global'}, ..., {upsert: true})] *)
Definition configUpdateOne (f : option SystemConfig -> option SystemConfig) : M unit :=
  storeOp (fun s => (tt, setSystemconfig (f (systemconfig s)) s)).

(** ** [UmamiApiService] *)

Definition getWebsiteIds : list string :=
  let websiteIdsStr := Js.orElse (processEnv env "UMAMI_WEBSITE_IDS") "" in
  List.filter Js.truthy (map Js.trim (Js.split "," websiteIdsStr)).

Definition authenticate : M string :=
  s <- get ;;
  modify (setAuthCalls (S (authCalls s))) ;;
  match login env (authCalls s) with
  | Some token =>
      modify (setToken (Some token)) ;;
      log Debug "Successfully authenticated with Umami API" ;;
      ret token
  | None =>
      log LError "Umami API authentication failed" ;;
      throw (JsError ERROR_MESSAGES.API_AUTH_FAILED)
  end.

Definition getToken : M string :=
  s <- get ;;
  match currentToken s with
  | Some token =>
      if Js.truthy token then ret token
      else throw (JsError "No token available. Call authenticate() first.")
  | None => throw (JsError "No token available. Call authenticate() first.")
  end.

Definition clearToken : M unit :=
  modify (setToken None) ;;
  log Debug "Umami API token cleared".

(** The GET itself: recorded in [pageRequests], answered by the oracle. *)
Definition axiosGet (rq : PageRequest) : M UmamiApiResponse :=
  s <- get ;;
  modify (setPageRequests (pageRequests s ++ [rq])) ;;
  match sessionsPage env (length (pageRequests s)) rq with
  | Some response => ret response
  | None => throw (DriverError "Request failed")
  end.

Definition fetchSessionsPage (websiteId : string) (startTimestamp endTimestamp : Z)
  (page : Z) (pageSize : Z) : M UmamiApiResponse :=
  tryCatch
    (token <- getToken ;;
     let url := Js.replace API_ENDPOINTS.SESSIONS "{websiteId}" websiteId in
     response <- axiosGet {| rq_path := url; rq_startAt := startTimestamp;
                             rq_endAt := endTimestamp; rq_page := page;
                             rq_pageSize := pageSize |} ;;
     log Debug "Fetched sessions page" ;;
     ret response)
    (fun error =>
       log LError "Failed to fetch sessions from Umami API" ;;
       throw (JsError ERROR_MESSAGES.API_REQUEST_FAILED)).

(** The [while (hasMoreData)] loop of [fetchAllSessions]. The recursion is
    on [fuel]; running out of it is reported as [Diverged]. *)
Fixpoint paginate (fuel : nat) (websiteId : string) (startTimestamp endTimestamp : Z)
  (page : Z) (hasMoreData : bool) (allSessions : list UmamiSession)
  : M (list UmamiSession) :=
  if negb hasMoreData then ret allSessions
  else match fuel with
       | O => fun s => (Diverged, s)
       | S fuel' =>
           response <- fetchSessionsPage websiteId startTimestamp endTimestamp page
                         DEFAULT_CONFIG.API_PAGE_SIZE ;;
           let allSessions := (allSessions ++ data response)%list in
           let hasMoreData := Z.of_nat (length (data response)) =? pageSize response in
           let page := page + 1 in
           if page >? 1000 then
             log Warn "Reached maximum page limit, stopping pagination" ;;
             ret allSessions
           else paginate fuel' websiteId startTimestamp endTimestamp page hasMoreData allSessions
       end.

Definition fetchAllSessionsWithFuel (fuel : nat) (websiteId : string)
  (startTimestamp endTimestamp : Z) : M (list UmamiSession) :=
  log Info LOG_MESSAGES.WEBSITE_SYNC_STARTED ;;
  rethrowing
    (allSessions <- paginate fuel websiteId startTimestamp endTimestamp 1 true [] ;;
     log Info LOG_MESSAGES.WEBSITE_SYNC_COMPLETED ;;
     ret allSessions)
    "Failed to fetch all sessions for website".

(** A thousand iterations are always enough (see [paginate_fuel_enough]). *)
Definition fetchAllSessions : string -> Z -> Z -> M (list UmamiSession) :=
  fetchAllSessionsWithFuel 1000.

(** ** [UmamiDbService] *)

(** [UmamiDbService.getSessionsAfterDate(startDate)]: the rows created at or
    after [startDate], or the error the adapter raises when the query fails. *)
Definition getSessionsAfterDate (startDate : Z) : M (list MySqlSession) :=
  match sessionRows env startDate with
  | Some rows =>
      log Debug "Umami sessions query result:" ;;
      ret rows
  | None =>
      log LError "Error querying Umami sessions:" ;;
      throw (JsError ERROR_MESSAGES.DB_CONNECTION_FAILED)
  end.

(** ** [UmamiService] *)

(** The [$set] of [updateUserSessionsSequential]. *)
Definition setSession (session : MySqlSession) (at_ : Z) (u : User) : User :=
  {| email := email u; user_session_id := Some (session_id session);
     umamiAnalytics := umamiAnalytics u; updatedAt := Some at_ |}.

(** One turn of the [for (const session of sessions)] loop of
    [updateUserSessionsSequential]; the result is the new [updatedCount]. *)
Definition updateUserSession (session : MySqlSession) (updatedCount : Z) : M Z :=
  tryCatch
    (at_ <- now ;;
     result <- usersUpdateOne
                 (fun u => String.eqb (email u) (toLowerCase env (distinct_id session)))
                 (setSession session at_) ;;
     log Debug "Updated session for user" ;;
     ret (updatedCount + modifiedCount result))
    (fun error =>
       log LError "Failed to update session for user" ;;
       ret updatedCount).

Fixpoint updateUserSessions (sessions : list MySqlSession) (updatedCount : Z) : M Z :=
  match sessions with
  | [] => ret updatedCount
  | session :: rest =>
      n <- updateUserSession session updatedCount ;;
      updateUserSessions rest n
  end.

Definition updateUserSessionsSequential (sessions : list MySqlSession) : M unit :=
  log Debug LOG_MESSAGES.BATCH_UPDATE_STARTED ;;
  getConnection ;;
  updatedCount <- updateUserSessions sessions 0 ;;
  log Info "Session sync completed" ;;
  if updatedCount =? 0 then throw (JsError "No users were updated with session IDs")
  else ret tt.

(** The [umamiAnalytics] value of [updateSingleUserAnalytics]. *)
Definition analyticsOf (session : UmamiSession) : UmamiAnalytics :=
  {| ua_id := us_id session;
     ua_websiteId := us_websiteId session;
     ua_browser := Js.orElse (Some (us_browser session)) "";
     ua_os := Js.orElse (Some (us_os session)) "";
     ua_device := Js.orElse (Some (us_device session)) "";
     ua_screen := Js.orElse (Some (us_screen session)) "";
     ua_language := Js.orElse (Some (us_language session)) "";
     ua_country := Js.orElse (us_country session) "";
     ua_region := Js.orElse (us_region session) "";
     ua_city := Js.orElse (us_city session) "";
     ua_firstAt := us_firstAt session;
     ua_lastAt := us_lastAt session;
     ua_visits := us_visits session;
     ua_views := Js.orElse (Some (us_views session)) "0";
     ua_createdAt := us_createdAt session |}.

Definition setAnalytics (session : UmamiSession) (at_ : Z) (u : User) : User :=
  {| email := email u; user_session_id := user_session_id u;
     umamiAnalytics := Some (analyticsOf session); updatedAt := Some at_ |}.

Definition updateSingleUserAnalytics (session : UmamiSession) : M UpdateResult :=
  getConnection ;;
  rethrowing
    (at_ <- now ;;
     usersUpdateOne
       (fun u => bool_decide (user_session_id u = Some (us_id session)))
       (setAnalytics session at_))
    ("Failed to update analytics for session " +:+ us_id session).

Definition updateWebsiteSyncStatus (websiteId : string) (syncDay : string)
  (sessionsProcessed : Z) : M unit :=
  tryCatch
    (getConnection ;;
     at_ <- now ;;
     let status := {| lastSync := Some at_; lastDaySynced := Some syncDay;
                      sessionsProcessed := Some sessionsProcessed;
                      errorCount := Some 0 |} in
     configUpdateOne (upsertUmamiSync (withStatuses (insert websiteId status))) ;;
     log Debug "Updated website sync status")
    (fun error => log LError "Failed to update website sync status").

Definition incrementWebsiteErrorCount (websiteId : string) : M unit :=
  tryCatch
    (getConnection ;;
     configUpdateOne
       (upsertUmamiSync
          (withStatuses (fun m =>
             <[websiteId := incErrorCount (default emptyStatus (m !! websiteId))]> m))))
    (fun error => log LError "Failed to increment website error count").

(** One turn of the inner [for (const session of sessions)] loop of the
    analytics phase; the result is the new [websiteUsersUpdated]. The lists
    [matchedSessions] and [unmatchedSessions] of the source only feed
    [console.log] and are not kept. *)
Definition updateAnalyticsFor (session : UmamiSession) (websiteUsersUpdated : Z) : M Z :=
  tryCatch
    (result <- updateSingleUserAnalytics session ;;
     log Debug ("Updated analytics for session " +:+ us_id session) ;;
     ret (websiteUsersUpdated + modifiedCount result))
    (fun error =>
       log LError ("Failed to update analytics for session " +:+ us_id session) ;;
       ret websiteUsersUpdated).

Fixpoint updateAnalyticsAll (sessions : list UmamiSession) (websiteUsersUpdated : Z) : M Z :=
  match sessions with
  | [] => ret websiteUsersUpdated
  | session :: rest =>
      n <- updateAnalyticsFor session websiteUsersUpdated ;;
      updateAnalyticsAll rest n
  end.

(** The body of the [try] inside [for (const websiteId of this.websiteIds)];
    [totals] is ([totalSessionsProcessed], [totalUsersUpdated]). *)
Definition syncWebsite (websiteId : string) (startTimestamp endTimestamp : Z)
  (endDate : Z) (totals : Z * Z) : M (Z * Z) :=
  log Debug "Fetching sessions for website" ;;
  sessions <- fetchAllSessions websiteId startTimestamp endTimestamp ;;
  log Debug "Got sessions for website" ;;
  if (length sessions =? 0)%nat then
    log Info "No sessions found for website in date range" ;;
    ret totals
  else
    websiteUsersUpdated <- updateAnalyticsAll sessions 0 ;;
    updateWebsiteSyncStatus websiteId (JsDate.isoDay endDate) (Z.of_nat (length sessions)) ;;
    log Info ("Website " +:+ websiteId +:+ " sync completed") ;;
    ret (fst totals + Z.of_nat (length sessions), snd totals + websiteUsersUpdated).

(** One turn of the loop over websites, with its [catch]. *)
Definition syncWebsiteGuarded (websiteId : string) (startTimestamp endTimestamp : Z)
  (endDate : Z) (totals : Z * Z) : M (Z * Z) :=
  tryCatch
    (syncWebsite websiteId startTimestamp endTimestamp endDate totals)
    (fun error =>
       log LError "Failed to sync website" ;;
       incrementWebsiteErrorCount websiteId ;;
       ret totals).

Fixpoint syncWebsites (ids : list string) (startTimestamp endTimestamp : Z)
  (endDate : Z) (totals : Z * Z) : M (Z * Z) :=
  match ids with
  | [] => ret totals
  | websiteId :: rest =>
      totals' <- syncWebsiteGuarded websiteId startTimestamp endTimestamp endDate totals ;;
      syncWebsites rest startTimestamp endTimestamp endDate totals'
  end.

Definition syncAnalyticsDataForWindow (startDate endDate : Z) : M unit :=
  log Info "Starting analytics sync for date window" ;;
  tryFinally
    (rethrowing
       (let startTimestamp := startDate in
        let endTimestamp := endDate in
        log Info "Analytics sync range" ;;
        authenticate ;;
        s <- get ;;
        syncWebsites (websiteIds s) startTimestamp endTimestamp endDate (0, 0) ;;
        log Info "Analytics sync summary" ;;
        log Info "Analytics sync completed")
       "Analytics sync failed")
    clearToken.

Definition syncSessionIdsForWindow (startDate endDate : Z) : M unit :=
  rethrowing
    (log Info LOG_MESSAGES.SESSION_SYNC_STARTED ;;
     sessions <- getSessionsAfterDate startDate ;;
     log Debug "Fetched sessions from MySQL" ;;
     if (length sessions =? 0)%nat then log Info "No new sessions found for sync"
     else
       s <- get ;;
       let configuredWebsiteIds := apiWebsiteIds s in
       let filteredSessions :=
         List.filter (fun session => includes configuredWebsiteIds (website_id session))
           sessions in
       log Info "Session filtering applied" ;;
       if (length filteredSessions =? 0)%nat then
         log Info "No sessions found from configured websites"
       else
         updateUserSessionsSequential filteredSessions ;;
         log Info LOG_MESSAGES.SESSION_SYNC_COMPLETED)
    "Session ID sync failed".

Definition determineSyncWindow : M SyncWindow :=
  getConnection ;;
  config <- configFindOne ;;
  let lastSuccessfulSync := watermark config in
  today <- now ;;
  match lastSuccessfulSync with
  | None =>
      let initialSyncDays :=
        Js.parseInt (Js.orElse (processEnv env "INITIAL_SYNC_DAYS") "7") in
      dateNow <- now ;;
      let startDate :=
        JsDate.ofNumber
          (days ← initialSyncDays; Some (dateNow - days * 24 * 60 * 60 * 1000)) in
      startDay <- toISOString startDate ;;
      log Info "Initial sync detected - syncing configured days" ;;
      ret {| startDate := fst startDay; endDate := today; syncType := initial |}
  | Some lastSync =>
      let bufferHours := DEFAULT_CONFIG.SYNC_BUFFER_HOURS in
      let startDate := JsDate.ofNumber (Some (lastSync - bufferHours * 60 * 60 * 1000)) in
      startIso <- toISOString startDate ;;
      log Info "Syncing from last successful time (with buffer) to current time" ;;
      ret {| startDate := fst startIso; endDate := today; syncType := incremental |}
  end.

Definition updateLastSuccessfulSync (syncStartTime : Z) : M unit :=
  tryCatch
    (getConnection ;;
     at_ <- now ;;
     configUpdateOne (setLastSuccessful syncStartTime at_) ;;
     log Info "Updated last successful sync timestamp")
    (fun error => log LError "Failed to update last successful sync timestamp").

Definition syncAllData : M unit :=
  syncStartTime <- now ;;
  rethrowing
    (log Info LOG_MESSAGES.SYNC_STARTED ;;
     syncWindow <- determineSyncWindow ;;
     log Info ("Starting sync for window: " +:+ JsDate.isoString (startDate syncWindow)
               +:+ " to " +:+ JsDate.isoString (endDate syncWindow)) ;;
     syncSessionIdsForWindow (startDate syncWindow) (endDate syncWindow) ;;
     syncAnalyticsDataForWindow (startDate syncWindow) (endDate syncWindow) ;;
     updateLastSuccessfulSync syncStartTime ;;
     log Info LOG_MESSAGES.SYNC_COMPLETED)
    LOG_MESSAGES.SYNC_FAILED.

(** [new UmamiService()] over given collections: the constructor of
    [UmamiApiService] throws when the API settings are missing, otherwise
    both objects read their website ids from the environment. *)
Definition newUmamiService (docs : list User) (config : option SystemConfig)
  : Outcome State :=
  let baseUrl := Js.orElse (processEnv env "UMAMI_API_BASE_URL") "" in
  let username := Js.orElse (processEnv env "UMAMI_API_USERNAME") "" in
  let password := Js.orElse (processEnv env "UMAMI_API_PASSWORD") "" in
  if Js.truthy baseUrl && Js.truthy username && Js.truthy password then
    Returned
      {| ticks := 0; storeOps := 0; systemconfig := config; users := docs;
         websiteIds := getWebsiteIds; apiWebsiteIds := getWebsiteIds;
         currentToken := None; authCalls := 0; pageRequests := []; logs := [] |}
  else Thrown (JsError ERROR_MESSAGES.MISSING_CONFIG).

End Services.

(** The page loop is unfolded by hand in the proofs, never by [simpl]. *)
Arguments fetchAllSessions : simpl never.
Arguments fetchAllSessionsWithFuel : simpl never.

(** ** Sample worlds and auxiliary predicates used in the statements *)

Definition envOfVars (vars : string -> option string) : Env :=
  {| processEnv := vars; clock := fun n => Z.of_nat n; connected := true;
     storeFails := fun _ => false; sessionRows := fun _ => Some [];
     login := fun _ => Some "token"; sessionsPage := fun _ _ => None;
     toLowerCase := Js.lowerAscii |}.

Definition oneVar (name value : string) : string -> option string :=
  fun k => if String.eqb k name then Some value else None.

(** ** Website ids, in the words of the specification

    "The comma-separated tokens with surrounding whitespace trimmed and
    empty tokens removed." *)

(** White space as the language defines it: the code points TAB to CR,
    SPACE, NO-BREAK SPACE, OGHAM SPACE MARK, EN QUAD to HAIR SPACE, LINE
    SEPARATOR, PARAGRAPH SEPARATOR, NARROW NO-BREAK SPACE, MEDIUM
    MATHEMATICAL SPACE, IDEOGRAPHIC SPACE and ZERO WIDTH NO-BREAK SPACE. *)
Definition isWhiteSpaceCodePoint (cp : N) : bool :=
  ((9 <=? cp) && (cp <=? 13) || (cp =? 32) || (cp =? 160) || (cp =? 5760)
   || (8192 <=? cp) && (cp <=? 8202) || (cp =? 8232) || (cp =? 8233)
   || (cp =? 8239) || (cp =? 8287) || (cp =? 12288) || (cp =? 65279))%N.

(** The bytes of one white space character. *)
Definition whiteSpaceChar (w : list ascii) : Prop :=
  exists cp, isWhiteSpaceCodePoint cp = true /\ w = Js.bytes (Js.utf8 cp).

(** A run of white space characters. *)
Definition blank (l : list ascii) : Prop :=
  exists ws, Forall whiteSpaceChar ws /\ l = concat ws.

(** The string starts, or ends, with a white space character. *)
Definition startsWithSpace (s : string) : Prop :=
  exists w rest, whiteSpaceChar w /\ Js.bytes s = w ++ rest.

Definition endsWithSpace (s : string) : Prop :=
  exists w rest, whiteSpaceChar w /\ Js.bytes s = rest ++ w.

Definition cleanId (id : string) : Prop :=
  id <> "" /\ ~ startsWithSpace id /\ ~ endsWithSpace id /\ Js.contains "," id = false.

(** [pieces] are the parts of [s] between its commas. *)
Definition piecesOf (s : string) (pieces : list string) : Prop :=
  pieces <> [] /\ Js.join "," pieces = s
  /\ Forall (fun piece => Js.contains "," piece = false) pieces.

(** [id] is [piece] without the white space around it: white space, then
    [id], then white space, where [id] neither starts nor ends with a white
    space character. *)
Definition trimmedOf (piece id : string) : Prop :=
  exists l r,
    Js.bytes piece = l ++ Js.bytes id ++ r /\ blank l /\ blank r
    /\ ~ startsWithSpace id /\ ~ endsWithSpace id.

(** The tokens kept from the pieces: each piece trimmed, the trimmed pieces
    that are empty left out, the order kept. *)
Inductive tokensOf : list string -> list string -> Prop :=
  | tokensOf_nil : tokensOf [] []
  | tokensOf_keep piece id pieces ids :
      trimmedOf piece id -> id <> "" -> tokensOf pieces ids ->
      tokensOf (piece :: pieces) (id :: ids)
  | tokensOf_drop piece pieces ids :
      trimmedOf piece "" -> tokensOf pieces ids -> tokensOf (piece :: pieces) ids.


(** ** Reasoning about [M]: which parts of the state a call leaves alone *)

(** [m] keeps the observation [π] of the state, however it ends. *)
Definition keeps {A X} (π : State -> X) (m : M A) : Prop :=
  forall s, π (snd (m s)) = π s.

(** Observations that do not look at a given field. *)
Class NoLogs {X} (π : State -> X) := no_logs : forall l s, π (setLogs l s) = π s.
Class NoTicks {X} (π : State -> X) := no_ticks : forall n s, π (setTicks n s) = π s.
Class NoStoreOps {X} (π : State -> X) := no_storeOps : forall n s, π (setStoreOps n s) = π s.
Class NoUsers {X} (π : State -> X) := no_users : forall u s, π (setUsers u s) = π s.
Class NoToken {X} (π : State -> X) := no_token : forall t s, π (setToken t s) = π s.
Class NoAuthCalls {X} (π : State -> X) := no_authCalls : forall n s, π (setAuthCalls n s) = π s.
Class NoPageRequests {X} (π : State -> X) :=
  no_pageRequests : forall r s, π (setPageRequests r s) = π s.
(** Observations that no write to [umamiSync.websiteSyncStatus] changes. *)
Class NoStatuses {X} (π : State -> X) :=
  no_statuses : forall g s,
    π (setSystemconfig (upsertUmamiSync (withStatuses g) (systemconfig s)) s) = π s.

(** The watermark is an observation of [systemconfig] that the status
    writes of the analytics phase do not change. *)
Definition watermarkOf (s : State) : option Z := watermark (systemconfig s).


(** ** Vocabulary for the pagination statements *)

(** The path of the sessions endpoint for website [w]. *)
Definition sessionsPath (w : string) : string :=
  Js.replace API_ENDPOINTS.SESSIONS "{websiteId}" w.

(** The GET that [fetchAllSessions] issues for page [p]. *)
Definition pageRequest (w : string) (s e : Z) (p : Z) : PageRequest :=
  {| rq_path := sessionsPath w; rq_startAt := s; rq_endAt := e; rq_page := p;
     rq_pageSize := DEFAULT_CONFIG.API_PAGE_SIZE |}.

(** The GETs for [n] consecutive pages starting at page [p]. *)
Definition requestsFrom (w : string) (s e : Z) (p : Z) (n : nat) : list PageRequest :=
  map (fun k => pageRequest w s e (p + Z.of_nat k)) (seq 0 n).

(** [response.data.length === response.pageSize] *)
Definition fullPage (r : UmamiApiResponse) : bool :=
  Z.of_nat (length (data r)) =? pageSize r.

(** The API answers the GETs number [i0], [i0 + 1], ... of the run, asked
    for pages [p], [p + 1], ... of website [w], with [pages]. *)
Definition serves (env : Env) (w : string) (s e : Z) (i0 : nat) (p : Z)
  (pages : list UmamiApiResponse) : Prop :=
  forall k r, pages !! k = Some r ->
    sessionsPage env (i0 + k) (pageRequest w s e (p + Z.of_nat k)) = Some r.

(** The API answers every GET with a page as long as the page size it reports. *)
Definition alwaysFull (env : Env) : Prop :=
  forall i rq, exists r, sessionsPage env i rq = Some r /\ fullPage r = true.

(** [getToken] would succeed. *)
Definition hasToken (st : State) : Prop :=
  exists t, currentToken st = Some t /\ Js.truthy t = true.

Definition pageLimitWarning : Level * string :=
  (Warn, "Reached maximum page limit, stopping pagination").

(** The state a successful page fetch leaves. *)
Definition afterPage (rq : PageRequest) (st : State) : State :=
  setLogs (logs st ++ [(Debug, "Fetched sessions page")])
    (setPageRequests (pageRequests st ++ [rq]) st).

(** The state a call of [fetchAllSessions] has once it announced itself. *)
Definition started (st : State) : State :=
  setLogs (logs st ++ [(Info, LOG_MESSAGES.WEBSITE_SYNC_STARTED)]) st.

(** ** Sample data *)

Definition sampleSession (id : string) : UmamiSession :=
  {| us_id := id; us_websiteId := "site"; us_browser := "firefox"; us_os := "linux";
     us_device := "desktop"; us_screen := "1920x1080"; us_language := "en";
     us_country := Some "NL"; us_region := None; us_city := None;
     us_firstAt := 0; us_lastAt := 0; us_visits := 1; us_views := "3";
     us_createdAt := 0 |}.

(** A response carrying [n] records that reports page size [ps]. *)
Definition pageOf (n : nat) (ps : Z) : UmamiApiResponse :=
  {| data := repeat (sampleSession "s") n; count := Z.of_nat n; page := 1; pageSize := ps |}.

(** A state with empty traces over given collections and website ids. *)
Definition stateOf (ids : list string) (docs : list User) (config : option SystemConfig)
  (token : option string) : State :=
  {| ticks := 0; storeOps := 0; systemconfig := config; users := docs;
     websiteIds := ids; apiWebsiteIds := ids; currentToken := token;
     authCalls := 0; pageRequests := []; logs := [] |}.

(** A world where everything works and [pages] decides the API's answers. *)
Definition envOfPages (pages : nat -> PageRequest -> option UmamiApiResponse) : Env :=
  {| processEnv := fun _ => None; clock := fun n => 1000 + Z.of_nat n;
     connected := true; storeFails := fun _ => false;
     sessionRows := fun _ => Some []; login := fun _ => Some "token";
     sessionsPage := pages;
     toLowerCase := Js.lowerAscii |}.

(** The API of the scenario: pages of 100, 100 and 37 records. *)
Definition threePages : nat -> PageRequest -> option UmamiApiResponse :=
  fun _ rq =>
    if rq_page rq =? 1 then Some (pageOf 100 100)
    else if rq_page rq =? 2 then Some (pageOf 100 100)
    else if rq_page rq =? 3 then Some (pageOf 37 100)
    else None.

(** An API that caps pages at 50 records and reports that page size:
    page 1 has 50 records, page 2 is empty. *)
Definition cappedPages : nat -> PageRequest -> option UmamiApiResponse :=
  fun _ rq => if rq_page rq =? 1 then Some (pageOf 50 50) else Some (pageOf 0 50).

(** An API that never runs out of full pages. *)
Definition endlessPages : nat -> PageRequest -> option UmamiApiResponse :=
  fun _ _ => Some (pageOf 2 2).

(** ** Vocabulary for the statements about a run *)

(** [parseInt(process.env['INITIAL_SYNC_DAYS'] || '7')] *)
Definition initialSyncDays (env : Env) : option Z :=
  Js.parseInt (Js.orElse (processEnv env "INITIAL_SYNC_DAYS") "7").

(** A number that [new Date(...)] turns into a valid date. *)
Definition validTime (t : Z) : Prop := - JsDate.maxTime <= t <= JsDate.maxTime.

(** The state in which [syncAllData] starts planning: the run-start instant
    has been read and the start of the run logged. *)
Definition planningState (st : State) : State :=
  setLogs (logs st ++ [(Info, LOG_MESSAGES.SYNC_STARTED)]) (setTicks (S (ticks st)) st).

(** The state in which the session phase starts, after planning ended in
    [st] with window [w]. *)
Definition windowLogged (w : SyncWindow) (st : State) : State :=
  setLogs (logs st ++ [(Info, "Starting sync for window: " +:+ JsDate.isoString (startDate w)
                              +:+ " to " +:+ JsDate.isoString (endDate w))]) st.

(** What the [catch] of [syncAllData] adds before it rethrows. *)
Definition failed (st : State) : State :=
  setLogs (logs st ++ [(LError, LOG_MESSAGES.SYNC_FAILED)]) st.

Definition completed (st : State) : State :=
  setLogs (logs st ++ [(Info, LOG_MESSAGES.SYNC_COMPLETED)]) st.

(** A world with a given clock, environment and relational rows, where the
    stores and the API answer without failing. *)
Definition envOfRows (vars : string -> option string) (rows : list MySqlSession)
  (pages : nat -> PageRequest -> option UmamiApiResponse) : Env :=
  {| processEnv := vars; clock := fun n => 1700000000000 + Z.of_nat n;
     connected := true; storeFails := fun _ => false;
     sessionRows := fun _ => Some rows; login := fun _ => Some "token";
     sessionsPage := pages;
     toLowerCase := Js.lowerAscii |}.

(** A [systemconfigs] document whose watermark is [t]. *)
Definition configAt (t : Z) : SystemConfig :=
  {| umamiSync := {| lastSuccessfulSync := Some t; lastSessionSync := Some t;
                     lastAnalyticsSync := Some t; websiteSyncStatus := ∅ |};
     createdAt := Some 0; type_ := Some "system" |}.

(** [m] is never cut off by the fuel of a loop. *)
Definition terminates {A} (m : M A) : Prop :=
  forall s, fst (m s) <> Diverged.

(** ** Vocabulary for the session phase *)

(** The rows the session phase keeps: those of configured websites. *)
Definition configuredRows (st : State) (rows : list MySqlSession) : list MySqlSession :=
  List.filter (fun session => includes (apiWebsiteIds st) (website_id session)) rows.

(** The filter of the [updateOne] issued for a row. *)
Definition matchesRow (env : Env) (session : MySqlSession) (u : User) : bool :=
  String.eqb (email u) (toLowerCase env (distinct_id session)).


(** What the sequential updates of a batch do to the [users] collection,
    told without the monad: the number of modified documents and the
    collection afterwards, for a batch whose first update reads the clock
    for the [tick]-th time and is the [op]-th operation on the store. *)
Fixpoint sessionBatch (env : Env) (sessions : list MySqlSession) (tick op : nat)
  (docs : list User) : Z * list User :=
  match sessions with
  | [] => (0, docs)
  | session :: rest =>
      if storeFails env op then sessionBatch env rest (S tick) (S op) docs
      else
        let '(r, docs1) :=
          updateFirst (matchesRow env session) (setSession session (clock env tick)) docs in
        let '(n, docs2) := sessionBatch env rest (S tick) (S op) docs1 in
        (modifiedCount (countsOf r) + n, docs2)
  end.


(** ** Vocabulary for the analytics phase and the end of a run *)

(** What is left of [syncAllData] once the session phase has returned:
    the analytics phase, the watermark write, the closing log line. *)
Definition finishRun (env : Env) (syncStartTime : Z) (w : SyncWindow) : M unit :=
  (syncAnalyticsDataForWindow env (startDate w) (endDate w) ;;
   updateLastSuccessfulSync env syncStartTime ;;
   log Info LOG_MESSAGES.SYNC_COMPLETED)%M.

(** The [catch] of [syncAllData] applied to the end of a computation. *)
Definition orFailed (r : Outcome unit * State) : Outcome unit * State :=
  match r with
  | (Thrown e, s) => (Thrown e, failed s)
  | _ => r
  end.

(** The status a successful website sync writes. *)
Definition syncedStatus (at_ : Z) (endDate : Z) (n : nat) : WebsiteSyncStatus :=
  {| lastSync := Some at_; lastDaySynced := Some (JsDate.isoDay endDate);
     sessionsProcessed := Some (Z.of_nat n); errorCount := Some 0 |}.

(** The stored error count of a website, 0 when none is stored. *)
Definition errorCountOf (c : option SystemConfig) (websiteId : string) : Z :=
  default 0 (statusOf c websiteId ≫= errorCount).

(** Observations that do not look at the [systemconfigs] document. *)
Class NoConfig {X} (π : State -> X) :=
  no_config : forall c s, π (setSystemconfig c s) = π s.

(** ** The phases of a run, named

    For a run of [syncAllData] from [st]: the outcome of planning and the
    state it leaves; then, for the planned window [w], the state in which
    each later phase starts and how the phase ends. *)

Definition planned (env : Env) (st : State) : Outcome SyncWindow :=
  fst (determineSyncWindow env (planningState st)).

Definition sessionState (env : Env) (w : SyncWindow) (st : State) : State :=
  windowLogged w (snd (determineSyncWindow env (planningState st))).

Definition sessionOutcome (env : Env) (w : SyncWindow) (st : State) : Outcome unit :=
  fst (syncSessionIdsForWindow env (startDate w) (endDate w) (sessionState env w st)).

Definition analyticsState (env : Env) (w : SyncWindow) (st : State) : State :=
  snd (syncSessionIdsForWindow env (startDate w) (endDate w) (sessionState env w st)).

Definition analyticsOutcome (env : Env) (w : SyncWindow) (st : State) : Outcome unit :=
  fst (syncAnalyticsDataForWindow env (startDate w) (endDate w) (analyticsState env w st)).

Definition finalizingState (env : Env) (w : SyncWindow) (st : State) : State :=
  snd (syncAnalyticsDataForWindow env (startDate w) (endDate w) (analyticsState env w st)).

(** A world like [envOfRows] in which exactly the [k]-th store operation
    fails. *)
Definition envFailingAt (k : nat) (rows : list MySqlSession)
  (pages : nat -> PageRequest -> option UmamiApiResponse) : Env :=
  {| processEnv := fun _ => None; clock := fun n => 1700000000000 + Z.of_nat n;
     connected := true; storeFails := fun n => Nat.eqb n k;
     sessionRows := fun _ => Some rows; login := fun _ => Some "token";
     sessionsPage := pages;
     toLowerCase := Js.lowerAscii |}.

(** A world whose document store was never connected. *)
Definition envDisconnected : Env :=
  {| processEnv := fun _ => None; clock := fun n => 1700000000000 + Z.of_nat n;
     connected := false; storeFails := fun _ => false;
     sessionRows := fun _ => Some []; login := fun _ => Some "token";
     sessionsPage := fun _ _ => None;
     toLowerCase := Js.lowerAscii |}.

(** The window of a first run in the sample worlds (clock at
    1700000000000, one tick per reading, seven days back). *)
Definition firstWindow : SyncWindow :=
  {| startDate := 1700000000002 - 7 * (24 * 60 * 60 * 1000);
     endDate := 1700000000001; syncType := initial |}.

Definition noPages : nat -> PageRequest -> option UmamiApiResponse := fun _ _ => None.

Definition sampleRow (id user : string) : MySqlSession :=
  {| session_id := id; created_at := 1699999999000; distinct_id := user |}.

Definition sampleUser (mail : string) : User :=
  {| email := mail; user_session_id := None; umamiAnalytics := None; updatedAt := None |}.

(** The state in which one turn of the loop over websites calls
    [fetchAllSessions], and that call. *)
Definition fetching (st : State) : State :=
  setLogs (logs st ++ [(Debug, "Fetching sessions for website")]) st.

Definition websiteFetch (env : Env) (websiteId : string) (startTimestamp endTimestamp : Z)
  (st : State) : Outcome (list UmamiSession) * State :=
  fetchAllSessions env websiteId startTimestamp endTimestamp (fetching st).

(** An API with one page per website: [two] has two sessions, [one] has
    one, [none] has none, and every other website makes the request fail. *)
Definition pagesBySite (two one none : string) : nat -> PageRequest -> option UmamiApiResponse :=
  fun _ rq =>
    if String.eqb (rq_path rq) (sessionsPath two) then
      Some {| data := [sampleSession "s1"; sampleSession "s2"]; count := 2; page := 1;
              pageSize := 100 |}
    else if String.eqb (rq_path rq) (sessionsPath one) then
      Some {| data := [sampleSession "s3"]; count := 1; page := 1; pageSize := 100 |}
    else if String.eqb (rq_path rq) (sessionsPath none) then Some (pageOf 0 100)
    else None.

(** A [systemconfigs] document in which website [w] has failed three times
    since it last synced five sessions. *)
Definition configWithErrors (w : string) : SystemConfig :=
  {| umamiSync :=
       {| lastSuccessfulSync := Some 1699990000000; lastSessionSync := Some 1699990000000;
          lastAnalyticsSync := Some 1699990000000;
          websiteSyncStatus :=
            {[ w := {| lastSync := Some 1699000000000; lastDaySynced := Some "2023-11-03";
                       sessionsProcessed := Some 5; errorCount := Some 3 |} ]} |};
     createdAt := Some 0; type_ := Some "system" |}.

(** ** Further vocabulary: the API adapter on its own *)

(** [getToken] would throw: there is no token, or an empty one. *)
Definition noToken (st : State) : Prop :=
  currentToken st = None \/ currentToken st = Some "".

Definition requestFailed : Error := JsError ERROR_MESSAGES.API_REQUEST_FAILED.

Definition authFailed : Error := JsError ERROR_MESSAGES.API_AUTH_FAILED.

Definition tokenMissing : Error :=
  JsError "No token available. Call authenticate() first.".

(** An API that serves [n] full pages of two records and then fails. *)
Definition pagesThenFailure (n : Z) : nat -> PageRequest -> option UmamiApiResponse :=
  fun _ rq => if rq_page rq <=? n then Some (pageOf 2 2) else None.

(** A world like [envOfPages] whose login endpoint answers with [tokens]. *)
Definition envOfLogins (tokens : nat -> option string) : Env :=
  {| processEnv := fun _ => None; clock := fun n => 1000 + Z.of_nat n;
     connected := true; storeFails := fun _ => false;
     sessionRows := fun _ => Some []; login := tokens;
     sessionsPage := fun _ _ => Some (pageOf 0 100);
     toLowerCase := Js.lowerAscii |}.

(** ** Further vocabulary: runs that abort *)

Definition sourceUnavailable : Error := JsError ERROR_MESSAGES.DB_CONNECTION_FAILED.

(** A world whose relational source cannot be queried. *)
Definition envSourceDown : Env :=
  {| processEnv := fun _ => None; clock := fun n => 1700000000000 + Z.of_nat n;
     connected := true; storeFails := fun _ => false;
     sessionRows := fun _ => None; login := fun _ => Some "token";
     sessionsPage := fun _ _ => None;
     toLowerCase := Js.lowerAscii |}.

(** A world whose login endpoint rejects every attempt. *)
Definition envLoginDown : Env :=
  {| processEnv := fun _ => None; clock := fun n => 1700000000000 + Z.of_nat n;
     connected := true; storeFails := fun _ => false;
     sessionRows := fun _ => Some []; login := fun _ => None;
     sessionsPage := fun _ _ => Some (pageOf 0 100);
     toLowerCase := Js.lowerAscii |}.

(** ** Further vocabulary: the [users] collection seen field by field *)

(** The values of one field over the [users] collection, in order. *)
Definition userField {Y} (g : User -> Y) (s : State) : list Y := map g (users s).

(** ** Further vocabulary: what the update loops leave in the collection *)

(** [updateOne] without the counts: the collection after replacing the
    first document that satisfies [p] by its image under [f]. *)
Fixpoint replaceFirst {A} (p : A -> bool) (f : A -> A) (l : list A) : list A :=
  match l with
  | [] => []
  | a :: rest => if p a then f a :: rest else a :: replaceFirst p f rest
  end.

(** A user without its [updatedAt] stamp: what a reader of the synced data
    looks at. *)
Definition stampless (u : User) : User :=
  {| email := email u; user_session_id := user_session_id u;
     umamiAnalytics := umamiAnalytics u; updatedAt := None |}.

(** The filter of the [updateOne] issued for an analytics record. *)
Definition hasSession (session : UmamiSession) (u : User) : bool :=
  bool_decide (user_session_id u = Some (us_id session)).

(** The identity a row is matched on. *)
Definition identityOf (env : Env) (session : MySqlSession) : string :=
  toLowerCase env (distinct_id session).

(** A world in which the document store is connected and never fails. *)
Definition reliableStore (env : Env) : Prop :=
  connected env = true /\ forall n, storeFails env n = false.

(** A write keyed like [updateOne({field: value}, {$set: ...})]: [write i]
    is applied to the first element whose key is the key of item [i]. *)
Definition writeFirst {A I K : Type} `{EqDecision K} (key : A -> K) (ikey : I -> K)
  (write : I -> A -> A) (i : I) (l : list A) : list A :=
  replaceFirst (fun a => bool_decide (key a = ikey i)) (write i) l.

(** The writes of a sequence of items, in order. *)
Definition writeAll {A I K : Type} `{EqDecision K} (key : A -> K) (ikey : I -> K)
  (write : I -> A -> A) (items : list I) (l : list A) : list A :=
  fold_left (fun l i => writeFirst key ikey write i l) items l.

(** The analytics write and the session write on stampless users. *)
Definition writeAnalytics (session : UmamiSession) (u : User) : User :=
  stampless (setAnalytics session 0 u).

Definition writeSession (session : MySqlSession) (u : User) : User :=
  stampless (setSession session 0 u).

(** What a sequence of analytics records, and a batch of rows, leave in a
    stampless collection when every write reaches the store. *)
Definition analyticsWritten (sessions : list UmamiSession) (docs : list User) : list User :=
  writeAll user_session_id (fun session => Some (us_id session)) writeAnalytics sessions docs.

Definition sessionsWritten (env : Env) (rows : list MySqlSession) (docs : list User)
  : list User :=
  writeAll email (identityOf env) writeSession rows docs.

(** The first user with a given email. *)
Definition userByEmail (mail : string) (docs : list User) : option User :=
  List.find (fun u => bool_decide (email u = mail)) docs.

(** ** Further vocabulary: documents a phase cannot reach *)

(** [Some u] for the users a predicate rules out, [None] for the others:
    the observation under which only ruled-out users are visible. *)
Definition unless (reachable : User -> bool) (u : User) : option User :=
  if reachable u then None else Some u.

(** The stored email is in lower case. *)
Definition lowerCaseEmail (env : Env) (u : User) : bool :=
  bool_decide (toLowerCase env (email u) = email u).

(** Lower-casing a string that is in lower case already changes nothing. *)
Definition lowerCaseStable (env : Env) : Prop :=
  forall s, toLowerCase env (toLowerCase env s) = toLowerCase env s.

Definition hasSessionId (u : User) : bool :=
  match user_session_id u with Some _ => true | None => false end.

Definition invalidTime : Error := RangeError "Invalid time value".

(** ** The batch loop of the earlier [UmamiService]

    [syncSessionIds] and [syncWebsiteAnalytics] of the first [UmamiService]
    in [umami.service.ts] walk their sessions in batches:

      for (let i = 0; i < sessions.length; i += batchSize) {
        const sessionBatch = sessions.slice(i, i + batchSize);
        await this.update...(sessionBatch);
      }
*)

(** The relative index of [Array.prototype.slice]; [None] is [NaN], which
    counts as 0. *)
Definition relativeIndex (len : Z) (k : option Z) : Z :=
  let k := default 0 k in
  if k <? 0 then Z.max (len + k) 0 else Z.min k len.

(** [arr.slice(start, end)] *)
Definition slice {A} (l : list A) (start end_ : option Z) : list A :=
  let len := Z.of_nat (length l) in
  let k := relativeIndex len start in
  let final := relativeIndex len end_ in
  take (Z.to_nat (final - k)) (drop (Z.to_nat k) l).

(** [parseInt(process.env.BATCH_SIZE || DEFAULT_CONFIG.BATCH_SIZE.toString())] *)
Definition batchSizeOf (env : Env) : option Z :=
  Js.parseInt (Js.orElse (processEnv env "BATCH_SIZE") "100").

(** The batches the loop hands to the batch update, in order, for as long
    as the update returns, starting with the counter at [i] ([None] is
    [NaN]). The result is [None] when the fuel runs out. *)
Fixpoint batchesFrom {A} (fuel : nat) (batchSize : option Z) (sessions : list A)
  (i : option Z) : option (list (list A)) :=
  match i with
  | None => Some []
  | Some iv =>
      if iv <? Z.of_nat (length sessions) then
        match fuel with
        | O => None
        | S fuel' =>
            let next := b ← batchSize; Some (iv + b) in
            rest ← batchesFrom fuel' batchSize sessions next;
            Some (slice sessions i next :: rest)
        end
      else Some []
  end.

Definition batches {A} (fuel : nat) (batchSize : option Z) (sessions : list A)
  : option (list (list A)) :=
  batchesFrom fuel batchSize sessions (Some 0).

(** ** Further vocabulary: what is asked of the API *)

(** The GETs for the first pages of website [w] over the window from [t1]
    to [t2]: page 1, page 2, and so on up to some page, at most the
    thousandth; no GET at all is the case of no page. *)
Definition firstPages (w : string) (t1 t2 : Z) (block : list PageRequest) : Prop :=
  exists n, (n <= 1000)%nat /\ block = requestsFrom w t1 t2 1 n.

(** ** Further vocabulary: the watermark write *)

(** [umamiSync.lastSessionSync] and [umamiSync.lastAnalyticsSync] of the
    stored document. *)
Definition lastSessionSyncOf (s : State) : option Z :=
  systemconfig s ≫= fun d => lastSessionSync (umamiSync d).

Definition lastAnalyticsSyncOf (s : State) : option Z :=
  systemconfig s ≫= fun d => lastAnalyticsSync (umamiSync d).

(** The per-website statuses of the stored document. *)
Definition statusesOf (s : State) : gmap string WebsiteSyncStatus :=
  default ∅ (systemconfig s ≫= fun d => Some (websiteSyncStatus (umamiSync d))).

Definition watermarkWritten : Level * string :=
  (Info, "Updated last successful sync timestamp").

Definition watermarkWriteFailed : Level * string :=
  (LError, "Failed to update last successful sync timestamp").

(** ** Further vocabulary: the token during the analytics phase *)

(** The state in which the loop over websites of the analytics phase
    starts, for a phase entered in [st]: the two opening log lines are
    written and [authenticate] has been called. *)
Definition loopStart (env : Env) (st : State) : State :=
  snd ((log Info "Starting analytics sync for date window" ;;
        log Info "Analytics sync range" ;;
        authenticate env)%M st).

(** The state in which the turn of the website that follows the websites
    [before] starts. *)
Definition turnStart (env : Env) (t1 t2 : Z) (before : list string) (st : State) : State :=
  snd (syncWebsites env before t1 t2 t2 (0, 0) (loopStart env st)).

(** Settings with which the constructor of the API adapter is content. *)
Definition apiVars : string -> option string :=
  fun k =>
    if String.eqb k "UMAMI_API_BASE_URL" then Some "https://umami.example.com"
    else if String.eqb k "UMAMI_API_USERNAME" then Some "sync"
    else if String.eqb k "UMAMI_API_PASSWORD" then Some "secret"
    else None.

(** An API with one page of one session for every website. *)
Definition onePageEach : nat -> PageRequest -> option UmamiApiResponse :=
  fun _ _ => Some {| data := [sampleSession "s1"]; count := 1; page := 1; pageSize := 100 |}.
(** * Properties *)

(** ** Strings *)

Example split_csv : Js.split "," "a,,b" = ["a"; ""; "b"].
Proof. reflexivity. Qed.

Example split_empty : Js.split "," "" = [""].
Proof. reflexivity. Qed.

Example trim_both : Js.trim "  site-1  " = "site-1".
Proof. vm_compute. reflexivity. Qed.

(** A no-break space in front and a byte order mark behind are white space
    too; a space inside is kept. *)
Example trim_unicode :
  Js.trim (Js.utf8 160 +:+ "site 1" +:+ Js.utf8 65279 +:+ Js.utf8 8232) = "site 1".
Proof. vm_compute. reflexivity. Qed.

Example replace_plain :
  Js.replace "/api/websites/{websiteId}/sessions" "{websiteId}" "abc"
  = "/api/websites/abc/sessions".
Proof. vm_compute. reflexivity. Qed.

(** [$&] in the replacement stands for the matched text, [$$] for a dollar. *)
Example replace_matched :
  Js.replace "/api/websites/{websiteId}/sessions" "{websiteId}" "$&"
  = "/api/websites/{websiteId}/sessions".
Proof. vm_compute. reflexivity. Qed.

Example replace_dollar :
  Js.replace "/api/websites/{websiteId}/sessions" "{websiteId}" "a$$b$1"
  = "/api/websites/a$b$1/sessions".
Proof. vm_compute. reflexivity. Qed.

Example parseInt_default : Js.parseInt "7" = Some 7.
Proof. vm_compute. reflexivity. Qed.

Example parseInt_prefix : Js.parseInt " 14days" = Some 14.
Proof. vm_compute. reflexivity. Qed.

Example parseInt_nbsp : Js.parseInt (Js.utf8 160 +:+ "30") = Some 30.
Proof. vm_compute. reflexivity. Qed.

Example parseInt_hex : Js.parseInt "0x10" = Some 16.
Proof. vm_compute. reflexivity. Qed.

Example parseInt_nan : Js.parseInt "week" = None.
Proof. vm_compute. reflexivity. Qed.

Example isoString_epoch : JsDate.isoString 0 = "1970-01-01T00:00:00.000Z".
Proof. reflexivity. Qed.

Example isoString_2024 : JsDate.isoString 1709210096789 = "2024-02-29T12:34:56.789Z".
Proof. vm_compute. reflexivity. Qed.

Example isoDay_before_epoch : JsDate.isoDay (-1) = "1969-12-31".
Proof. vm_compute. reflexivity. Qed.

Example lowerAscii_email : Js.lowerAscii "Ann@Example.COM" = "ann@example.com".
Proof. reflexivity. Qed.

Example isoString_year_zero : JsDate.isoString (-62167219200000) = "0000-01-01T00:00:00.000Z".
Proof. vm_compute. reflexivity. Qed.

Section StringFacts.

Lemma bytes_ofBytes l : Js.bytes (Js.ofBytes l) = l.
Proof. apply list_ascii_of_string_of_list_ascii. Qed.

Lemma ofBytes_bytes s : Js.ofBytes (Js.bytes s) = s.
Proof. apply string_of_list_ascii_of_string. Qed.

Lemma contains_bytes c s : Js.contains c s = true <-> In c (Js.bytes s).
Proof.
  induction s as [|d r IH]; simpl; [split; [discriminate | tauto]|].
  rewrite orb_true_iff, IH. split; (intros [H|H]; [left | right; exact H]).
  - now apply Ascii.eqb_eq in H.
  - now apply Ascii.eqb_eq.
Qed.

Lemma startsWith_split w l : Js.startsWith w l = true -> l = w ++ drop (length w) l.
Proof.
  revert l. induction w as [|a w IH]; intros l; simpl; [reflexivity|].
  destruct l as [|b l]; [discriminate|].
  rewrite andb_true_iff. intros [Hab Hw]. apply Ascii.eqb_eq in Hab. subst b.
  simpl. f_equal. now apply IH.
Qed.

Lemma startsWith_app w l r : Js.startsWith w l = true -> Js.startsWith w (l ++ r) = true.
Proof.
  revert l. induction w as [|a w IH]; intros l; simpl; [reflexivity|].
  destruct l as [|b l]; [discriminate|]. simpl.
  rewrite !andb_true_iff. intros [Hab Hw]. split; [exact Hab | now apply IH].
Qed.

Lemma dropOne_some seqs l r :
  Js.dropOne seqs l = Some r -> exists w, In w seqs /\ l = w ++ r.
Proof.
  induction seqs as [|w seqs IH]; simpl; [discriminate|].
  destruct (Js.startsWith w l) eqn:Hw.
  - intros [= <-]. exists w. split; [now left | now apply startsWith_split].
  - intros H. destruct (IH H) as (w' & Hin & Heq). exists w'. split; [now right | exact Heq].
Qed.

Lemma dropOne_none seqs l :
  Js.dropOne seqs l = None -> Forall (fun w => Js.startsWith w l = false) seqs.
Proof.
  induction seqs as [|w seqs IH]; simpl; [constructor|].
  destruct (Js.startsWith w l) eqn:Hw; [discriminate|].
  intros H. constructor; [exact Hw | now apply IH].
Qed.

(** What [dropLeading] removes is a run of members of [seqs]. *)
Lemma dropLeading_split seqs fuel : forall l,
  exists ws, Forall (fun w => In w seqs) ws
             /\ l = concat ws ++ Js.dropLeading seqs fuel l.
Proof.
  induction fuel as [|fuel IH]; intros l; simpl.
  - exists []. split; [constructor | reflexivity].
  - destruct (Js.dropOne seqs l) as [rest|] eqn:Hone.
    + destruct (dropOne_some _ _ _ Hone) as (w & Hin & Hl).
      destruct (IH rest) as (ws & Hws & Hrest).
      exists (w :: ws). split; [now constructor|].
      simpl. rewrite <- app_assoc, <- Hrest. exact Hl.
    + exists []. split; [constructor | reflexivity].
Qed.

(** With enough fuel, what [dropLeading] leaves starts with no member of
    [seqs]. *)
Lemma dropLeading_done seqs fuel : forall l,
  Forall (fun w => w <> []) seqs -> (length l <= fuel)%nat ->
  Js.dropOne seqs (Js.dropLeading seqs fuel l) = None.
Proof.
  intros l Hne. revert l. induction fuel as [|fuel IH]; intros l Hlen; simpl.
  - destruct l; [|simpl in Hlen; lia].
    clear Hlen. induction Hne as [|w seqs Hw _ IHs]; simpl; [reflexivity|].
    destruct w; [contradiction|]. exact IHs.
  - destruct (Js.dropOne seqs l) as [rest|] eqn:Hone; [|exact Hone].
    apply IH. destruct (dropOne_some _ _ _ Hone) as (w & Hin & Hl).
    assert (w <> []) as Hw by (rewrite List.Forall_forall in Hne; now apply Hne).
    subst l. rewrite length_app in Hlen. destruct w; [contradiction|]. simpl in Hlen. lia.
Qed.

Lemma whiteSpace_nonempty : Forall (fun w : list ascii => w <> []) Js.whiteSpace.
Proof. vm_compute. repeat constructor; discriminate. Qed.

Lemma rev_concat {A} (ls : list (list A)) :
  rev (concat ls) = concat (rev (map (@rev A) ls)).
Proof.
  induction ls as [|l ls IH]; simpl; [reflexivity|].
  rewrite rev_app_distr, IH, concat_app. simpl. now rewrite app_nil_r.
Qed.

(** The table [trim] works with holds the white space characters of the
    language, all of them and nothing else. *)
Lemma whiteSpace_table w : In w Js.whiteSpace <-> whiteSpaceChar w.
Proof.
  split.
  - unfold Js.whiteSpace. rewrite in_map_iff. intros (cp & <- & Hcp).
    exists cp. split; [|reflexivity].
    simpl in Hcp. repeat (destruct Hcp as [<- | Hcp]; [reflexivity|]). contradiction.
  - intros (cp & Hcp & ->). unfold Js.whiteSpace.
    apply (in_map (fun cp => Js.bytes (Js.utf8 cp))).
    unfold isWhiteSpaceCodePoint in Hcp.
    repeat rewrite orb_true_iff in Hcp. repeat rewrite andb_true_iff in Hcp.
    repeat rewrite N.eqb_eq in Hcp. repeat rewrite N.leb_le in Hcp.
    assert (cp = 9 \/ cp = 10 \/ cp = 11 \/ cp = 12 \/ cp = 13 \/ cp = 32 \/ cp = 160
            \/ cp = 5760 \/ cp = 8192 \/ cp = 8193 \/ cp = 8194 \/ cp = 8195 \/ cp = 8196
            \/ cp = 8197 \/ cp = 8198 \/ cp = 8199 \/ cp = 8200 \/ cp = 8201 \/ cp = 8202
            \/ cp = 8232 \/ cp = 8233 \/ cp = 8239 \/ cp = 8287 \/ cp = 12288
            \/ cp = 65279)%N as Hcases by lia.
    unfold Js.whiteSpaceCodePoints.
    repeat (destruct Hcases as [-> | Hcases]; [simpl; tauto|]). subst cp. simpl. tauto.
Qed.

Lemma blank_of ws : Forall (fun w => In w Js.whiteSpace) ws -> blank (concat ws).
Proof.
  intros H. exists ws. split; [|reflexivity].
  eapply List.Forall_impl; [|exact H]. intros w Hw. now apply whiteSpace_table.
Qed.

Lemma startsWith_prefix w rest : Js.startsWith w (w ++ rest) = true.
Proof.
  induction w as [|a w IH]; simpl; [reflexivity|]. now rewrite Ascii.eqb_refl, IH.
Qed.

Lemma trimStartBytes_spec l :
  exists pre,
    blank pre /\ l = pre ++ Js.trimStartBytes l
    /\ Forall (fun w => Js.startsWith w (Js.trimStartBytes l) = false) Js.whiteSpace.
Proof.
  unfold Js.trimStartBytes.
  destruct (dropLeading_split Js.whiteSpace (length l) l) as (ws & Hws & Hl).
  exists (concat ws). split; [now apply blank_of|]. split; [exact Hl|].
  apply dropOne_none, dropLeading_done; [apply whiteSpace_nonempty | reflexivity].
Qed.

Lemma trimEndBytes_spec l :
  exists post,
    blank post /\ l = Js.trimEndBytes l ++ post
    /\ Forall (fun w => Js.startsWith (rev w) (rev (Js.trimEndBytes l)) = false)
         Js.whiteSpace.
Proof.
  unfold Js.trimEndBytes.
  set (seqs := map (@rev ascii) Js.whiteSpace).
  destruct (dropLeading_split seqs (length l) (rev l)) as (ws & Hws & Hl).
  exists (rev (concat ws)). split; [|split].
  - rewrite rev_concat. apply blank_of.
    apply List.Forall_forall. intros w Hw. apply in_rev in Hw.
    apply in_map_iff in Hw. destruct Hw as (w' & <- & Hw').
    rewrite List.Forall_forall in Hws. specialize (Hws w' Hw').
    unfold seqs in Hws. apply in_map_iff in Hws. destruct Hws as (w0 & <- & Hw0).
    now rewrite rev_involutive.
  - rewrite <- rev_app_distr, <- Hl. now rewrite rev_involutive.
  - rewrite rev_involutive.
    assert (Js.dropOne seqs (Js.dropLeading seqs (length l) (rev l)) = None) as Hnone.
    { apply dropLeading_done; [|now rewrite length_rev].
      unfold seqs. apply List.Forall_forall. intros w Hw.
      apply in_map_iff in Hw. destruct Hw as (w0 & <- & Hw0).
      pose proof whiteSpace_nonempty as Hne. rewrite List.Forall_forall in Hne.
      specialize (Hne w0 Hw0). destruct w0; [contradiction|].
      simpl. intros E. now apply app_eq_nil in E as [_ E]. }
    apply dropOne_none in Hnone. unfold seqs in Hnone.
    rewrite List.Forall_map in Hnone. exact Hnone.
Qed.

(** [trim] gives the string without the white space around it. *)
Lemma trim_trimmedOf s : trimmedOf s (Js.trim s).
Proof.
  unfold trimmedOf, Js.trim, startsWithSpace, endsWithSpace.
  rewrite bytes_ofBytes.
  destruct (trimStartBytes_spec (Js.bytes s)) as (pre & Hpre & Hs & Hstart).
  destruct (trimEndBytes_spec (Js.trimStartBytes (Js.bytes s)))
    as (post & Hpost & Ht & Hend).
  exists pre, post. split; [|split; [exact Hpre|split; [exact Hpost|split]]].
  - rewrite <- Ht. exact Hs.
  - intros (w & rest & Hw & Hcore).
    apply whiteSpace_table in Hw. rewrite List.Forall_forall in Hstart.
    specialize (Hstart w Hw). simpl in Hstart.
    rewrite Ht, Hcore, <- app_assoc, startsWith_prefix in Hstart. discriminate.
  - intros (w & rest & Hw & Hcore).
    apply whiteSpace_table in Hw. rewrite List.Forall_forall in Hend.
    specialize (Hend w Hw). simpl in Hend.
    rewrite Hcore, rev_app_distr, startsWith_prefix in Hend. discriminate.
Qed.

Lemma trimmedOf_contains c piece id :
  trimmedOf piece id -> Js.contains c id = true -> Js.contains c piece = true.
Proof.
  intros (l & r & Hb & _). rewrite !contains_bytes, Hb, !in_app_iff. tauto.
Qed.

Lemma split_nonempty sep s : Js.split sep s <> [].
Proof.
  destruct s as [|c r]; simpl; [discriminate|].
  destruct (Ascii.eqb c sep); [discriminate|].
  destruct (Js.split sep r); discriminate.
Qed.

(** No piece of a split contains the separator. *)
Lemma split_pieces sep s : Forall (fun w => Js.contains sep w = false) (Js.split sep s).
Proof.
  induction s as [|c r IH]; simpl.
  - repeat constructor.
  - destruct (Ascii.eqb c sep) eqn:Hc.
    + constructor; [reflexivity | exact IH].
    + destruct (Js.split sep r) as [|w ws]; [repeat constructor; simpl; now rewrite Hc|].
      inversion IH; subst. constructor; [simpl; now rewrite Hc | assumption].
Qed.

(** Joining the pieces with the separator gives the string back. *)
Lemma join_split sep s : Js.join sep (Js.split sep s) = s.
Proof.
  induction s as [|c r IH]; simpl; [reflexivity|].
  destruct (Ascii.eqb c sep) eqn:Hc.
  - apply Ascii.eqb_eq in Hc. subst c.
    pose proof (split_nonempty sep r) as Hne.
    destruct (Js.split sep r) as [|w ws]; [contradiction|].
    simpl in *. now rewrite IH.
  - pose proof (split_nonempty sep r) as Hne.
    destruct (Js.split sep r) as [|w ws]; [contradiction|].
    destruct ws as [|w' ws']; simpl in *; now rewrite <- IH.
Qed.

End StringFacts.

(** ** Website ids *)

Lemma trimmed_tokens_clean (l : list string) :
  Forall (fun w => Js.contains "," w = false) l ->
  Forall cleanId (List.filter Js.truthy (map Js.trim l)).
Proof.
  induction 1 as [|w l Hw _ IH]; simpl; [constructor|].
  destruct (Js.truthy (Js.trim w)) eqn:Ht; [|exact IH].
  constructor; [|exact IH].
  destruct (trim_trimmedOf w) as (pre & post & Hb & _ & _ & Hstart & Hend).
  repeat split.
  - intros E. rewrite E in Ht. discriminate.
  - exact Hstart.
  - exact Hend.
  - destruct (Js.contains "," (Js.trim w)) eqn:Hc; [|reflexivity].
    apply (trimmedOf_contains _ w) in Hc; [congruence | apply trim_trimmedOf].
Qed.

(** [map(trim)] followed by [filter(Boolean)] keeps the tokens of the
    pieces. *)
Lemma trimmed_tokens (l : list string) :
  tokensOf l (List.filter Js.truthy (map Js.trim l)).
Proof.
  induction l as [|piece l IH]; simpl; [constructor|].
  pose proof (trim_trimmedOf piece) as Htrim.
  destruct (Js.trim piece) as [|c r] eqn:E; simpl.
  - now apply tokensOf_drop.
  - apply tokensOf_keep; [exact Htrim | discriminate | exact IH].
Qed.

Lemma split_piecesOf s : piecesOf s (Js.split "," s).
Proof.
  split; [apply split_nonempty|]. split; [apply join_split | apply split_pieces].
Qed.

(** The cases of the repository's unit test of [getWebsiteIds]. *)
Example getWebsiteIds_three :
  getWebsiteIds (envOfVars (oneVar "UMAMI_WEBSITE_IDS" "website1,website2,website3"))
  = ["website1"; "website2"; "website3"].
Proof. vm_compute. reflexivity. Qed.

Example getWebsiteIds_single :
  getWebsiteIds (envOfVars (oneVar "UMAMI_WEBSITE_IDS" "single-website")) = ["single-website"].
Proof. vm_compute. reflexivity. Qed.

(** ** Frame facts: which parts of the state a call leaves alone *)

(** Unfold the monadic plumbing of a goal. *)
Ltac run_m :=
  cbv beta iota zeta delta
    [bind tryCatch tryFinally rethrowing ret throw get modify log];
  simpl.

Tactic Notation "run_m" "in" hyp(H) :=
  cbv beta iota zeta delta
    [bind tryCatch tryFinally rethrowing ret throw get modify log] in H;
  simpl in H.

Ltac field_instance := intro; intros; reflexivity.

#[global] Instance systemconfig_NoLogs : NoLogs systemconfig.
Proof. field_instance. Qed.
#[global] Instance systemconfig_NoTicks : NoTicks systemconfig.
Proof. field_instance. Qed.
#[global] Instance systemconfig_NoStoreOps : NoStoreOps systemconfig.
Proof. field_instance. Qed.
#[global] Instance systemconfig_NoUsers : NoUsers systemconfig.
Proof. field_instance. Qed.
#[global] Instance systemconfig_NoToken : NoToken systemconfig.
Proof. field_instance. Qed.
#[global] Instance systemconfig_NoAuthCalls : NoAuthCalls systemconfig.
Proof. field_instance. Qed.
#[global] Instance systemconfig_NoPageRequests : NoPageRequests systemconfig.
Proof. field_instance. Qed.

#[global] Instance users_NoLogs : NoLogs users.
Proof. field_instance. Qed.
#[global] Instance users_NoTicks : NoTicks users.
Proof. field_instance. Qed.
#[global] Instance users_NoStoreOps : NoStoreOps users.
Proof. field_instance. Qed.
#[global] Instance users_NoToken : NoToken users.
Proof. field_instance. Qed.
#[global] Instance users_NoAuthCalls : NoAuthCalls users.
Proof. field_instance. Qed.
#[global] Instance users_NoPageRequests : NoPageRequests users.
Proof. field_instance. Qed.
#[global] Instance users_NoStatuses : NoStatuses users.
Proof. field_instance. Qed.

#[global] Instance storeOps_NoLogs : NoLogs storeOps.
Proof. field_instance. Qed.
#[global] Instance storeOps_NoTicks : NoTicks storeOps.
Proof. field_instance. Qed.
#[global] Instance storeOps_NoUsers : NoUsers storeOps.
Proof. field_instance. Qed.
#[global] Instance storeOps_NoToken : NoToken storeOps.
Proof. field_instance. Qed.
#[global] Instance storeOps_NoAuthCalls : NoAuthCalls storeOps.
Proof. field_instance. Qed.
#[global] Instance storeOps_NoPageRequests : NoPageRequests storeOps.
Proof. field_instance. Qed.
#[global] Instance storeOps_NoStatuses : NoStatuses storeOps.
Proof. field_instance. Qed.

#[global] Instance ticks_NoLogs : NoLogs ticks.
Proof. field_instance. Qed.
#[global] Instance ticks_NoStoreOps : NoStoreOps ticks.
Proof. field_instance. Qed.
#[global] Instance ticks_NoUsers : NoUsers ticks.
Proof. field_instance. Qed.
#[global] Instance ticks_NoToken : NoToken ticks.
Proof. field_instance. Qed.
#[global] Instance ticks_NoAuthCalls : NoAuthCalls ticks.
Proof. field_instance. Qed.
#[global] Instance ticks_NoPageRequests : NoPageRequests ticks.
Proof. field_instance. Qed.
#[global] Instance ticks_NoStatuses : NoStatuses ticks.
Proof. field_instance. Qed.

#[global] Instance currentToken_NoLogs : NoLogs currentToken.
Proof. field_instance. Qed.
#[global] Instance currentToken_NoTicks : NoTicks currentToken.
Proof. field_instance. Qed.
#[global] Instance currentToken_NoStoreOps : NoStoreOps currentToken.
Proof. field_instance. Qed.
#[global] Instance currentToken_NoUsers : NoUsers currentToken.
Proof. field_instance. Qed.
#[global] Instance currentToken_NoAuthCalls : NoAuthCalls currentToken.
Proof. field_instance. Qed.
#[global] Instance currentToken_NoPageRequests : NoPageRequests currentToken.
Proof. field_instance. Qed.
#[global] Instance currentToken_NoStatuses : NoStatuses currentToken.
Proof. field_instance. Qed.

#[global] Instance authCalls_NoLogs : NoLogs authCalls.
Proof. field_instance. Qed.
#[global] Instance authCalls_NoTicks : NoTicks authCalls.
Proof. field_instance. Qed.
#[global] Instance authCalls_NoStoreOps : NoStoreOps authCalls.
Proof. field_instance. Qed.
#[global] Instance authCalls_NoUsers : NoUsers authCalls.
Proof. field_instance. Qed.
#[global] Instance authCalls_NoToken : NoToken authCalls.
Proof. field_instance. Qed.
#[global] Instance authCalls_NoPageRequests : NoPageRequests authCalls.
Proof. field_instance. Qed.
#[global] Instance authCalls_NoStatuses : NoStatuses authCalls.
Proof. field_instance. Qed.

#[global] Instance pageRequests_NoLogs : NoLogs pageRequests.
Proof. field_instance. Qed.
#[global] Instance pageRequests_NoTicks : NoTicks pageRequests.
Proof. field_instance. Qed.
#[global] Instance pageRequests_NoStoreOps : NoStoreOps pageRequests.
Proof. field_instance. Qed.
#[global] Instance pageRequests_NoUsers : NoUsers pageRequests.
Proof. field_instance. Qed.
#[global] Instance pageRequests_NoToken : NoToken pageRequests.
Proof. field_instance. Qed.
#[global] Instance pageRequests_NoAuthCalls : NoAuthCalls pageRequests.
Proof. field_instance. Qed.
#[global] Instance pageRequests_NoStatuses : NoStatuses pageRequests.
Proof. field_instance. Qed.

#[global] Instance websiteIds_NoLogs : NoLogs websiteIds.
Proof. field_instance. Qed.
#[global] Instance websiteIds_NoTicks : NoTicks websiteIds.
Proof. field_instance. Qed.
#[global] Instance websiteIds_NoStoreOps : NoStoreOps websiteIds.
Proof. field_instance. Qed.
#[global] Instance websiteIds_NoUsers : NoUsers websiteIds.
Proof. field_instance. Qed.
#[global] Instance websiteIds_NoToken : NoToken websiteIds.
Proof. field_instance. Qed.
#[global] Instance websiteIds_NoAuthCalls : NoAuthCalls websiteIds.
Proof. field_instance. Qed.
#[global] Instance websiteIds_NoPageRequests : NoPageRequests websiteIds.
Proof. field_instance. Qed.
#[global] Instance websiteIds_NoStatuses : NoStatuses websiteIds.
Proof. field_instance. Qed.

#[global] Instance watermarkOf_NoLogs : NoLogs watermarkOf.
Proof. field_instance. Qed.
#[global] Instance watermarkOf_NoTicks : NoTicks watermarkOf.
Proof. field_instance. Qed.
#[global] Instance watermarkOf_NoStoreOps : NoStoreOps watermarkOf.
Proof. field_instance. Qed.
#[global] Instance watermarkOf_NoUsers : NoUsers watermarkOf.
Proof. field_instance. Qed.
#[global] Instance watermarkOf_NoToken : NoToken watermarkOf.
Proof. field_instance. Qed.
#[global] Instance watermarkOf_NoAuthCalls : NoAuthCalls watermarkOf.
Proof. field_instance. Qed.
#[global] Instance watermarkOf_NoPageRequests : NoPageRequests watermarkOf.
Proof. field_instance. Qed.
#[global] Instance watermarkOf_NoStatuses : NoStatuses watermarkOf.
Proof. intros g s. unfold watermarkOf. simpl. destruct (systemconfig s); reflexivity. Qed.

Section Keeps.

Context {X : Type} (π : State -> X).

Lemma keeps_ret {A} (a : A) : keeps π (ret a).
Proof. intros s. reflexivity. Qed.

Lemma keeps_throw {A} (e : Error) : keeps π (@throw A e).
Proof. intros s. reflexivity. Qed.

Lemma keeps_get : keeps π get.
Proof. intros s. reflexivity. Qed.

Lemma keeps_bind {A B} (m : M A) (k : A -> M B) :
  keeps π m -> (forall a, keeps π (k a)) -> keeps π (bind m k).
Proof.
  intros Hm Hk s. unfold bind. specialize (Hm s).
  destruct (m s) as [[a|e|] s']; simpl in *; [|assumption..].
  now rewrite Hk.
Qed.

Lemma keeps_tryCatch {A} (m : M A) (h : Error -> M A) :
  keeps π m -> (forall e, keeps π (h e)) -> keeps π (tryCatch m h).
Proof.
  intros Hm Hh s. unfold tryCatch. specialize (Hm s).
  destruct (m s) as [[a|e|] s']; simpl in *; [assumption| |assumption].
  now rewrite Hh.
Qed.

Lemma keeps_tryFinally {A} (m : M A) (f : M unit) :
  keeps π m -> keeps π f -> keeps π (tryFinally m f).
Proof.
  intros Hm Hf s. unfold tryFinally. specialize (Hm s).
  destruct (m s) as [r s']; simpl in *. now rewrite Hf.
Qed.

Lemma keeps_log `{!NoLogs π} l msg : keeps π (log l msg).
Proof. intros s. apply no_logs. Qed.

Lemma keeps_rethrowing `{!NoLogs π} {A} (m : M A) msg :
  keeps π m -> keeps π (rethrowing m msg).
Proof.
  intros Hm. apply keeps_tryCatch; [assumption|].
  intros e. apply keeps_bind; [apply keeps_log | intros; apply keeps_throw].
Qed.

Lemma keeps_if {A} (b : bool) (m1 m2 : M A) :
  keeps π m1 -> keeps π m2 -> keeps π (if b then m1 else m2).
Proof. destruct b; auto. Qed.

End Keeps.

Create HintDb keeps discriminated.

#[global] Hint Resolve keeps_ret keeps_throw keeps_get keeps_log keeps_rethrowing
  keeps_if : keeps.
#[global] Hint Extern 2 (keeps _ (bind _ _)) => apply keeps_bind; [|intros] : keeps.
#[global] Hint Extern 2 (keeps _ (tryCatch _ _)) => apply keeps_tryCatch; [|intros] : keeps.
#[global] Hint Extern 2 (keeps _ (tryFinally _ _)) => apply keeps_tryFinally : keeps.
#[global] Hint Extern 5 (keeps _ (match ?x with _ => _ end)) => destruct x : keeps.

Ltac keeps := eauto 30 with keeps typeclass_instances.

Section KeepsServices.

Context (env : Env) {X : Type} (π : State -> X).

Lemma keeps_now `{!NoTicks π} : keeps π (now env).
Proof. intros s. apply no_ticks. Qed.

Lemma keeps_getConnection : keeps π (getConnection env).
Proof. unfold getConnection. destruct (connected env); keeps. Qed.

Lemma keeps_toISOString d : keeps π (toISOString d).
Proof. destruct d; simpl; keeps. Qed.

Lemma keeps_usersUpdateOne `{!NoStoreOps π, !NoUsers π} p f :
  keeps π (usersUpdateOne env p f).
Proof.
  intros s. unfold usersUpdateOne, storeOp.
  destruct (storeFails env (storeOps s)); simpl; [apply no_storeOps|].
  destruct (updateFirst p f _) as [r us]; simpl.
  rewrite no_users. apply no_storeOps.
Qed.

Lemma keeps_configFindOne `{!NoStoreOps π} : keeps π (configFindOne env).
Proof.
  intros s. unfold configFindOne, storeOp.
  destruct (storeFails env (storeOps s)); simpl; apply no_storeOps.
Qed.

Lemma keeps_statusUpdate `{!NoStoreOps π, !NoStatuses π} g :
  keeps π (configUpdateOne env (upsertUmamiSync (withStatuses g))).
Proof.
  intros s. unfold configUpdateOne, storeOp.
  destruct (storeFails env (storeOps s)); simpl; [apply no_storeOps|].
  change (systemconfig s) with (systemconfig (setStoreOps (S (storeOps s)) s)).
  rewrite no_statuses. apply no_storeOps.
Qed.

Lemma keeps_authenticate `{!NoLogs π, !NoToken π, !NoAuthCalls π} :
  keeps π (authenticate env).
Proof.
  intros s. unfold authenticate, bind, get, modify. simpl.
  destruct (login env (authCalls s)); simpl.
  - rewrite no_logs, no_token. apply no_authCalls.
  - rewrite no_logs. apply no_authCalls.
Qed.

Lemma keeps_getToken : keeps π getToken.
Proof.
  intros s. unfold getToken, bind, get. simpl.
  destruct (currentToken s) as [t|]; [destruct (Js.truthy t)|]; reflexivity.
Qed.

Lemma keeps_clearToken `{!NoLogs π, !NoToken π} : keeps π clearToken.
Proof. intros s. unfold clearToken, bind, modify, log. simpl. rewrite no_logs. apply no_token. Qed.

Lemma keeps_axiosGet `{!NoPageRequests π} rq : keeps π (axiosGet env rq).
Proof.
  intros s. unfold axiosGet, bind, get, modify. simpl.
  destruct (sessionsPage env _ rq); simpl; apply no_pageRequests.
Qed.

End KeepsServices.

#[global] Hint Resolve keeps_now keeps_getConnection keeps_toISOString keeps_usersUpdateOne
  keeps_configFindOne keeps_statusUpdate keeps_authenticate keeps_getToken
  keeps_clearToken keeps_axiosGet : keeps.

(** ** [UmamiApiService]: pagination *)

Section Pagination.

Context (env : Env).

Lemma keeps_fetchSessionsPage {X} (π : State -> X) `{!NoLogs π, !NoPageRequests π}
  w s e p ps : keeps π (fetchSessionsPage env w s e p ps).
Proof. unfold fetchSessionsPage. keeps. Qed.

Lemma keeps_paginate {X} (π : State -> X) `{!NoLogs π, !NoPageRequests π}
  fuel w s e p h acc : keeps π (paginate env fuel w s e p h acc).
Proof.
  revert p h acc. induction fuel as [|fuel IH]; intros p h acc; simpl.
  - destruct h; simpl; [intros st; reflexivity | apply keeps_ret].
  - destruct h; simpl; [|apply keeps_ret].
    apply keeps_bind; [apply keeps_fetchSessionsPage; assumption|].
    intros r. destruct (p + 1 >? 1000); [keeps | apply IH].
Qed.

Lemma keeps_fetchAllSessionsWithFuel {X} (π : State -> X) `{!NoLogs π, !NoPageRequests π}
  fuel w s e : keeps π (fetchAllSessionsWithFuel env fuel w s e).
Proof.
  unfold fetchAllSessionsWithFuel.
  apply keeps_bind; [keeps|]. intros _. apply keeps_rethrowing; [assumption|].
  apply keeps_bind; [apply keeps_paginate; assumption | intros; keeps].
Qed.

Lemma keeps_fetchAllSessions {X} (π : State -> X) `{!NoLogs π, !NoPageRequests π}
  w s e : keeps π (fetchAllSessions env w s e).
Proof. apply keeps_fetchAllSessionsWithFuel; assumption. Qed.

(** A page fetch issues at most one GET. *)
Lemma fetchSessionsPage_requests w s e p ps st :
  (length (pageRequests (snd (fetchSessionsPage env w s e p ps st)))
   <= S (length (pageRequests st)))%nat.
Proof.
  unfold fetchSessionsPage, getToken, axiosGet. run_m.
  destruct (currentToken st) as [t|]; simpl; [|lia].
  destruct (Js.truthy t); simpl; [|lia].
  destruct (sessionsPage env _ _); simpl; rewrite length_app; simpl; lia.
Qed.

(** The loop never issues more GETs than it has turns. *)
Lemma paginate_requests fuel w s e p h acc st :
  (length (pageRequests (snd (paginate env fuel w s e p h acc st)))
   <= length (pageRequests st) + fuel)%nat.
Proof.
  revert p h acc st. induction fuel as [|fuel IH]; intros p h acc st; simpl.
  - destruct h; simpl; lia.
  - destruct h; simpl; [|lia].
    run_m.
    pose proof (fetchSessionsPage_requests w s e p DEFAULT_CONFIG.API_PAGE_SIZE st) as Hp.
    destruct (fetchSessionsPage env w s e p DEFAULT_CONFIG.API_PAGE_SIZE st)
      as [[r|err|] st1]; simpl in *; [|lia..].
    destruct (p + 1 >? 1000).
    + simpl. lia.
    + specialize (IH (p + 1) (Z.of_nat (length (data r)) =? pageSize r)
                     (acc ++ data r)%list st1). lia.
Qed.

(** Once the page counter is at most 1000, any fuel that covers the pages
    left up to the ceiling gives the same run, and the loop does not run
    out of it: the guard [page > 1000] ends it first. *)
Lemma paginate_fuel_enough fuel fuel' w s e p h acc st :
  p <= 1000 -> 1001 - p <= Z.of_nat fuel -> 1001 - p <= Z.of_nat fuel' ->
  paginate env fuel w s e p h acc st = paginate env fuel' w s e p h acc st
  /\ fst (paginate env fuel w s e p h acc st) <> Diverged.
Proof.
  revert fuel' p h acc st.
  induction fuel as [|fuel IH]; intros fuel' p h acc st Hp Hf Hf'; [lia|].
  destruct fuel' as [|fuel']; [lia|].
  destruct h; simpl; [|split; [reflexivity | discriminate]].
  run_m.
  destruct (fetchSessionsPage env w s e p DEFAULT_CONFIG.API_PAGE_SIZE st)
    as [[r|err|] st1] eqn:Hpage; simpl.
  - destruct (p + 1 >? 1000) eqn:Hc.
    + split; [reflexivity | discriminate].
    + apply IH; lia.
  - split; [reflexivity | discriminate].
  - exfalso. revert Hpage.
    unfold fetchSessionsPage, getToken, axiosGet. run_m.
    destruct (currentToken st) as [t|]; simpl; [|discriminate].
    destruct (Js.truthy t); simpl; [|discriminate].
    destruct (sessionsPage env _ _); simpl; discriminate.
Qed.

End Pagination.

Section PaginationServed.

Context (env : Env) (w : string) (s e : Z).

Lemma paginate_step fuel p acc :
  paginate env (S fuel) w s e p true acc
  = bind (fetchSessionsPage env w s e p DEFAULT_CONFIG.API_PAGE_SIZE)
      (fun response =>
         if p + 1 >? 1000 then
           bind (log Warn "Reached maximum page limit, stopping pagination")
             (fun _ => ret (acc ++ data response))
         else paginate env fuel w s e (p + 1)
                (Z.of_nat (length (data response)) =? pageSize response)
                (acc ++ data response)).
Proof. reflexivity. Qed.

Lemma fetchSessionsPage_ok p st r :
  hasToken st ->
  sessionsPage env (length (pageRequests st)) (pageRequest w s e p) = Some r ->
  fetchSessionsPage env w s e p DEFAULT_CONFIG.API_PAGE_SIZE st
  = (Returned r, afterPage (pageRequest w s e p) st).
Proof.
  intros (t & Ht & Htruthy) Hr.
  unfold fetchSessionsPage, getToken, axiosGet. run_m.
  rewrite Ht, Htruthy. simpl.
  change {| rq_path := Js.replace API_ENDPOINTS.SESSIONS "{websiteId}" w;
            rq_startAt := s; rq_endAt := e; rq_page := p;
            rq_pageSize := DEFAULT_CONFIG.API_PAGE_SIZE |}
    with (pageRequest w s e p).
  rewrite Hr. reflexivity.
Qed.

Lemma hasToken_afterPage rq st : hasToken st -> hasToken (afterPage rq st).
Proof. exact (fun H => H). Qed.

Lemma requestsFrom_cons p n :
  requestsFrom w s e p (S n) = pageRequest w s e p :: requestsFrom w s e (p + 1) n.
Proof.
  unfold requestsFrom. simpl. rewrite Z.add_0_r. f_equal.
  rewrite <- seq_shift, map_map. apply map_ext. intros k. f_equal. lia.
Qed.

Lemma serves_tail i0 p r pages :
  serves env w s e i0 p (r :: pages) -> serves env w s e (S i0) (p + 1) pages.
Proof.
  intros H k r' Hk. specialize (H (S k) r' Hk).
  replace (S i0 + k)%nat with (i0 + S k)%nat by lia.
  replace (p + 1 + Z.of_nat k) with (p + Z.of_nat (S k)) by lia.
  exact H.
Qed.

Lemma serves_head i0 p r pages :
  serves env w s e i0 p (r :: pages) ->
  sessionsPage env i0 (pageRequest w s e p) = Some r.
Proof.
  intros H. specialize (H O r eq_refl).
  now rewrite Nat.add_0_r, Z.add_0_r in H.
Qed.

(** The loop over pages that are served: full pages [fulls], then a page
    [lastp] that is either not full or the thousandth. *)
Lemma paginate_served fulls lastp : forall fuel p acc st,
  hasToken st ->
  serves env w s e (length (pageRequests st)) p (fulls ++ [lastp]) ->
  Forall (fun r => fullPage r = true) fulls ->
  p + Z.of_nat (length fulls) <= 1000 ->
  fullPage lastp = false \/ p + Z.of_nat (length fulls) = 1000 ->
  (length fulls < fuel)%nat ->
  exists st',
    paginate env fuel w s e p true acc st
    = (Returned (acc ++ concat (map data (fulls ++ [lastp]))), st')
    /\ pageRequests st' = pageRequests st ++ requestsFrom w s e p (S (length fulls))
    /\ (p + Z.of_nat (length fulls) = 1000 -> In pageLimitWarning (logs st')).
Proof.
  induction fulls as [|r fulls IH]; intros fuel p acc st Htok Hserve Hfull Hp Hlast Hfuel.
  - destruct fuel as [|fuel]; [simpl in Hfuel; lia|].
    simpl in *. run_m.
    rewrite (fetchSessionsPage_ok p st lastp Htok (serves_head _ _ _ _ Hserve)).
    simpl. rewrite app_nil_r.
    destruct (p + 1 >? 1000) eqn:Hc.
    + eexists. split; [reflexivity|]. rewrite requestsFrom_cons.
      split; [reflexivity|].
      intros _. simpl. apply in_or_app. right. left. reflexivity.
    + destruct Hlast as [Hshort | Heq]; [|lia].
      fold (fullPage lastp). rewrite Hshort. rewrite requestsFrom_cons.
      destruct fuel; simpl; (eexists; split; [reflexivity|]; split; [reflexivity | lia]).
  - destruct fuel as [|fuel]; [simpl in Hfuel; lia|].
    inversion Hfull as [|? ? Hr Hfulls]; subst.
    simpl in Hp, Hfuel, Hlast.
    simpl paginate. run_m.
    rewrite (fetchSessionsPage_ok p st r Htok (serves_head _ _ _ _ Hserve)).
    simpl. fold (fullPage r). rewrite Hr.
    destruct (p + 1 >? 1000) eqn:Hc; [lia|].
    destruct (IH fuel (p + 1) (acc ++ data r)%list (afterPage (pageRequest w s e p) st))
      as (st' & Hrun & Hreq & Hwarn).
    + apply hasToken_afterPage, Htok.
    + simpl. rewrite length_app. simpl.
      replace (length (pageRequests st) + 1)%nat with (S (length (pageRequests st))) by lia.
      apply serves_tail with (r := r). exact Hserve.
    + exact Hfulls.
    + lia.
    + destruct Hlast as [?|?]; [left; assumption | right; lia].
    + lia.
    + exists st'. split; [|split].
      * rewrite Hrun. simpl. now rewrite <- app_assoc.
      * rewrite Hreq. simpl. rewrite (requestsFrom_cons p (S (length fulls))).
        now rewrite <- app_assoc.
      * intros Heq. apply Hwarn. lia.
Qed.

(** The loop against an API that only ever returns full pages. *)
Lemma paginate_always_full : forall fuel p acc st,
  hasToken st -> alwaysFull env ->
  1 <= p <= 1000 -> 1001 - p <= Z.of_nat fuel ->
  exists result st',
    paginate env fuel w s e p true acc st = (Returned result, st')
    /\ pageRequests st' = pageRequests st ++ requestsFrom w s e p (Z.to_nat (1001 - p))
    /\ In pageLimitWarning (logs st').
Proof.
  induction fuel as [|fuel IH]; intros p acc st Htok Hfull Hp Hfuel; [lia|].
  destruct (Hfull (length (pageRequests st)) (pageRequest w s e p)) as (r & Hr & Hrfull).
  simpl paginate. run_m.
  rewrite (fetchSessionsPage_ok p st r Htok Hr). simpl.
  fold (fullPage r). rewrite Hrfull.
  destruct (p + 1 >? 1000) eqn:Hc.
  - assert (p = 1000) as -> by lia.
    eexists _, _. split; [reflexivity|].
    change (Z.to_nat (1001 - 1000)) with 1%nat. rewrite requestsFrom_cons.
    split; [reflexivity|].
    simpl. apply in_or_app. right. left. reflexivity.
  - destruct (IH (p + 1) (acc ++ data r)%list (afterPage (pageRequest w s e p) st))
      as (result & st' & Hrun & Hreq & Hwarn);
      [apply hasToken_afterPage, Htok | exact Hfull | lia | lia |].
    exists result, st'. split; [exact Hrun|]. split; [|exact Hwarn].
    rewrite Hreq. simpl.
    replace (Z.to_nat (1001 - p)) with (S (Z.to_nat (1001 - (p + 1)))) by lia.
    rewrite requestsFrom_cons. now rewrite <- app_assoc.
Qed.

End PaginationServed.

Section FetchAllSessions.

Context (env : Env) (w : string) (s e : Z).

Lemma fetchAllSessionsWithFuel_returned fuel st l st1 :
  paginate env fuel w s e 1 true [] (started st) = (Returned l, st1) ->
  fetchAllSessionsWithFuel env fuel w s e st
  = (Returned l, setLogs (logs st1 ++ [(Info, LOG_MESSAGES.WEBSITE_SYNC_COMPLETED)]) st1).
Proof.
  intros H. unfold fetchAllSessionsWithFuel. run_m.
  change (setLogs (logs st ++ [(Info, LOG_MESSAGES.WEBSITE_SYNC_STARTED)]) st)
    with (started st).
  now rewrite H.
Qed.

Lemma fetchAllSessionsWithFuel_outcome fuel st :
  fst (fetchAllSessionsWithFuel env fuel w s e st) = Diverged ->
  fst (paginate env fuel w s e 1 true [] (started st)) = Diverged.
Proof.
  unfold fetchAllSessionsWithFuel. run_m.
  change (setLogs (logs st ++ [(Info, LOG_MESSAGES.WEBSITE_SYNC_STARTED)]) st)
    with (started st).
  destruct (paginate env fuel w s e 1 true [] (started st)) as [[l|err|] st1];
    simpl; (discriminate || reflexivity).
Qed.

Lemma fetchAllSessionsWithFuel_requests fuel st :
  pageRequests (snd (fetchAllSessionsWithFuel env fuel w s e st))
  = pageRequests (snd (paginate env fuel w s e 1 true [] (started st))).
Proof.
  unfold fetchAllSessionsWithFuel. run_m.
  change (setLogs (logs st ++ [(Info, LOG_MESSAGES.WEBSITE_SYNC_STARTED)]) st)
    with (started st).
  destruct (paginate env fuel w s e 1 true [] (started st)) as [[l|err|] st1];
    reflexivity.
Qed.

(** [fetchAllSessions] is never cut off by the fuel of its loop. *)
Lemma fetchAllSessions_not_diverged st :
  fst (fetchAllSessions env w s e st) <> Diverged.
Proof.
  intros Hd. apply fetchAllSessionsWithFuel_outcome in Hd.
  revert Hd. apply paginate_fuel_enough with (fuel' := 1000%nat); lia.
Qed.

(** C7. The pagination loop of [fetchAllSessions] ends by itself: a run
    with any fuel of at least 1000 turns is the run with exactly 1000 and
    is never cut off by the fuel; at most 1000 GETs are issued; and against
    an API that answers every GET with a full page the call still returns,
    after exactly the GETs for pages 1 to 1000, having logged the
    page-limit warning. *)
Theorem fetchAllSessions_page_ceiling (fuel : nat) (st : State) :
  (1000 <= fuel)%nat ->
  fetchAllSessionsWithFuel env fuel w s e st = fetchAllSessions env w s e st
  /\ fst (fetchAllSessions env w s e st) <> Diverged
  /\ (length (pageRequests (snd (fetchAllSessions env w s e st)))
      <= length (pageRequests st) + 1000)%nat
  /\ (hasToken st -> alwaysFull env ->
      isReturned (fst (fetchAllSessions env w s e st)) = true
      /\ pageRequests (snd (fetchAllSessions env w s e st))
         = pageRequests st ++ requestsFrom w s e 1 1000
      /\ In pageLimitWarning (logs (snd (fetchAllSessions env w s e st)))).
Proof.
  intros Hfuel. unfold fetchAllSessions. repeat split.
  - unfold fetchAllSessionsWithFuel.
    assert (forall st0, paginate env fuel w s e 1 true [] st0
                        = paginate env 1000 w s e 1 true [] st0) as Heq
      by (intros st0; apply paginate_fuel_enough; lia).
    cbv beta iota zeta delta [bind tryCatch rethrowing ret throw modify log].
    now rewrite Heq.
  - apply fetchAllSessions_not_diverged.
  - rewrite fetchAllSessionsWithFuel_requests.
    pose proof (paginate_requests env 1000 w s e 1 true [] (started st)) as H.
    exact H.
  - destruct (paginate_always_full env w s e 1000 1 [] (started st))
      as (l & st1 & Hrun & _); [assumption | assumption | lia | lia |].
    now rewrite (fetchAllSessionsWithFuel_returned _ _ _ _ Hrun).
  - destruct (paginate_always_full env w s e 1000 1 [] (started st))
      as (l & st1 & Hrun & Hreq & _); [assumption | assumption | lia | lia |].
    rewrite (fetchAllSessionsWithFuel_returned _ _ _ _ Hrun). simpl.
    exact Hreq.
  - destruct (paginate_always_full env w s e 1000 1 [] (started st))
      as (l & st1 & Hrun & _ & Hwarn); [assumption | assumption | lia | lia |].
    rewrite (fetchAllSessionsWithFuel_returned _ _ _ _ Hrun). simpl.
    apply in_or_app. left. exact Hwarn.
Qed.

(** C4 (amended). [fetchAllSessions] asks for pages 1, 2, ... in turn. When
    the API serves full pages [fulls] (as many records as the page size the
    response reports) followed by a page [lastp] that is not full, or that
    is the thousandth page, the call issues exactly the GETs for pages 1 to
    [length fulls + 1] and returns the records of all these pages in order. *)
Theorem fetchAllSessions_pages (st : State) (fulls : list UmamiApiResponse)
  (lastp : UmamiApiResponse) :
  hasToken st ->
  serves env w s e (length (pageRequests st)) 1 (fulls ++ [lastp]) ->
  Forall (fun r => fullPage r = true) fulls ->
  (length fulls < 1000)%nat ->
  fullPage lastp = false \/ length fulls = 999%nat ->
  fst (fetchAllSessions env w s e st) = Returned (concat (map data (fulls ++ [lastp])))
  /\ pageRequests (snd (fetchAllSessions env w s e st))
     = pageRequests st ++ requestsFrom w s e 1 (S (length fulls)).
Proof.
  intros Htok Hserve Hfull Hlen Hlast.
  destruct (paginate_served env w s e fulls lastp 1000 1 [] (started st))
    as (st1 & Hrun & Hreq & _); try assumption; try lia.
  { destruct Hlast as [?|?]; [left; assumption | right; lia]. }
  unfold fetchAllSessions.
  rewrite (fetchAllSessionsWithFuel_returned _ _ _ _ Hrun). simpl.
  split; [reflexivity | exact Hreq].
Qed.

End FetchAllSessions.

Lemma hasToken_stateOf ids docs config :
  hasToken (stateOf ids docs config (Some "token")).
Proof. exists "token". split; reflexivity. Qed.

Lemma fetchAllSessions_page_ceiling_witness :
  let run := fetchAllSessions (envOfPages endlessPages) "site" 0 1
               (stateOf ["site"] [] None (Some "token")) in
  fst run <> Diverged
  /\ pageRequests (snd run) = requestsFrom "site" 0 1 1 1000
  /\ In pageLimitWarning (logs (snd run)).
Proof.
  pose proof (fetchAllSessions_page_ceiling (envOfPages endlessPages) "site" 0 1 1000
                (stateOf ["site"] [] None (Some "token")) (le_n _))
    as (_ & Hterm & _ & Hfull).
  destruct Hfull as (_ & Hreq & Hwarn).
  - apply hasToken_stateOf.
  - intros i rq. exists (pageOf 2 2). split; reflexivity.
  - exact (conj Hterm (conj Hreq Hwarn)).
Defined.

Lemma fetchAllSessions_pages_witness :
  let run := fetchAllSessions (envOfPages threePages) "site" 0 1
               (stateOf ["site"] [] None (Some "token")) in
  (exists l, fst run = Returned l /\ length l = 237%nat)
  /\ pageRequests (snd run)
     = [pageRequest "site" 0 1 1; pageRequest "site" 0 1 2; pageRequest "site" 0 1 3].
Proof.
  destruct (fetchAllSessions_pages (envOfPages threePages) "site" 0 1
              (stateOf ["site"] [] None (Some "token"))
              [pageOf 100 100; pageOf 100 100] (pageOf 37 100)) as (Hrun & Hreq).
  - apply hasToken_stateOf.
  - intros k r. destruct k as [|[|[|k]]]; simpl; intros [= <-]; reflexivity.
  - repeat constructor.
  - simpl. lia.
  - left. reflexivity.
  - split; [|exact Hreq].
    eexists. split; [exact Hrun | reflexivity].
Defined.

(** C4 as stated fails: an API that caps pages at 50 records, and reports
    that page size, returns a first page smaller than the 100 records asked
    for, yet the loop goes on and asks for page 2. *)
Lemma fetchAllSessions_continues_after_short_page :
  let st := stateOf ["site"] [] None (Some "token") in
  let run := fetchAllSessions (envOfPages cappedPages) "site" 0 1 st in
  (exists r, sessionsPage (envOfPages cappedPages) 0 (pageRequest "site" 0 1 1) = Some r
             /\ Z.of_nat (length (data r)) < rq_pageSize (pageRequest "site" 0 1 1))
  /\ pageRequests (snd run) = [pageRequest "site" 0 1 1; pageRequest "site" 0 1 2].
Proof.
  split.
  - exists (pageOf 50 50). split; [reflexivity|]. vm_compute. reflexivity.
  - vm_compute. reflexivity.
Qed.

(** ** The sync window planner *)

Section Window.

Context (env : Env).

Lemma keeps_determineSyncWindow {X} (π : State -> X)
  `{!NoLogs π, !NoTicks π, !NoStoreOps π} : keeps π (determineSyncWindow env).
Proof.
  unfold determineSyncWindow.
  apply keeps_bind; [keeps|]. intros _.
  apply keeps_bind; [keeps|]. intros config.
  apply keeps_bind; [keeps|]. intros today.
  destruct (watermark config); keeps.
Qed.

Lemma ofNumber_valid t : validTime t -> JsDate.ofNumber (Some t) = Some t.
Proof.
  intros [H1 H2]. unfold JsDate.ofNumber.
  apply Z.leb_le in H1, H2. now rewrite H1, H2.
Qed.

Lemma determineSyncWindow_initial st days :
  connected env = true -> storeFails env (storeOps st) = false ->
  watermarkOf st = None ->
  initialSyncDays env = Some days ->
  validTime (clock env (S (ticks st)) - days * JsDate.msPerDay) ->
  fst (determineSyncWindow env st)
  = Returned {| startDate := clock env (S (ticks st)) - days * JsDate.msPerDay;
                endDate := clock env (ticks st); syncType := initial |}.
Proof.
  intros Hc Hs Hw Hd Hv.
  unfold determineSyncWindow, getConnection, configFindOne, storeOp, now, toISOString.
  run_m. rewrite Hc. simpl. rewrite Hs. simpl.
  unfold watermarkOf in Hw. rewrite Hw. simpl.
  unfold initialSyncDays in Hd. rewrite Hd. simpl.
  replace (clock env (S (ticks st)) - days * 24 * 60 * 60 * 1000)
    with (clock env (S (ticks st)) - days * JsDate.msPerDay)
    by (unfold JsDate.msPerDay; lia).
  rewrite (ofNumber_valid _ Hv). reflexivity.
Qed.

Lemma determineSyncWindow_incremental st T :
  connected env = true -> storeFails env (storeOps st) = false ->
  watermarkOf st = Some T ->
  validTime (T - DEFAULT_CONFIG.SYNC_BUFFER_HOURS * 3600000) ->
  fst (determineSyncWindow env st)
  = Returned {| startDate := T - DEFAULT_CONFIG.SYNC_BUFFER_HOURS * 3600000;
                endDate := clock env (ticks st); syncType := incremental |}.
Proof.
  intros Hc Hs Hw Hv.
  unfold determineSyncWindow, getConnection, configFindOne, storeOp, now, toISOString.
  run_m. rewrite Hc. simpl. rewrite Hs. simpl.
  unfold watermarkOf in Hw. rewrite Hw. simpl.
  replace (T - DEFAULT_CONFIG.SYNC_BUFFER_HOURS * 60 * 60 * 1000)
    with (T - DEFAULT_CONFIG.SYNC_BUFFER_HOURS * 3600000) by lia.
  rewrite (ofNumber_valid _ Hv). reflexivity.
Qed.

Lemma initialSyncDays_default :
  processEnv env "INITIAL_SYNC_DAYS" = None \/ processEnv env "INITIAL_SYNC_DAYS" = Some "" ->
  initialSyncDays env = Some DEFAULT_CONFIG.INITIAL_SYNC_DAYS.
Proof. unfold initialSyncDays. intros [-> | ->]; reflexivity. Qed.

(** Planning only returns when the store is connected and answers. *)
Lemma determineSyncWindow_returned st w st' :
  determineSyncWindow env st = (Returned w, st') ->
  connected env = true /\ storeFails env (storeOps st) = false
  /\ storeOps st' = S (storeOps st).
Proof.
  unfold determineSyncWindow, getConnection, configFindOne, storeOp, now, toISOString.
  run_m. destruct (connected env); simpl; [|discriminate].
  destruct (storeFails env (storeOps st)); simpl; [discriminate|].
  destruct (watermark (systemconfig st)) as [T|]; simpl.
  - destruct (JsDate.ofNumber _); simpl; intros [= <- <-]; auto.
  - destruct (JsDate.ofNumber _); simpl; intros [= <- <-]; auto.
Qed.

Lemma determineSyncWindow_not_diverged st :
  fst (determineSyncWindow env st) <> Diverged.
Proof.
  unfold determineSyncWindow, getConnection, configFindOne, storeOp, now, toISOString.
  run_m. destruct (connected env); simpl; [|discriminate].
  destruct (storeFails env (storeOps st)); simpl; [discriminate|].
  destruct (watermark (systemconfig st)) as [T|]; simpl;
    destruct (JsDate.ofNumber _); simpl; discriminate.
Qed.

(** C3. With the store connected and answering the read, the window
    planned from the stored watermark is: when [lastSuccessfulSync] is
    absent, kind [initial], starting [InitialSyncDays] whole days before
    the reading of [Date.now()] and ending at the reading of [new Date()]
    taken just before (the two coincide when the clock did not tick in
    between), where [InitialSyncDays] is parsed from [INITIAL_SYNC_DAYS]
    and is 7 when the variable is unset or empty; otherwise, for a
    watermark [T], kind [incremental], starting exactly 12 hours before [T]
    and ending at the reading of [new Date()]. *)
Theorem determineSyncWindow_plan (st : State) :
  connected env = true -> storeFails env (storeOps st) = false ->
  let today := clock env (ticks st) in
  let dateNow := clock env (S (ticks st)) in
  (forall days,
     watermarkOf st = None -> initialSyncDays env = Some days ->
     validTime (dateNow - days * JsDate.msPerDay) ->
     fst (determineSyncWindow env st)
     = Returned {| startDate := dateNow - days * (24 * 60 * 60 * 1000);
                   endDate := today; syncType := initial |}
     /\ (dateNow = today ->
         fst (determineSyncWindow env st)
         = Returned {| startDate := today - days * (24 * 60 * 60 * 1000);
                       endDate := today; syncType := initial |}))
  /\ (processEnv env "INITIAL_SYNC_DAYS" = None \/ processEnv env "INITIAL_SYNC_DAYS" = Some "" ->
      initialSyncDays env = Some 7)
  /\ (forall T,
        watermarkOf st = Some T -> validTime (T - 12 * (60 * 60 * 1000)) ->
        fst (determineSyncWindow env st)
        = Returned {| startDate := T - 12 * (60 * 60 * 1000);
                      endDate := today; syncType := incremental |}).
Proof.
  intros Hc Hs today dateNow. split; [|split].
  - intros days Hw Hd Hv.
    pose proof (determineSyncWindow_initial st days Hc Hs Hw Hd Hv) as H.
    split; [exact H|]. intros E. fold dateNow in H. rewrite E in H. exact H.
  - apply initialSyncDays_default.
  - intros T Hw Hv. exact (determineSyncWindow_incremental st T Hc Hs Hw Hv).
Qed.

End Window.

Lemma determineSyncWindow_plan_witness :
  fst (determineSyncWindow (envOfRows (fun _ => None) [] (fun _ _ => None))
         (stateOf ["site"] [] None None))
  = Returned {| startDate := 1700000000001 - 7 * (24 * 60 * 60 * 1000);
                endDate := 1700000000000; syncType := initial |}
  /\ fst (determineSyncWindow (envOfRows (fun _ => None) [] (fun _ _ => None))
            (stateOf ["site"] [] (Some (configAt 1699990000000)) None))
     = Returned {| startDate := 1699990000000 - 12 * (60 * 60 * 1000);
                   endDate := 1700000000000; syncType := incremental |}.
Proof.
  split.
  - refine (proj1 (proj1 (determineSyncWindow_plan
                     (envOfRows (fun _ => None) [] (fun _ _ => None))
                     (stateOf ["site"] [] None None) eq_refl eq_refl)
                     7 eq_refl eq_refl _)).
    unfold validTime, JsDate.maxTime, JsDate.msPerDay. simpl. lia.
  - refine (proj2 (proj2 (determineSyncWindow_plan
                     (envOfRows (fun _ => None) [] (fun _ _ => None))
                     (stateOf ["site"] [] (Some (configAt 1699990000000)) None)
                     eq_refl eq_refl))
                     1699990000000 eq_refl _).
    unfold validTime, JsDate.maxTime. lia.
Defined.

(** ** Calls that end by themselves *)

Section Terminates.

Lemma terminates_ret {A} (a : A) : terminates (ret a).
Proof. intros s. discriminate. Qed.

Lemma terminates_throw {A} (e : Error) : terminates (@throw A e).
Proof. intros s. discriminate. Qed.

Lemma terminates_get : terminates get.
Proof. intros s. discriminate. Qed.

Lemma terminates_modify f : terminates (modify f).
Proof. intros s. discriminate. Qed.

Lemma terminates_log l msg : terminates (log l msg).
Proof. intros s. discriminate. Qed.

Lemma terminates_bind {A B} (m : M A) (k : A -> M B) :
  terminates m -> (forall a, terminates (k a)) -> terminates (bind m k).
Proof.
  intros Hm Hk s. unfold bind. specialize (Hm s).
  destruct (m s) as [[a|e|] s']; simpl in *; [apply Hk | discriminate | congruence].
Qed.

Lemma terminates_tryCatch {A} (m : M A) (h : Error -> M A) :
  terminates m -> (forall e, terminates (h e)) -> terminates (tryCatch m h).
Proof.
  intros Hm Hh s. unfold tryCatch. specialize (Hm s).
  destruct (m s) as [[a|e|] s']; simpl in *; [discriminate | apply Hh | congruence].
Qed.

Lemma terminates_tryFinally {A} (m : M A) (f : M unit) :
  terminates m -> terminates (tryFinally m f).
Proof.
  intros Hm s. unfold tryFinally. specialize (Hm s).
  destruct (m s) as [r s']; simpl in *. exact Hm.
Qed.

Lemma terminates_rethrowing {A} (m : M A) msg :
  terminates m -> terminates (rethrowing m msg).
Proof.
  intros Hm. apply terminates_tryCatch; [assumption|].
  intros e. apply terminates_bind; [apply terminates_log | intros; apply terminates_throw].
Qed.

Lemma terminates_if {A} (b : bool) (m1 m2 : M A) :
  terminates m1 -> terminates m2 -> terminates (if b then m1 else m2).
Proof. destruct b; auto. Qed.

End Terminates.

Create HintDb terminates discriminated.

#[global] Hint Resolve terminates_ret terminates_throw terminates_get terminates_modify
  terminates_log terminates_rethrowing terminates_if terminates_tryFinally : terminates.
#[global] Hint Extern 2 (terminates (bind _ _)) =>
  apply terminates_bind; [|intros] : terminates.
#[global] Hint Extern 2 (terminates (tryCatch _ _)) =>
  apply terminates_tryCatch; [|intros] : terminates.
#[global] Hint Extern 5 (terminates (match ?x with _ => _ end)) => destruct x : terminates.

Ltac terminates := eauto 30 with terminates.

Section TerminatesServices.

Context (env : Env).

Lemma terminates_now : terminates (now env).
Proof. unfold now. terminates. Qed.

Lemma terminates_getConnection : terminates (getConnection env).
Proof. unfold getConnection. terminates. Qed.

Lemma terminates_storeOp {A} (body : State -> A * State) : terminates (storeOp env body).
Proof.
  intros s. unfold storeOp. destruct (storeFails env (storeOps s)); simpl; [discriminate|].
  destruct (body _); discriminate.
Qed.

Lemma terminates_authenticate : terminates (authenticate env).
Proof. unfold authenticate. terminates. Qed.

Lemma terminates_clearToken : terminates clearToken.
Proof. unfold clearToken. terminates. Qed.

Lemma terminates_fetchAllSessions w s e : terminates (fetchAllSessions env w s e).
Proof.
  intros st. apply (fetchAllSessions_not_diverged env w s e st).
Qed.

End TerminatesServices.

(** ** The session phase *)

Section SessionPhase.

Context (env : Env).

Lemma keeps_updateUserSession {X} (π : State -> X)
  `{!NoLogs π, !NoTicks π, !NoStoreOps π, !NoUsers π} session n :
  keeps π (updateUserSession env session n).
Proof. unfold updateUserSession. keeps. Qed.

Lemma keeps_updateUserSessions {X} (π : State -> X)
  `{!NoLogs π, !NoTicks π, !NoStoreOps π, !NoUsers π} sessions :
  forall n, keeps π (updateUserSessions env sessions n).
Proof.
  induction sessions as [|session rest IH]; intros n; simpl; [keeps|].
  apply keeps_bind; [apply keeps_updateUserSession; assumption | intros; apply IH].
Qed.

Lemma keeps_updateUserSessionsSequential {X} (π : State -> X)
  `{!NoLogs π, !NoTicks π, !NoStoreOps π, !NoUsers π} sessions :
  keeps π (updateUserSessionsSequential env sessions).
Proof.
  unfold updateUserSessionsSequential.
  apply keeps_bind; [keeps|]. intros _.
  apply keeps_bind; [keeps|]. intros _.
  apply keeps_bind; [apply keeps_updateUserSessions; assumption|]. intros n.
  keeps.
Qed.

Lemma keeps_getSessionsAfterDate {X} (π : State -> X) `{!NoLogs π} t :
  keeps π (getSessionsAfterDate env t).
Proof. unfold getSessionsAfterDate. destruct (sessionRows env t); keeps. Qed.

(** The session phase touches the [users] collection, the clock and the
    logs, nothing else. *)
Lemma keeps_syncSessionIdsForWindow {X} (π : State -> X)
  `{!NoLogs π, !NoTicks π, !NoStoreOps π, !NoUsers π} t1 t2 :
  keeps π (syncSessionIdsForWindow env t1 t2).
Proof.
  unfold syncSessionIdsForWindow. apply keeps_rethrowing; [assumption|].
  apply keeps_bind; [keeps|]. intros _.
  apply keeps_bind; [apply keeps_getSessionsAfterDate; assumption|]. intros rows.
  apply keeps_bind; [keeps|]. intros _.
  apply keeps_if; [keeps|].
  apply keeps_bind; [keeps|]. intros s.
  apply keeps_bind; [keeps|]. intros _.
  apply keeps_if; [keeps|].
  apply keeps_bind; [apply keeps_updateUserSessionsSequential; assumption | intros; keeps].
Qed.

Lemma terminates_updateUserSessions sessions :
  forall n, terminates (updateUserSessions env sessions n).
Proof.
  induction sessions as [|session rest IH]; intros n; simpl; [terminates|].
  apply terminates_bind; [|intros; apply IH].
  unfold updateUserSession, usersUpdateOne.
  apply terminates_tryCatch; [|intros; terminates].
  apply terminates_bind; [apply terminates_now|]. intros t.
  apply terminates_bind; [apply terminates_storeOp | intros; terminates].
Qed.

Lemma terminates_syncSessionIdsForWindow t1 t2 :
  terminates (syncSessionIdsForWindow env t1 t2).
Proof.
  unfold syncSessionIdsForWindow, updateUserSessionsSequential, getSessionsAfterDate.
  apply terminates_rethrowing.
  apply terminates_bind; [terminates|]. intros _.
  apply terminates_bind; [terminates|]. intros rows.
  apply terminates_bind; [terminates|]. intros _.
  apply terminates_if; [terminates|].
  apply terminates_bind; [terminates|]. intros s.
  apply terminates_bind; [terminates|]. intros _.
  apply terminates_if; [terminates|].
  apply terminates_bind; [|intros; terminates].
  apply terminates_bind; [terminates|]. intros _.
  apply terminates_bind; [apply terminates_getConnection|]. intros _.
  apply terminates_bind; [apply terminates_updateUserSessions|]. intros n.
  terminates.
Qed.

(** The loop over the batch does what [sessionBatch] says. *)
Lemma updateUserSessions_batch sessions : forall n st,
  exists st',
    updateUserSessions env sessions n st
    = (Returned (n + fst (sessionBatch env sessions (ticks st) (storeOps st) (users st))), st')
    /\ users st' = snd (sessionBatch env sessions (ticks st) (storeOps st) (users st))
    /\ ticks st' = (ticks st + length sessions)%nat
    /\ storeOps st' = (storeOps st + length sessions)%nat.
Proof.
  induction sessions as [|session rest IH]; intros n st.
  - exists st. simpl. rewrite Z.add_0_r, !Nat.add_0_r. auto.
  - simpl updateUserSessions. simpl sessionBatch.
    unfold updateUserSession, now, usersUpdateOne, storeOp. run_m.
    destruct (storeFails env (storeOps st)) eqn:Hfail; simpl.
    + match goal with |- context [updateUserSessions env rest n ?s1] =>
        destruct (IH n s1) as (st' & Hrun & Hu & Ht & Hs) end.
      simpl in *. exists st'. rewrite Hrun. repeat split; try assumption; lia.
    + change (fun u : User => (email u =? toLowerCase env (distinct_id session))%string)
        with (matchesRow env session).
      destruct (updateFirst (matchesRow env session) (setSession session (clock env (ticks st)))
                  (users st)) as [r docs1] eqn:Hupd; simpl.
      match goal with |- context [updateUserSessions env rest ?m ?s1] =>
        destruct (IH m s1) as (st' & Hrun & Hu & Ht & Hs) end.
      simpl in *. exists st'. rewrite Hrun.
      destruct (sessionBatch env rest (S (ticks st)) (S (storeOps st)) docs1) as [k docs2].
      simpl in *. repeat split; try assumption; try lia.
      f_equal. f_equal. lia.
Qed.


Lemma updateUserSessionsSequential_disconnected sessions st :
  connected env = false ->
  fst (updateUserSessionsSequential env sessions st)
  = Thrown (JsError "Database connection not established").
Proof.
  intros Hc. unfold updateUserSessionsSequential, getConnection. run_m.
  now rewrite Hc.
Qed.

(** The three ways the session phase can go once the rows are read. *)
Lemma syncSessionIdsForWindow_no_rows t1 t2 st :
  sessionRows env t1 = Some [] ->
  exists st', syncSessionIdsForWindow env t1 t2 st = (Returned tt, st')
              /\ users st' = users st /\ storeOps st' = storeOps st
              /\ ticks st' = ticks st.
Proof.
  intros Hrows. unfold syncSessionIdsForWindow, getSessionsAfterDate. run_m.
  rewrite Hrows. simpl. eexists. split; [reflexivity|]. auto.
Qed.

(** No row passes the filter on [website_id]: the rows have no such
    property. *)
Lemma configuredRows_nil st rows : configuredRows st rows = [].
Proof. induction rows as [|row rows IH]; [reflexivity | exact IH]. Qed.

(** So whatever rows the source returns, the phase returns without having
    touched a user. *)
Lemma syncSessionIdsForWindow_rows t1 t2 st rows :
  sessionRows env t1 = Some rows ->
  exists st', syncSessionIdsForWindow env t1 t2 st = (Returned tt, st')
              /\ users st' = users st /\ storeOps st' = storeOps st
              /\ ticks st' = ticks st.
Proof.
  intros Hrows. unfold syncSessionIdsForWindow, getSessionsAfterDate. run_m.
  rewrite Hrows. simpl.
  destruct (length rows =? 0)%nat; simpl.
  - eexists. split; [reflexivity|]. auto.
  - match goal with |- context [List.filter ?f rows] =>
      change (List.filter f rows) with (configuredRows st rows) end.
    rewrite configuredRows_nil. simpl.
    eexists. split; [reflexivity|]. auto.
Qed.

Lemma syncSessionIdsForWindow_source_down t1 t2 st :
  sessionRows env t1 = None ->
  fst (syncSessionIdsForWindow env t1 t2 st)
  = Thrown (JsError ERROR_MESSAGES.DB_CONNECTION_FAILED)
  /\ users (snd (syncSessionIdsForWindow env t1 t2 st)) = users st
  /\ storeOps (snd (syncSessionIdsForWindow env t1 t2 st)) = storeOps st.
Proof.
  intros Hrows. unfold syncSessionIdsForWindow, getSessionsAfterDate. run_m.
  rewrite Hrows. simpl. auto.
Qed.

End SessionPhase.

(** ** The analytics phase *)

Section AnalyticsPhase.

Context (env : Env).

Lemma keeps_updateSingleUserAnalytics {X} (π : State -> X)
  `{!NoLogs π, !NoTicks π, !NoStoreOps π, !NoUsers π} session :
  keeps π (updateSingleUserAnalytics env session).
Proof. unfold updateSingleUserAnalytics. keeps. Qed.

Lemma keeps_updateAnalyticsAll {X} (π : State -> X)
  `{!NoLogs π, !NoTicks π, !NoStoreOps π, !NoUsers π} sessions :
  forall n, keeps π (updateAnalyticsAll env sessions n).
Proof.
  induction sessions as [|session rest IH]; intros n; simpl; [keeps|].
  apply keeps_bind; [|intros; apply IH].
  unfold updateAnalyticsFor.
  apply keeps_tryCatch; [|intros; keeps].
  apply keeps_bind; [apply keeps_updateSingleUserAnalytics; assumption | intros; keeps].
Qed.

Lemma keeps_updateWebsiteSyncStatus {X} (π : State -> X)
  `{!NoLogs π, !NoTicks π, !NoStoreOps π, !NoStatuses π} w day n :
  keeps π (updateWebsiteSyncStatus env w day n).
Proof. unfold updateWebsiteSyncStatus. keeps. Qed.

Lemma keeps_incrementWebsiteErrorCount {X} (π : State -> X)
  `{!NoLogs π, !NoStoreOps π, !NoStatuses π} w :
  keeps π (incrementWebsiteErrorCount env w).
Proof. unfold incrementWebsiteErrorCount. keeps. Qed.

Section KeepsAnalytics.

Context {X : Type} (π : State -> X)
  `{!NoLogs π, !NoTicks π, !NoStoreOps π, !NoUsers π, !NoPageRequests π, !NoStatuses π}.

Lemma keeps_syncWebsite w t1 t2 t3 totals : keeps π (syncWebsite env w t1 t2 t3 totals).
Proof.
  unfold syncWebsite.
  apply keeps_bind; [keeps|]. intros _.
  apply keeps_bind; [apply keeps_fetchAllSessions; assumption|]. intros sessions.
  apply keeps_bind; [keeps|]. intros _.
  apply keeps_if; [keeps|].
  apply keeps_bind; [apply keeps_updateAnalyticsAll; assumption|]. intros n.
  apply keeps_bind; [apply keeps_updateWebsiteSyncStatus; assumption|]. intros _.
  keeps.
Qed.

Lemma keeps_syncWebsiteGuarded w t1 t2 t3 totals :
  keeps π (syncWebsiteGuarded env w t1 t2 t3 totals).
Proof.
  unfold syncWebsiteGuarded.
  apply keeps_tryCatch; [apply keeps_syncWebsite|]. intros err.
  apply keeps_bind; [keeps|]. intros _.
  apply keeps_bind; [apply keeps_incrementWebsiteErrorCount; assumption | intros; keeps].
Qed.

Lemma keeps_syncWebsites ids t1 t2 t3 :
  forall totals, keeps π (syncWebsites env ids t1 t2 t3 totals).
Proof.
  induction ids as [|w rest IH]; intros totals; simpl; [keeps|].
  apply keeps_bind; [apply keeps_syncWebsiteGuarded | intros; apply IH].
Qed.

(** The analytics phase leaves alone whatever ignores the token, the call
    traces, the users, and the per-website statuses. *)
Lemma keeps_syncAnalyticsDataForWindow `{!NoToken π, !NoAuthCalls π} t1 t2 :
  keeps π (syncAnalyticsDataForWindow env t1 t2).
Proof.
  unfold syncAnalyticsDataForWindow.
  apply keeps_bind; [keeps|]. intros _.
  apply keeps_tryFinally; [|keeps].
  apply keeps_rethrowing; [assumption|].
  apply keeps_bind; [keeps|]. intros _.
  apply keeps_bind; [keeps|]. intros _.
  apply keeps_bind; [keeps|]. intros s.
  apply keeps_bind; [apply keeps_syncWebsites | intros; keeps].
Qed.

End KeepsAnalytics.

Lemma terminates_updateAnalyticsAll sessions :
  forall n, terminates (updateAnalyticsAll env sessions n).
Proof.
  induction sessions as [|session rest IH]; intros n; simpl; [terminates|].
  apply terminates_bind; [|intros; apply IH].
  unfold updateAnalyticsFor, updateSingleUserAnalytics, usersUpdateOne.
  apply terminates_tryCatch; [|intros; terminates].
  apply terminates_bind; [|intros; terminates].
  apply terminates_bind; [apply terminates_getConnection|]. intros _.
  apply terminates_rethrowing.
  apply terminates_bind; [apply terminates_now | intros; apply terminates_storeOp].
Qed.

Lemma terminates_updateWebsiteSyncStatus w day n :
  terminates (updateWebsiteSyncStatus env w day n).
Proof.
  unfold updateWebsiteSyncStatus, configUpdateOne.
  apply terminates_tryCatch; [|intros; terminates].
  apply terminates_bind; [apply terminates_getConnection|]. intros _.
  apply terminates_bind; [apply terminates_now|]. intros t.
  apply terminates_bind; [apply terminates_storeOp | intros; terminates].
Qed.

Lemma terminates_incrementWebsiteErrorCount w :
  terminates (incrementWebsiteErrorCount env w).
Proof.
  unfold incrementWebsiteErrorCount, configUpdateOne.
  apply terminates_tryCatch; [|intros; terminates].
  apply terminates_bind; [apply terminates_getConnection | intros; apply terminates_storeOp].
Qed.

Lemma terminates_syncWebsite w t1 t2 t3 totals :
  terminates (syncWebsite env w t1 t2 t3 totals).
Proof.
  unfold syncWebsite.
  apply terminates_bind; [terminates|]. intros _.
  apply terminates_bind; [apply terminates_fetchAllSessions|]. intros sessions.
  apply terminates_bind; [terminates|]. intros _.
  apply terminates_if; [terminates|].
  apply terminates_bind; [apply terminates_updateAnalyticsAll|]. intros n.
  apply terminates_bind; [apply terminates_updateWebsiteSyncStatus | intros; terminates].
Qed.

(** The [catch] of the loop over websites swallows every failure: one
    turn always returns. *)
Lemma syncWebsiteGuarded_returns w t1 t2 t3 totals st :
  isReturned (fst (syncWebsiteGuarded env w t1 t2 t3 totals st)) = true.
Proof.
  unfold syncWebsiteGuarded, tryCatch.
  pose proof (terminates_syncWebsite w t1 t2 t3 totals st) as Hterm.
  destruct (syncWebsite env w t1 t2 t3 totals st) as [[r|err|] st1]; simpl in *;
    [reflexivity | | congruence].
  run_m.
  match goal with |- context [incrementWebsiteErrorCount env w ?s1] =>
    pose proof (terminates_incrementWebsiteErrorCount w s1) as Hinc;
    destruct (incrementWebsiteErrorCount env w s1) as [[[]|err'|] st2] eqn:Hrun end;
    simpl in *; [reflexivity | | congruence].
  exfalso. revert Hrun.
  unfold incrementWebsiteErrorCount, getConnection, configUpdateOne, storeOp. run_m.
  destruct (connected env); simpl; [|discriminate].
  destruct (storeFails env _); simpl; discriminate.
Qed.

Lemma syncWebsites_returns ids t1 t2 t3 : forall totals st,
  isReturned (fst (syncWebsites env ids t1 t2 t3 totals st)) = true.
Proof.
  induction ids as [|w rest IH]; intros totals st; simpl; [reflexivity|].
  unfold bind.
  pose proof (syncWebsiteGuarded_returns w t1 t2 t3 totals st) as H.
  destruct (syncWebsiteGuarded env w t1 t2 t3 totals st) as [[r|err|] st1];
    simpl in H; try discriminate.
  apply IH.
Qed.

Lemma terminates_syncAnalyticsDataForWindow t1 t2 :
  terminates (syncAnalyticsDataForWindow env t1 t2).
Proof.
  unfold syncAnalyticsDataForWindow.
  apply terminates_bind; [terminates|]. intros _.
  apply terminates_tryFinally, terminates_rethrowing.
  apply terminates_bind; [terminates|]. intros _.
  apply terminates_bind; [apply terminates_authenticate|]. intros _.
  apply terminates_bind; [terminates|]. intros s.
  apply terminates_bind; [|intros; terminates].
  intros st. pose proof (syncWebsites_returns (websiteIds s) t1 t2 t2 (0, 0) st) as H.
  destruct (fst (syncWebsites env (websiteIds s) t1 t2 t2 (0, 0) st)); discriminate.
Qed.

(** The analytics phase fails only when authentication does; it calls
    [authenticate] once and ends without a token. *)
Lemma syncAnalyticsDataForWindow_outcome t1 t2 st :
  fst (syncAnalyticsDataForWindow env t1 t2 st)
  = match login env (authCalls st) with
    | Some _ => Returned tt
    | None => Thrown (JsError ERROR_MESSAGES.API_AUTH_FAILED)
    end
  /\ authCalls (snd (syncAnalyticsDataForWindow env t1 t2 st)) = S (authCalls st)
  /\ currentToken (snd (syncAnalyticsDataForWindow env t1 t2 st)) = None.
Proof.
  unfold syncAnalyticsDataForWindow, authenticate, clearToken. run_m.
  destruct (login env (authCalls st)) as [token|]; simpl; [|auto].
  match goal with |- context [syncWebsites env ?ids t1 t2 t2 (0, 0) ?s1] =>
    pose proof (syncWebsites_returns ids t1 t2 t2 (0, 0) s1) as Hret;
    pose proof (keeps_syncWebsites authCalls ids t1 t2 t2 (0, 0) s1) as Hauth;
    destruct (syncWebsites env ids t1 t2 t2 (0, 0) s1) as [[r|err|] st1] end;
    simpl in *; try discriminate.
  auto.
Qed.

End AnalyticsPhase.

(** ** A whole run *)

#[global] Instance users_NoConfig : NoConfig users.
Proof. field_instance. Qed.
#[global] Instance storeOps_NoConfig : NoConfig storeOps.
Proof. field_instance. Qed.
#[global] Instance ticks_NoConfig : NoConfig ticks.
Proof. field_instance. Qed.
#[global] Instance currentToken_NoConfig : NoConfig currentToken.
Proof. field_instance. Qed.
#[global] Instance authCalls_NoConfig : NoConfig authCalls.
Proof. field_instance. Qed.
#[global] Instance pageRequests_NoConfig : NoConfig pageRequests.
Proof. field_instance. Qed.
#[global] Instance websiteIds_NoConfig : NoConfig websiteIds.
Proof. field_instance. Qed.

#[global] Instance apiWebsiteIds_NoLogs : NoLogs apiWebsiteIds.
Proof. field_instance. Qed.
#[global] Instance apiWebsiteIds_NoTicks : NoTicks apiWebsiteIds.
Proof. field_instance. Qed.
#[global] Instance apiWebsiteIds_NoStoreOps : NoStoreOps apiWebsiteIds.
Proof. field_instance. Qed.

Section Run.

Context (env : Env).

Lemma keeps_updateLastSuccessfulSync {X} (π : State -> X)
  `{!NoLogs π, !NoTicks π, !NoStoreOps π, !NoConfig π} t :
  keeps π (updateLastSuccessfulSync env t).
Proof.
  intros s. unfold updateLastSuccessfulSync, getConnection, now, configUpdateOne, storeOp.
  run_m. destruct (connected env); simpl; [|apply no_logs].
  destruct (storeFails env (storeOps s)); simpl.
  - rewrite no_logs, no_storeOps. apply no_ticks.
  - rewrite no_logs, no_config, no_storeOps. apply no_ticks.
Qed.

(** The watermark write never throws; it takes effect exactly when the
    store is connected and the write itself does not fail. *)
Lemma updateLastSuccessfulSync_spec t st :
  fst (updateLastSuccessfulSync env t st) = Returned tt
  /\ watermarkOf (snd (updateLastSuccessfulSync env t st))
     = if connected env && negb (storeFails env (storeOps st))
       then Some t else watermarkOf st.
Proof.
  unfold updateLastSuccessfulSync, getConnection, now, configUpdateOne, storeOp.
  run_m. destruct (connected env); simpl; [|auto].
  destruct (storeFails env (storeOps st)); simpl; [auto|].
  split; [reflexivity|].
  unfold watermarkOf. simpl. destruct (systemconfig st); reflexivity.
Qed.

(** How [finishRun] ends: it throws only when authentication fails, and
    otherwise the watermark is the run-start instant if the write took
    effect and what it was if not. *)
Lemma finishRun_spec t0 w st :
  let st4 := snd (syncAnalyticsDataForWindow env (startDate w) (endDate w) st) in
  fst (finishRun env t0 w st)
  = fst (syncAnalyticsDataForWindow env (startDate w) (endDate w) st)
  /\ watermarkOf (snd (finishRun env t0 w st))
     = match fst (syncAnalyticsDataForWindow env (startDate w) (endDate w) st) with
       | Returned _ =>
           if connected env && negb (storeFails env (storeOps st4))
           then Some t0 else watermarkOf st
       | _ => watermarkOf st
       end.
Proof.
  intros st4. unfold finishRun. subst st4.
  pose proof (keeps_syncAnalyticsDataForWindow env watermarkOf (startDate w) (endDate w) st)
    as Hkeep.
  cbv beta iota zeta delta [bind log modify].
  destruct (syncAnalyticsDataForWindow env (startDate w) (endDate w) st)
    as [[[]|err|] st4]; cbn [fst snd] in *; [|auto..].
  destruct (updateLastSuccessfulSync_spec t0 st4) as [Hret Hwm].
  destruct (updateLastSuccessfulSync env t0 st4) as [r st5]; cbn [fst snd] in *.
  subst r. cbn [fst snd]. split; [reflexivity|].
  rewrite (no_logs (π := watermarkOf)). now rewrite Hwm, Hkeep.
Qed.

Lemma orFailed_fst r : fst (orFailed r) = fst r.
Proof. destruct r as [[[]|e|] s]; reflexivity. Qed.

Lemma orFailed_keeps {X} (π : State -> X) `{!NoLogs π} r : π (snd (orFailed r)) = π (snd r).
Proof. destruct r as [[[]|e|] s]; simpl; [reflexivity | apply no_logs | reflexivity]. Qed.

(** [syncAllData], phase by phase. *)
Lemma syncAllData_planning_thrown st e :
  planned env st = Thrown e ->
  fst (syncAllData env st) = Thrown e
  /\ snd (syncAllData env st) = failed (snd (determineSyncWindow env (planningState st))).
Proof.
  unfold planned, syncAllData, now. run_m.
  change (setLogs (logs st ++ [(Info, LOG_MESSAGES.SYNC_STARTED)]) (setTicks (S (ticks st)) st))
    with (planningState st).
  destruct (determineSyncWindow env (planningState st)) as [[w|e'|] s2]; simpl;
    try discriminate.
  intros [= ->]. auto.
Qed.

Lemma syncAllData_session_thrown st w e :
  planned env st = Returned w ->
  sessionOutcome env w st = Thrown e ->
  fst (syncAllData env st) = Thrown e
  /\ snd (syncAllData env st) = failed (analyticsState env w st).
Proof.
  unfold planned, sessionOutcome, analyticsState, sessionState, syncAllData, now. run_m.
  change (setLogs (logs st ++ [(Info, LOG_MESSAGES.SYNC_STARTED)]) (setTicks (S (ticks st)) st))
    with (planningState st).
  destruct (determineSyncWindow env (planningState st)) as [[w'|e'|] s2]; simpl;
    try discriminate.
  intros [= ->].
  change (setLogs (logs s2 ++ [(Info, "Starting sync for window: "
                                       +:+ JsDate.isoString (startDate w)
                                       +:+ " to " +:+ JsDate.isoString (endDate w))]) s2)
    with (windowLogged w s2).
  destruct (syncSessionIdsForWindow env (startDate w) (endDate w) (windowLogged w s2))
    as [[[]|e'|] s3]; simpl; try discriminate.
  intros [= ->]. auto.
Qed.

Lemma syncAllData_session_returned st w :
  planned env st = Returned w ->
  sessionOutcome env w st = Returned tt ->
  syncAllData env st
  = orFailed (finishRun env (clock env (ticks st)) w (analyticsState env w st)).
Proof.
  unfold planned, sessionOutcome, analyticsState, sessionState, syncAllData, now, finishRun.
  run_m.
  change (setLogs (logs st ++ [(Info, LOG_MESSAGES.SYNC_STARTED)]) (setTicks (S (ticks st)) st))
    with (planningState st).
  destruct (determineSyncWindow env (planningState st)) as [[w'|e'|] s2]; simpl;
    try discriminate.
  intros [= ->].
  change (setLogs (logs s2 ++ [(Info, "Starting sync for window: "
                                       +:+ JsDate.isoString (startDate w)
                                       +:+ " to " +:+ JsDate.isoString (endDate w))]) s2)
    with (windowLogged w s2).
  destruct (syncSessionIdsForWindow env (startDate w) (endDate w) (windowLogged w s2))
    as [[[]|e'|] s3]; simpl; try discriminate.
  intros _.
  destruct (syncAnalyticsDataForWindow env (startDate w) (endDate w) s3)
    as [[[]|e'|] s4]; simpl; try reflexivity.
  destruct (updateLastSuccessfulSync env (clock env (ticks st)) s4)
    as [[[]|e'|] s5]; reflexivity.
Qed.

(** Planning and the log lines around it leave the collections, the
    token and the call traces as they are. *)
Lemma sessionState_keeps {X} (π : State -> X)
  `{!NoLogs π, !NoTicks π, !NoStoreOps π} w st :
  π (sessionState env w st) = π st.
Proof.
  unfold sessionState, windowLogged.
  rewrite no_logs, (keeps_determineSyncWindow env π). unfold planningState.
  rewrite no_logs. apply no_ticks.
Qed.

Lemma analyticsState_keeps {X} (π : State -> X)
  `{!NoLogs π, !NoTicks π, !NoStoreOps π, !NoUsers π} w st :
  π (analyticsState env w st) = π st.
Proof.
  unfold analyticsState.
  rewrite (keeps_syncSessionIdsForWindow env π). apply sessionState_keeps; assumption.
Qed.

(** An aborted run leaves the watermark alone, whichever phase threw. *)
Lemma syncAllData_thrown_watermark st e :
  fst (syncAllData env st) = Thrown e ->
  watermarkOf (snd (syncAllData env st)) = watermarkOf st.
Proof.
  intros Hthrown.
  destruct (planned env st) as [w|e1|] eqn:Hplan.
  - destruct (sessionOutcome env w st) as [[]|e2|] eqn:Hsess.
    + rewrite (syncAllData_session_returned st w Hplan Hsess) in Hthrown |- *.
      rewrite orFailed_fst in Hthrown. rewrite orFailed_keeps by typeclasses eauto.
      destruct (finishRun_spec (clock env (ticks st)) w (analyticsState env w st))
        as [Hout Hwm].
      rewrite Hwm. rewrite Hout in Hthrown. rewrite Hthrown.
      apply analyticsState_keeps; typeclasses eauto.
    + destruct (syncAllData_session_thrown st w e2 Hplan Hsess) as [_ ->].
      unfold failed. rewrite no_logs. apply analyticsState_keeps; typeclasses eauto.
    + exfalso. revert Hsess. apply terminates_syncSessionIdsForWindow.
  - destruct (syncAllData_planning_thrown st e1 Hplan) as [_ ->].
    unfold failed. rewrite no_logs.
    rewrite (keeps_determineSyncWindow env watermarkOf). reflexivity.
  - exfalso. revert Hplan. apply determineSyncWindow_not_diverged.
Qed.

Lemma syncAllData_not_diverged st : fst (syncAllData env st) <> Diverged.
Proof.
  destruct (planned env st) as [w|e1|] eqn:Hplan.
  - destruct (sessionOutcome env w st) as [[]|e2|] eqn:Hsess.
    + rewrite (syncAllData_session_returned st w Hplan Hsess), orFailed_fst.
      destruct (finishRun_spec (clock env (ticks st)) w (analyticsState env w st))
        as [-> _].
      apply terminates_syncAnalyticsDataForWindow.
    + destruct (syncAllData_session_thrown st w e2 Hplan Hsess) as [-> _]. discriminate.
    + exfalso. revert Hsess. apply terminates_syncSessionIdsForWindow.
  - destruct (syncAllData_planning_thrown st e1 Hplan) as [-> _]. discriminate.
  - exfalso. revert Hplan. apply determineSyncWindow_not_diverged.
Qed.

(** A run whose three phases return: it returns, and the watermark is the
    run-start instant when the final write takes effect, untouched when
    that write fails. *)
Lemma syncAllData_completed st w :
  planned env st = Returned w ->
  sessionOutcome env w st = Returned tt ->
  analyticsOutcome env w st = Returned tt ->
  fst (syncAllData env st) = Returned tt
  /\ watermarkOf (snd (syncAllData env st))
     = if storeFails env (storeOps (finalizingState env w st))
       then watermarkOf st else Some (clock env (ticks st)).
Proof.
  intros Hplan Hsess Hana.
  rewrite (syncAllData_session_returned st w Hplan Hsess), orFailed_fst.
  rewrite orFailed_keeps by typeclasses eauto.
  destruct (finishRun_spec (clock env (ticks st)) w (analyticsState env w st))
    as [Hout Hwm].
  unfold analyticsOutcome in Hana. rewrite Hout, Hwm, Hana.
  split; [reflexivity|].
  assert (connected env = true) as ->.
  { unfold planned in Hplan.
    destruct (determineSyncWindow env (planningState st)) as [o s2] eqn:E.
    simpl in Hplan. subst o.
    now destruct (determineSyncWindow_returned env _ _ _ E). }
  fold (finalizingState env w st). simpl.
  destruct (storeFails env (storeOps (finalizingState env w st))); simpl;
    [apply analyticsState_keeps; typeclasses eauto | reflexivity].
Qed.

(** What the watermark write does to the store and to the logs: one
    operation, which either sets the three stamps and nothing else of
    [umamiSync], or fails and leaves the document as it was. *)
Lemma updateLastSuccessfulSync_effect t st :
  connected env = true ->
  let st' := snd (updateLastSuccessfulSync env t st) in
  storeOps st' = S (storeOps st)
  /\ (storeFails env (storeOps st) = false ->
      lastSessionSyncOf st' = Some t /\ lastAnalyticsSyncOf st' = Some t
      /\ statusesOf st' = statusesOf st /\ In watermarkWritten (logs st'))
  /\ (storeFails env (storeOps st) = true ->
      systemconfig st' = systemconfig st /\ In watermarkWriteFailed (logs st')).
Proof.
  intros Hconn.
  unfold updateLastSuccessfulSync, getConnection, now, configUpdateOne, storeOp.
  run_m. rewrite Hconn. simpl.
  destruct (storeFails env (storeOps st)); simpl.
  - split; [reflexivity|]. split; [discriminate|]. intros _.
    split; [reflexivity|]. apply in_or_app. right. left. reflexivity.
  - split; [reflexivity|]. split; [|discriminate]. intros _.
    unfold lastSessionSyncOf, lastAnalyticsSyncOf, statusesOf. simpl.
    destruct (systemconfig st); simpl;
      (repeat split; try reflexivity; apply in_or_app; right; left; reflexivity).
Qed.

(** The state a run ends in when its three phases returned. *)
Lemma syncAllData_completed_state st w :
  planned env st = Returned w ->
  sessionOutcome env w st = Returned tt ->
  analyticsOutcome env w st = Returned tt ->
  snd (syncAllData env st)
  = completed (snd (updateLastSuccessfulSync env (clock env (ticks st))
                      (finalizingState env w st))).
Proof.
  intros Hplan Hsess Hana.
  rewrite (syncAllData_session_returned st w Hplan Hsess).
  unfold analyticsOutcome in Hana. unfold finalizingState, finishRun.
  cbv beta iota zeta delta [bind log modify].
  destruct (syncAnalyticsDataForWindow env (startDate w) (endDate w)
              (analyticsState env w st)) as [o st4]; cbn [fst snd] in *. subst o.
  destruct (updateLastSuccessfulSync_spec (clock env (ticks st)) st4) as [Hret _].
  destruct (updateLastSuccessfulSync env (clock env (ticks st)) st4) as [r st5];
    cbn [fst snd] in *. subst r. reflexivity.
Qed.

End Run.

(** ** The watermark of a run *)

Section RunClaims.

Context (env : Env).

(** C1 (amended). A run whose planning, session phase and analytics phase
    return issues exactly one more operation on the store, the upsert of
    [updateLastSuccessfulSync], and then returns normally whether or not
    that write succeeds. When it succeeds, [lastSuccessfulSync],
    [lastSessionSync] and [lastAnalyticsSync] are the run-start instant,
    the clock reading taken when [syncAllData] began, before the window was
    planned; the per-website statuses are as the analytics phase left them
    and the write is logged. When it fails, the failure is logged and
    swallowed and the document is as the analytics phase left it, so that
    the watermark is what it was before the run. A run that aborts during
    planning or during the session phase throws the error of that phase to
    its caller, and every run that throws leaves [lastSuccessfulSync]
    unchanged. *)
Theorem syncAllData_watermark (st : State) :
  let t0 := clock env (ticks st) in
  let final := snd (syncAllData env st) in
  (forall w,
     planned env st = Returned w ->
     sessionOutcome env w st = Returned tt ->
     analyticsOutcome env w st = Returned tt ->
     let last := finalizingState env w st in
     fst (syncAllData env st) = Returned tt
     /\ storeOps final = S (storeOps last)
     /\ watermarkOf final
        = (if storeFails env (storeOps last) then watermarkOf st else Some t0)
     /\ (storeFails env (storeOps last) = false ->
         lastSessionSyncOf final = Some t0 /\ lastAnalyticsSyncOf final = Some t0
         /\ statusesOf final = statusesOf last
         /\ In watermarkWritten (logs final))
     /\ (storeFails env (storeOps last) = true ->
         systemconfig final = systemconfig last
         /\ In watermarkWriteFailed (logs final)))
  /\ (forall e,
        planned env st = Thrown e ->
        fst (syncAllData env st) = Thrown e
        /\ watermarkOf final = watermarkOf st)
  /\ (forall w e,
        planned env st = Returned w ->
        sessionOutcome env w st = Thrown e ->
        fst (syncAllData env st) = Thrown e
        /\ watermarkOf final = watermarkOf st)
  /\ (forall e,
        fst (syncAllData env st) = Thrown e ->
        watermarkOf final = watermarkOf st)
  /\ fst (syncAllData env st) <> Diverged.
Proof.
  intros t0 final. split; [|split; [|split; [|split]]].
  - intros w Hplan Hsess Hana last.
    destruct (syncAllData_completed env st w Hplan Hsess Hana) as [Hret Hwm].
    assert (connected env = true) as Hconn.
    { pose proof Hplan as E. unfold planned in E.
      destruct (determineSyncWindow env (planningState st)) as [o s2] eqn:Hd.
      simpl in E. subst o. now destruct (determineSyncWindow_returned env _ _ _ Hd). }
    destruct (updateLastSuccessfulSync_effect env t0 last Hconn) as (Hops & Hok & Hfail).
    assert (final = completed (snd (updateLastSuccessfulSync env t0 last))) as Hfinal
      by apply (syncAllData_completed_state env st w Hplan Hsess Hana).
    split; [exact Hret|]. split; [rewrite Hfinal; exact Hops|].
    split; [exact Hwm|]. split.
    + intros Hs. destruct (Hok Hs) as (H1 & H2 & H3 & H4). rewrite Hfinal.
      repeat split; try assumption.
      unfold completed. simpl. apply in_or_app. now left.
    + intros Hs. destruct (Hfail Hs) as (H1 & H2). rewrite Hfinal.
      split; [exact H1|]. unfold completed. simpl. apply in_or_app. now left.
  - intros e Hplan. split; [now apply syncAllData_planning_thrown|].
    apply syncAllData_thrown_watermark with (e := e).
    now apply syncAllData_planning_thrown.
  - intros w e Hplan Hsess. split; [now apply (syncAllData_session_thrown env st w)|].
    apply syncAllData_thrown_watermark with (e := e).
    now apply (syncAllData_session_thrown env st w).
  - apply syncAllData_thrown_watermark.
  - apply syncAllData_not_diverged.
Qed.

(** ** The token of the analytics phase *)

Lemma finishRun_token t0 w st :
  currentToken (snd (finishRun env t0 w st)) = None
  /\ authCalls (snd (finishRun env t0 w st)) = S (authCalls st).
Proof.
  unfold finishRun.
  destruct (syncAnalyticsDataForWindow_outcome env (startDate w) (endDate w) st)
    as (_ & Hauth & Htok).
  cbv beta iota zeta delta [bind log modify].
  destruct (syncAnalyticsDataForWindow env (startDate w) (endDate w) st)
    as [[[]|err|] st4]; cbn [fst snd] in *; [|auto..].
  pose proof (keeps_updateLastSuccessfulSync env currentToken t0 st4) as H1.
  pose proof (keeps_updateLastSuccessfulSync env authCalls t0 st4) as H2.
  destruct (updateLastSuccessfulSync env t0 st4) as [[[]|err|] st5];
    cbn [fst snd] in *;
    rewrite ?(no_logs (π := currentToken)), ?(no_logs (π := authCalls));
    split; congruence.
Qed.

Lemma syncAllData_token st :
  (currentToken st = None -> currentToken (snd (syncAllData env st)) = None)
  /\ (authCalls (snd (syncAllData env st)) <= S (authCalls st))%nat.
Proof.
  destruct (planned env st) as [w|e1|] eqn:Hplan.
  - destruct (sessionOutcome env w st) as [[]|e2|] eqn:Hsess.
    + rewrite (syncAllData_session_returned env st w Hplan Hsess).
      rewrite !orFailed_keeps by typeclasses eauto.
      destruct (finishRun_token (clock env (ticks st)) w (analyticsState env w st))
        as [-> ->].
      rewrite (analyticsState_keeps env authCalls). split; [reflexivity | lia].
    + destruct (syncAllData_session_thrown env st w e2 Hplan Hsess) as [_ ->].
      unfold failed. rewrite (no_logs (π := currentToken)), (no_logs (π := authCalls)).
      rewrite (analyticsState_keeps env currentToken), (analyticsState_keeps env authCalls).
      split; [exact (fun H => H) | lia].
    + exfalso. revert Hsess. apply terminates_syncSessionIdsForWindow.
  - destruct (syncAllData_planning_thrown env st e1 Hplan) as [_ ->].
    unfold failed. rewrite (no_logs (π := currentToken)), (no_logs (π := authCalls)).
    rewrite (keeps_determineSyncWindow env currentToken),
      (keeps_determineSyncWindow env authCalls).
    split; [exact (fun H => H) | simpl; lia].
  - exfalso. revert Hplan. apply determineSyncWindow_not_diverged.
Qed.

(** ** Session phases that update nobody *)

Lemma planned_state st w :
  planned env st = Returned w ->
  determineSyncWindow env (planningState st)
  = (Returned w, snd (determineSyncWindow env (planningState st))).
Proof.
  unfold planned. destruct (determineSyncWindow env (planningState st)) as [o s2].
  simpl. now intros ->.
Qed.

(** A session phase that returns hands over to the analytics phase, which
    authenticates. *)
Lemma session_returned_continues st w :
  planned env st = Returned w ->
  sessionOutcome env w st = Returned tt ->
  syncAllData env st
  = orFailed (finishRun env (clock env (ticks st)) w (analyticsState env w st))
  /\ authCalls (snd (syncAllData env st)) = S (authCalls st).
Proof.
  intros Hplan Hsess.
  pose proof (syncAllData_session_returned env st w Hplan Hsess) as Hrun.
  split; [exact Hrun|]. rewrite Hrun.
  rewrite orFailed_keeps by typeclasses eauto.
  destruct (finishRun_token (clock env (ticks st)) w (analyticsState env w st)) as [_ ->].
  now rewrite (analyticsState_keeps env authCalls).
Qed.

(** C8. When the relational source returns no row for the window, the
    session phase returns normally, with the [users] collection as it was
    and no operation issued on the document store; the run then goes on
    with the analytics phase (which authenticates), the watermark write
    and the closing log line. *)
Theorem empty_batch_short_circuit (st : State) (w : SyncWindow) :
  planned env st = Returned w ->
  sessionRows env (startDate w) = Some [] ->
  sessionOutcome env w st = Returned tt
  /\ users (analyticsState env w st) = users st
  /\ storeOps (analyticsState env w st) = storeOps (sessionState env w st)
  /\ syncAllData env st
     = orFailed (finishRun env (clock env (ticks st)) w (analyticsState env w st))
  /\ authCalls (snd (syncAllData env st)) = S (authCalls st).
Proof.
  intros Hplan Hrows.
  destruct (syncSessionIdsForWindow_no_rows env (startDate w) (endDate w)
              (sessionState env w st) Hrows) as (st' & Hrun & Hu & Hs & _).
  assert (sessionOutcome env w st = Returned tt) as Hsess
    by (unfold sessionOutcome; now rewrite Hrun).
  split; [exact Hsess|].
  split; [unfold analyticsState; rewrite Hrun; simpl; rewrite Hu;
          apply (sessionState_keeps env users)|].
  split; [unfold analyticsState; rewrite Hrun; exact Hs|].
  apply session_returned_continues; assumption.
Qed.

(** C9. Rows that belong to no configured website do not fail the run.
    Every row the relational source returns is such a row: the filter
    reads [website_id], which the rows do not have, so it rejects each of
    them. The session phase then returns normally, with the [users]
    collection as it was and no operation issued on the document store (so
    the zero-updates failure is not raised); the run goes on with the
    analytics phase, and when that phase returns the watermark is advanced
    to the run-start instant by the final write, unless that write fails. *)
Theorem unconfigured_rows_short_circuit (st : State) (w : SyncWindow)
  (rows : list MySqlSession) :
  planned env st = Returned w ->
  sessionRows env (startDate w) = Some rows ->
  rows <> [] ->
  Forall (fun row => includes (apiWebsiteIds st) (website_id row) = false) rows
  /\ sessionOutcome env w st = Returned tt
  /\ users (analyticsState env w st) = users st
  /\ storeOps (analyticsState env w st) = storeOps (sessionState env w st)
  /\ syncAllData env st
     = orFailed (finishRun env (clock env (ticks st)) w (analyticsState env w st))
  /\ authCalls (snd (syncAllData env st)) = S (authCalls st)
  /\ (analyticsOutcome env w st = Returned tt ->
      storeFails env (storeOps (finalizingState env w st)) = false ->
      fst (syncAllData env st) = Returned tt
      /\ watermarkOf (snd (syncAllData env st)) = Some (clock env (ticks st))).
Proof.
  intros Hplan Hrows _.
  split; [apply List.Forall_forall; intros row _; reflexivity|].
  destruct (syncSessionIdsForWindow_rows env (startDate w) (endDate w)
              (sessionState env w st) rows Hrows) as (st' & Hrun & Hu & Hs & _).
  assert (sessionOutcome env w st = Returned tt) as Hsess
    by (unfold sessionOutcome; now rewrite Hrun).
  split; [exact Hsess|].
  split; [unfold analyticsState; rewrite Hrun; simpl; rewrite Hu;
          apply (sessionState_keeps env users)|].
  split; [unfold analyticsState; rewrite Hrun; exact Hs|].
  destruct (session_returned_continues st w Hplan Hsess) as [Hcont Hauth].
  split; [exact Hcont|]. split; [exact Hauth|].
  intros Hana Hok.
  destruct (syncAllData_completed env st w Hplan Hsess Hana) as [Hret Hwm].
  split; [exact Hret|]. now rewrite Hwm, Hok.
Qed.

End RunClaims.

(** ** Batches of session rows *)

Section Batches.

Context (env : Env).












End Batches.


(** ** What the analytics phase asks of the API, and with which token *)

Section Trace.

Context (env : Env).

Lemma bind_log {A} l msg (k : unit -> M A) s :
  bind (log l msg) k s = k tt (setLogs (logs s ++ [(l, msg)]) s).
Proof. reflexivity. Qed.

(** What comes after a call that keeps an observation does not show in it. *)
Lemma keeps_after_bind {A B X} (π : State -> X) (m : M A) (k : A -> M B) s :
  (forall a, keeps π (k a)) -> π (snd (bind m k s)) = π (snd (m s)).
Proof.
  intros Hk. unfold bind. destruct (m s) as [[a|err|] s1]; simpl; [apply Hk | reflexivity..].
Qed.

Lemma keeps_after_tryCatch {A X} (π : State -> X) (m : M A) (h : Error -> M A) s :
  (forall err, keeps π (h err)) -> π (snd (tryCatch m h s)) = π (snd (m s)).
Proof.
  intros Hh. unfold tryCatch. destruct (m s) as [[a|err|] s1]; simpl;
    [reflexivity | apply Hh | reflexivity].
Qed.

Lemma hasToken_same st st' : currentToken st' = currentToken st -> hasToken st -> hasToken st'.
Proof. intros E (t & Ht & Htruthy). exists t. split; [congruence | exact Htruthy]. Qed.

(** A page fetch issues the GET for its page, or none at all; it issues it
    whenever it returns, and whenever there is a token. *)
Lemma fetchSessionsPage_trace w s e p st :
  let run := fetchSessionsPage env w s e p DEFAULT_CONFIG.API_PAGE_SIZE st in
  (isReturned (fst run) = true \/ hasToken st ->
   pageRequests (snd run) = pageRequests st ++ [pageRequest w s e p])
  /\ (pageRequests (snd run) = pageRequests st
      \/ pageRequests (snd run) = pageRequests st ++ [pageRequest w s e p])
  /\ fst run <> Diverged.
Proof.
  unfold fetchSessionsPage, getToken, axiosGet. run_m.
  change {| rq_path := Js.replace API_ENDPOINTS.SESSIONS "{websiteId}" w;
            rq_startAt := s; rq_endAt := e; rq_page := p;
            rq_pageSize := DEFAULT_CONFIG.API_PAGE_SIZE |}
    with (pageRequest w s e p).
  destruct (currentToken st) as [t|] eqn:Ht; simpl.
  - destruct (Js.truthy t) eqn:Htruthy; simpl.
    + destruct (sessionsPage env _ _); simpl; (split; [auto | split; [auto | discriminate]]).
    + split; [|split; [auto | discriminate]].
      intros [H | (t' & Ht' & Htruthy')]; [discriminate | congruence].
  - split; [|split; [auto | discriminate]].
    intros [H | (t' & Ht' & _)]; [discriminate | congruence].
Qed.

(** The page loop from page [p] issues the GETs for pages [p], [p + 1], and
    so on, never beyond page 1000; with a token it issues at least one. *)
Lemma paginate_trace w s e fuel : forall p h acc st,
  1 <= p <= 1000 ->
  exists n,
    pageRequests (snd (paginate env fuel w s e p h acc st))
    = pageRequests st ++ requestsFrom w s e p n
    /\ p + Z.of_nat n <= 1001
    /\ (hasToken st -> h = true -> fuel <> O -> (1 <= n)%nat).
Proof.
  induction fuel as [|fuel IH]; intros p h acc st Hp.
  - exists O. split; [|split; [lia | congruence]].
    destruct h; simpl; now rewrite app_nil_r.
  - destruct h.
    2:{ exists O. simpl. rewrite app_nil_r. split; [reflexivity|]. split; [lia | discriminate]. }
    rewrite paginate_step. unfold bind.
    destruct (fetchSessionsPage_trace w s e p st) as (Hone & Hcases & Hterm).
    destruct (fetchSessionsPage env w s e p DEFAULT_CONFIG.API_PAGE_SIZE st)
      as [[r|err|] st1]; cbn [fst snd] in *.
    + specialize (Hone (or_introl eq_refl)).
      destruct (p + 1 >? 1000) eqn:Hc.
      * exists 1%nat. cbn [fst snd]. rewrite requestsFrom_cons. simpl.
        split; [exact Hone|]. split; [lia | intros; lia].
      * destruct (IH (p + 1) (Z.of_nat (length (data r)) =? pageSize r) (acc ++ data r) st1)
          as (n & Hreq & Hbound & _); [lia|].
        exists (S n). rewrite Hreq, Hone, requestsFrom_cons, <- app_assoc.
        split; [reflexivity|]. split; [lia | intros; lia].
    + destruct Hcases as [Hnone | Hsent].
      * exists O. simpl. rewrite app_nil_r. split; [exact Hnone|]. split; [lia|].
        intros Htok _ _. specialize (Hone (or_intror Htok)).
        rewrite Hnone in Hone. apply (f_equal (@length _)) in Hone.
        rewrite length_app in Hone. simpl in Hone. lia.
      * exists 1%nat. rewrite requestsFrom_cons. simpl.
        split; [exact Hsent|]. split; [lia | intros; lia].
    + now destruct Hterm.
Qed.

Lemma fetchAllSessions_trace w s e st :
  exists n,
    (n <= 1000)%nat
    /\ pageRequests (snd (fetchAllSessions env w s e st))
       = pageRequests st ++ requestsFrom w s e 1 n
    /\ (hasToken st -> (1 <= n)%nat).
Proof.
  destruct (paginate_trace w s e 1000 1 true [] (started st)) as (n & Hreq & Hbound & Hone);
    [lia|].
  exists n. split; [lia|]. split.
  - unfold fetchAllSessions. rewrite fetchAllSessionsWithFuel_requests. exact Hreq.
  - intros Htok. apply Hone; [exact Htok | reflexivity | discriminate].
Qed.

(** One turn of the loop over websites asks the API what its fetch asks,
    and leaves the token alone. *)
Lemma syncWebsiteGuarded_requests w t1 t2 t3 totals st :
  pageRequests (snd (syncWebsiteGuarded env w t1 t2 t3 totals st))
  = pageRequests (snd (websiteFetch env w t1 t2 st)).
Proof.
  unfold syncWebsiteGuarded, websiteFetch, fetching.
  rewrite keeps_after_tryCatch.
  - unfold syncWebsite. rewrite bind_log. apply keeps_after_bind.
    intros sessions.
    apply keeps_bind; [keeps|]. intros _.
    apply keeps_if; [keeps|].
    apply keeps_bind; [apply keeps_updateAnalyticsAll; typeclasses eauto|]. intros n.
    apply keeps_bind; [apply keeps_updateWebsiteSyncStatus; typeclasses eauto|].
    intros _. keeps.
  - intros err.
    apply keeps_bind; [keeps|]. intros _.
    apply keeps_bind; [apply keeps_incrementWebsiteErrorCount; typeclasses eauto|].
    intros _. keeps.
Qed.

Lemma requestsFrom_first w s e n : (1 <= n)%nat -> In (pageRequest w s e 1) (requestsFrom w s e 1 n).
Proof. destruct n; [lia|]. intros _. rewrite requestsFrom_cons. now left. Qed.

(** The loop over websites: one block of GETs per website, in the order of
    the websites, each block the first pages of its website; with a token,
    no block is without the GET for page 1. *)
Lemma syncWebsites_trace t1 t2 t3 ids : forall totals st,
  exists blocks,
    pageRequests (snd (syncWebsites env ids t1 t2 t3 totals st))
    = pageRequests st ++ concat blocks
    /\ Forall2 (fun w block =>
                  firstPages w t1 t2 block
                  /\ (hasToken st -> In (pageRequest w t1 t2 1) block)) ids blocks.
Proof.
  induction ids as [|w rest IH]; intros totals st.
  - exists []. simpl. rewrite app_nil_r. split; [reflexivity | constructor].
  - cbn [syncWebsites]. unfold bind.
    pose proof (syncWebsiteGuarded_returns env w t1 t2 t3 totals st) as Hret.
    pose proof (syncWebsiteGuarded_requests w t1 t2 t3 totals st) as Hreq.
    pose proof (keeps_syncWebsiteGuarded env currentToken w t1 t2 t3 totals st) as Htok.
    destruct (fetchAllSessions_trace w t1 t2 (fetching st)) as (n & Hn & Hfetch & Hone).
    unfold websiteFetch in Hreq. rewrite Hfetch in Hreq.
    destruct (syncWebsiteGuarded env w t1 t2 t3 totals st) as [[totals'|err|] st1];
      cbn [fst snd] in *; try discriminate.
    destruct (IH totals' st1) as (blocks & Hrest & Hblocks).
    exists (requestsFrom w t1 t2 1 n :: blocks). split.
    + rewrite Hrest, Hreq. simpl. now rewrite <- app_assoc.
    + constructor.
      * split; [exists n; auto|]. intros H. apply requestsFrom_first, Hone, H.
      * eapply Forall2_impl; [exact Hblocks|]. intros w' block [Hfirst Hpage].
        split; [exact Hfirst|]. intros H. apply Hpage. exact (hasToken_same _ _ Htok H).
Qed.

(** The state in which the loop starts, by the way the login ends. *)
Lemma loopStart_token st token :
  login env (authCalls st) = Some token ->
  currentToken (loopStart env st) = Some token
  /\ pageRequests (loopStart env st) = pageRequests st
  /\ websiteIds (loopStart env st) = websiteIds st.
Proof.
  intros Hlogin. unfold loopStart, authenticate. run_m. rewrite Hlogin. simpl. auto.
Qed.

(** The GETs of the analytics phase are those of its loop over websites. *)
Lemma syncAnalyticsDataForWindow_loop t1 t2 st token :
  login env (authCalls st) = Some token ->
  pageRequests (snd (syncAnalyticsDataForWindow env t1 t2 st))
  = pageRequests (turnStart env t1 t2 (websiteIds st) st).
Proof.
  intros Hlogin. unfold turnStart, loopStart, syncAnalyticsDataForWindow, authenticate, clearToken.
  run_m. rewrite Hlogin. simpl.
  match goal with |- context [syncWebsites env ?ids t1 t2 t2 (0, 0) ?s1] =>
    pose proof (syncWebsites_returns env ids t1 t2 t2 (0, 0) s1) as Hret;
    destruct (syncWebsites env ids t1 t2 t2 (0, 0) s1) as [[r|err|] st1] end;
    simpl in *; try discriminate.
  reflexivity.
Qed.

Lemma syncAnalyticsDataForWindow_no_login t1 t2 st :
  login env (authCalls st) = None ->
  pageRequests (snd (syncAnalyticsDataForWindow env t1 t2 st)) = pageRequests st.
Proof.
  intros Hlogin. unfold syncAnalyticsDataForWindow, authenticate, clearToken.
  run_m. rewrite Hlogin. reflexivity.
Qed.

(** C6. Whatever the window, the websites and the behaviour of the API,
    and however the analytics phase ends, it calls [authenticate] exactly
    once and the adapter holds no token when it is over; the phase ends by
    itself. The token of that one login serves every website: when the
    login returns [token], the adapter holds [token] at the start of the
    turn of every configured website, the GETs of the phase are those of
    these turns, and, [token] not being empty, the GET for page 1 of every
    configured website is among them. For a whole run: a service that
    starts without a token ends without one, and a run authenticates at
    most once. *)
Theorem analytics_phase_token (windowStart windowEnd : Z) (st : State) :
  authCalls (snd (syncAnalyticsDataForWindow env windowStart windowEnd st)) = S (authCalls st)
  /\ currentToken (snd (syncAnalyticsDataForWindow env windowStart windowEnd st)) = None
  /\ fst (syncAnalyticsDataForWindow env windowStart windowEnd st) <> Diverged
  /\ (forall token,
        login env (authCalls st) = Some token ->
        (forall before w after,
           websiteIds st = before ++ w :: after ->
           currentToken (turnStart env windowStart windowEnd before st) = Some token
           /\ authCalls (turnStart env windowStart windowEnd before st) = S (authCalls st))
        /\ pageRequests (snd (syncAnalyticsDataForWindow env windowStart windowEnd st))
           = pageRequests (turnStart env windowStart windowEnd (websiteIds st) st)
        /\ (Js.truthy token = true ->
            forall w, In w (websiteIds st) ->
              In (pageRequest w windowStart windowEnd 1)
                (pageRequests (snd (syncAnalyticsDataForWindow env windowStart windowEnd st)))))
  /\ (currentToken st = None -> currentToken (snd (syncAllData env st)) = None)
  /\ (authCalls (snd (syncAllData env st)) <= S (authCalls st))%nat.
Proof.
  destruct (syncAnalyticsDataForWindow_outcome env windowStart windowEnd st) as (_ & Ha & Ht).
  destruct (syncAllData_token env st) as [Hrun Hcalls].
  split; [exact Ha|]. split; [exact Ht|].
  split; [apply terminates_syncAnalyticsDataForWindow|].
  split; [|split; assumption].
  intros token Hlogin.
  destruct (loopStart_token st token Hlogin) as (Htok & Hreq0 & Hids).
  split; [|split].
  - intros before w after _. unfold turnStart.
    rewrite (keeps_syncWebsites env currentToken), (keeps_syncWebsites env authCalls).
    split; [exact Htok|].
    unfold loopStart, authenticate. run_m. rewrite Hlogin. reflexivity.
  - apply (syncAnalyticsDataForWindow_loop _ _ _ token Hlogin).
  - intros Htruthy w Hw.
    rewrite (syncAnalyticsDataForWindow_loop _ _ _ token Hlogin). unfold turnStart.
    destruct (syncWebsites_trace windowStart windowEnd windowEnd (websiteIds st) (0, 0)
                (loopStart env st)) as (blocks & -> & Hblocks).
    apply in_or_app. right.
    assert (hasToken (loopStart env st)) as Hhas by (exists token; auto).
    clear -Hblocks Hw Hhas. revert Hw.
    induction Hblocks as [|w' block ids blocks [_ Hpage] _ IH]; simpl; [tauto|].
    intros [<- | Hw]; apply in_or_app; [left; now apply Hpage | right; now apply IH].
Qed.

End Trace.

Lemma analytics_phase_token_witness :
  let env := envOfRows (fun _ => None) [] onePageEach in
  let st := stateOf ["A"; "B"] [] None None in
  let phase := syncAnalyticsDataForWindow env 1 2 st in
  authCalls (snd phase) = 1%nat
  /\ currentToken (snd phase) = None
  /\ currentToken (turnStart env 1 2 ["A"] st) = Some "token"
  /\ In (pageRequest "A" 1 2 1) (pageRequests (snd phase))
  /\ In (pageRequest "B" 1 2 1) (pageRequests (snd phase)).
Proof.
  intros env st phase.
  destruct (analytics_phase_token env 1 2 st) as (Hcalls & Htoken & _ & Hheld & _).
  destruct (Hheld "token" eq_refl) as (Hturn & _ & Hpages).
  split; [exact Hcalls|]. split; [exact Htoken|].
  split; [exact (proj1 (Hturn ["A"] "B" [] eq_refl))|].
  split; apply (Hpages eq_refl); simpl; auto.
Defined.

(** ** One website of the analytics phase *)

Section Websites.

Context (env : Env).

(** With the store connected, every session of a website costs one clock
    reading and one store operation, whether its update succeeds or not. *)
Lemma updateAnalyticsAll_counts sessions :
  connected env = true -> forall n st,
  exists m st',
    updateAnalyticsAll env sessions n st = (Returned m, st')
    /\ ticks st' = (ticks st + length sessions)%nat
    /\ storeOps st' = (storeOps st + length sessions)%nat
    /\ systemconfig st' = systemconfig st.
Proof.
  intros Hconn. induction sessions as [|session rest IH]; intros n st.
  - exists n, st. simpl. rewrite !Nat.add_0_r. auto.
  - simpl updateAnalyticsAll.
    unfold updateAnalyticsFor, updateSingleUserAnalytics, getConnection, now,
      usersUpdateOne, storeOp.
    run_m. rewrite Hconn. simpl.
    destruct (storeFails env (storeOps st)); simpl.
    + match goal with |- context [updateAnalyticsAll env rest ?k ?s1] =>
        destruct (IH k s1) as (m & st' & Hrun & Ht & Hs & Hc) end.
      exists m, st'. rewrite Hrun. simpl in *. repeat split; try assumption; lia.
    + destruct (updateFirst _ _ (users st)) as [r docs]. simpl.
      match goal with |- context [updateAnalyticsAll env rest ?k ?s1] =>
        destruct (IH k s1) as (m & st' & Hrun & Ht & Hs & Hc) end.
      exists m, st'. rewrite Hrun. simpl in *. repeat split; try assumption; lia.
Qed.

Lemma statusOf_insert c w status w' :
  statusOf (upsertUmamiSync (withStatuses (insert w status)) c) w'
  = if decide (w = w') then Some status else statusOf c w'.
Proof.
  unfold statusOf, upsertUmamiSync. simpl. rewrite lookup_insert.
  destruct (decide (w = w')); [reflexivity|]. destruct c; [reflexivity|].
  simpl. apply lookup_empty.
Qed.

(** The status write of a successful website: it never throws, and stores
    the status unless the write itself fails. *)
Lemma updateWebsiteSyncStatus_spec w day n st :
  connected env = true ->
  fst (updateWebsiteSyncStatus env w day n st) = Returned tt
  /\ systemconfig (snd (updateWebsiteSyncStatus env w day n st))
     = if storeFails env (storeOps st) then systemconfig st
       else upsertUmamiSync
              (withStatuses (insert w {| lastSync := Some (clock env (ticks st));
                                         lastDaySynced := Some day;
                                         sessionsProcessed := Some n;
                                         errorCount := Some 0 |}))
              (systemconfig st).
Proof.
  intros Hconn.
  unfold updateWebsiteSyncStatus, getConnection, now, configUpdateOne, storeOp.
  run_m. rewrite Hconn. simpl.
  destruct (storeFails env (storeOps st)); simpl; auto.
Qed.

(** The error-count write of a failed website: it never throws, and adds
    one to the stored count unless the store is not connected or the write
    itself fails. *)
Lemma incrementWebsiteErrorCount_spec w st :
  fst (incrementWebsiteErrorCount env w st) = Returned tt
  /\ systemconfig (snd (incrementWebsiteErrorCount env w st))
     = if connected env && negb (storeFails env (storeOps st))
       then upsertUmamiSync
              (withStatuses (fun m =>
                 <[w := incErrorCount (default emptyStatus (m !! w))]> m))
              (systemconfig st)
       else systemconfig st.
Proof.
  unfold incrementWebsiteErrorCount, getConnection, configUpdateOne, storeOp.
  run_m. destruct (connected env); simpl; [|auto].
  destruct (storeFails env (storeOps st)); simpl; auto.
Qed.

Lemma errorCountOf_incremented c w :
  errorCountOf
    (upsertUmamiSync
       (withStatuses (fun m => <[w := incErrorCount (default emptyStatus (m !! w))]> m)) c) w
  = errorCountOf c w + 1.
Proof.
  unfold errorCountOf, statusOf, upsertUmamiSync. simpl. rewrite lookup_insert_eq. simpl.
  destruct c as [d|]; simpl.
  - destruct (websiteSyncStatus (umamiSync d) !! w) as [status|]; reflexivity.
  - rewrite lookup_empty. reflexivity.
Qed.

Lemma statusOf_incremented_other c w w' :
  w' <> w ->
  statusOf
    (upsertUmamiSync
       (withStatuses (fun m => <[w := incErrorCount (default emptyStatus (m !! w))]> m)) c) w'
  = statusOf c w'.
Proof.
  intros Hne. unfold statusOf, upsertUmamiSync. simpl.
  rewrite lookup_insert_ne by congruence.
  destruct c; [reflexivity|]. simpl. apply lookup_empty.
Qed.

(** One turn of the loop over websites, by the way the fetch ends. *)
Lemma syncWebsiteGuarded_fetch_thrown w t1 t2 t3 totals st e :
  fst (websiteFetch env w t1 t2 st) = Thrown e ->
  fst (syncWebsiteGuarded env w t1 t2 t3 totals st) = Returned totals
  /\ systemconfig (snd (syncWebsiteGuarded env w t1 t2 t3 totals st))
     = if connected env && negb (storeFails env (storeOps st))
       then upsertUmamiSync
              (withStatuses (fun m =>
                 <[w := incErrorCount (default emptyStatus (m !! w))]> m))
              (systemconfig st)
       else systemconfig st.
Proof.
  unfold websiteFetch, syncWebsiteGuarded, syncWebsite. intros Hfetch.
  pose proof (keeps_fetchAllSessions env storeOps w t1 t2 (fetching st)) as Hops.
  pose proof (keeps_fetchAllSessions env systemconfig w t1 t2 (fetching st)) as Hcfg.
  cbv beta iota zeta delta [bind tryCatch ret log modify].
  change (setLogs (logs st ++ [(Debug, "Fetching sessions for website")]) st)
    with (fetching st).
  destruct (fetchAllSessions env w t1 t2 (fetching st)) as [[l|e'|] st1];
    cbn [fst snd] in *; try discriminate.
  match goal with |- context [incrementWebsiteErrorCount env w ?s1] =>
    destruct (incrementWebsiteErrorCount_spec w s1) as [Hret Hinc];
    destruct (incrementWebsiteErrorCount env w s1) as [r st2] end.
  cbn [fst snd] in *. subst r. cbn [fst snd].
  split; [reflexivity|]. rewrite Hinc. simpl. now rewrite Hops, Hcfg.
Qed.

Lemma syncWebsiteGuarded_fetch_empty w t1 t2 t3 totals st :
  fst (websiteFetch env w t1 t2 st) = Returned [] ->
  fst (syncWebsiteGuarded env w t1 t2 t3 totals st) = Returned totals
  /\ systemconfig (snd (syncWebsiteGuarded env w t1 t2 t3 totals st)) = systemconfig st.
Proof.
  unfold websiteFetch, syncWebsiteGuarded, syncWebsite. intros Hfetch.
  pose proof (keeps_fetchAllSessions env systemconfig w t1 t2 (fetching st)) as Hcfg.
  cbv beta iota zeta delta [bind tryCatch ret log modify].
  change (setLogs (logs st ++ [(Debug, "Fetching sessions for website")]) st)
    with (fetching st).
  destruct (fetchAllSessions env w t1 t2 (fetching st)) as [[l|e'|] st1];
    cbn [fst snd] in *; try discriminate.
  injection Hfetch as ->. simpl. auto.
Qed.

Lemma syncWebsiteGuarded_fetch_sessions w t1 t2 t3 totals st sessions :
  connected env = true ->
  fst (websiteFetch env w t1 t2 st) = Returned sessions -> sessions <> [] ->
  isReturned (fst (syncWebsiteGuarded env w t1 t2 t3 totals st)) = true
  /\ systemconfig (snd (syncWebsiteGuarded env w t1 t2 t3 totals st))
     = if storeFails env (storeOps st + length sessions) then systemconfig st
       else upsertUmamiSync
              (withStatuses
                 (insert w (syncedStatus (clock env (ticks st + length sessions)) t3
                              (length sessions))))
              (systemconfig st).
Proof.
  unfold websiteFetch, syncWebsiteGuarded, syncWebsite. intros Hconn Hfetch Hne.
  pose proof (keeps_fetchAllSessions env storeOps w t1 t2 (fetching st)) as Hops.
  pose proof (keeps_fetchAllSessions env ticks w t1 t2 (fetching st)) as Hticks.
  pose proof (keeps_fetchAllSessions env systemconfig w t1 t2 (fetching st)) as Hcfg.
  cbv beta iota zeta delta [bind tryCatch ret log modify].
  change (setLogs (logs st ++ [(Debug, "Fetching sessions for website")]) st)
    with (fetching st).
  destruct (fetchAllSessions env w t1 t2 (fetching st)) as [[l|e'|] st1];
    cbn [fst snd] in *; try discriminate.
  injection Hfetch as ->.
  destruct sessions as [|session rest]; [now destruct Hne|].
  change (length (session :: rest) =? 0)%nat with false. cbv beta iota.
  match goal with |- context [updateAnalyticsAll env ?l 0 ?s1] =>
    destruct (updateAnalyticsAll_counts l Hconn 0 s1) as (m & st2 & Hrun & Ht & Hs & Hc)
  end.
  rewrite Hrun. cbn [fst snd].
  destruct (updateWebsiteSyncStatus_spec w (JsDate.isoDay t3)
              (Z.of_nat (length (session :: rest))) st2 Hconn) as [Hret Hupd].
  destruct (updateWebsiteSyncStatus env w (JsDate.isoDay t3)
              (Z.of_nat (length (session :: rest))) st2) as [r st3].
  cbn [fst snd] in *. subst r. cbn [fst snd].
  split; [reflexivity|].
  rewrite (no_logs (π := systemconfig)), Hupd, Hs, Ht, Hc.
  cbn [storeOps setLogs ticks systemconfig]. rewrite Hops, Hticks, Hcfg.
  reflexivity.
Qed.

End Websites.

(** ** Partition isolation *)

Section Partition.

Context (env : Env).

(** C2 (amended). One turn of the loop over the configured websites, from
    any state the loop can be in, always returns, so the loop goes on with
    the remaining websites. When fetching the website's sessions throws,
    one increment of its [errorCount] is issued: with the store connected
    and the write not failing the stored count grows by exactly 1 and the
    other websites' statuses are untouched; otherwise the document is left
    as it was. When the fetch returns at least one session, the status
    written for the website has [errorCount = 0] and [sessionsProcessed]
    equal to the number of fetched sessions, unless the write fails. When
    the fetch returns no session, the document is left as it was. And a run
    whose session phase returned returns as soon as authentication
    succeeds, whatever happened to the websites, writing the run-start
    instant as watermark unless the final write fails. *)
Theorem website_failures_are_isolated (w : string) (t1 t2 windowEnd : Z)
  (totals : Z * Z) (st : State) :
  let fetch := websiteFetch env w t1 t2 st in
  let turn := syncWebsiteGuarded env w t1 t2 windowEnd totals st in
  let cfg := systemconfig st in
  let cfg' := systemconfig (snd turn) in
  (exists totals',
     fst turn = Returned totals'
     /\ forall rest,
          syncWebsites env (w :: rest) t1 t2 windowEnd totals st
          = syncWebsites env rest t1 t2 windowEnd totals' (snd turn))
  /\ (forall e,
        fst fetch = Thrown e ->
        (connected env = true -> storeFails env (storeOps st) = false ->
         errorCountOf cfg' w = errorCountOf cfg w + 1
         /\ forall w', w' <> w -> statusOf cfg' w' = statusOf cfg w')
        /\ (connected env = false \/ storeFails env (storeOps st) = true -> cfg' = cfg))
  /\ (forall sessions,
        fst fetch = Returned sessions -> sessions <> [] -> connected env = true ->
        (storeFails env (storeOps st + length sessions) = false ->
         statusOf cfg' w
         = Some (syncedStatus (clock env (ticks st + length sessions)) windowEnd
                   (length sessions))
         /\ forall w', w' <> w -> statusOf cfg' w' = statusOf cfg w')
        /\ (storeFails env (storeOps st + length sessions) = true -> cfg' = cfg))
  /\ (fst fetch = Returned [] -> cfg' = cfg)
  /\ (forall st0 w0 token,
        planned env st0 = Returned w0 ->
        sessionOutcome env w0 st0 = Returned tt ->
        login env (authCalls st0) = Some token ->
        fst (syncAllData env st0) = Returned tt
        /\ watermarkOf (snd (syncAllData env st0))
           = if storeFails env (storeOps (finalizingState env w0 st0))
             then watermarkOf st0 else Some (clock env (ticks st0))).
Proof.
  intros fetch turn cfg cfg'. split; [|split; [|split; [|split]]].
  - pose proof (syncWebsiteGuarded_returns env w t1 t2 windowEnd totals st) as Hret.
    fold turn in Hret. destruct (fst turn) as [totals'| |] eqn:Hturn; try discriminate.
    exists totals'. split; [reflexivity|]. intros rest.
    simpl. unfold bind. fold turn. destruct turn as [o s1]. simpl in Hturn. now subst o.
  - intros e Hfetch.
    destruct (syncWebsiteGuarded_fetch_thrown env w t1 t2 windowEnd totals st e Hfetch)
      as [_ Hcfg].
    fold turn in Hcfg. fold cfg' in Hcfg. fold cfg in Hcfg. split.
    + intros Hc Hs. rewrite Hcfg, Hc, Hs. simpl. split.
      * apply errorCountOf_incremented.
      * intros w' Hne. now apply statusOf_incremented_other.
    + intros [Hc | Hs]; rewrite Hcfg.
      * now rewrite Hc.
      * rewrite Hs. now rewrite andb_false_r.
  - intros sessions Hfetch Hne Hconn.
    destruct (syncWebsiteGuarded_fetch_sessions env w t1 t2 windowEnd totals st sessions
                Hconn Hfetch Hne) as [_ Hcfg].
    fold turn in Hcfg. fold cfg' in Hcfg. fold cfg in Hcfg. split.
    + intros Hs. rewrite Hcfg, Hs. split.
      * rewrite statusOf_insert. now rewrite decide_True.
      * intros w' Hne'. rewrite statusOf_insert. now rewrite decide_False by congruence.
    + intros Hs. now rewrite Hcfg, Hs.
  - intros Hfetch.
    now destruct (syncWebsiteGuarded_fetch_empty env w t1 t2 windowEnd totals st Hfetch).
  - intros st0 w0 token Hplan Hsess Hlogin.
    apply (syncAllData_completed env st0 w0 Hplan Hsess).
    unfold analyticsOutcome.
    destruct (syncAnalyticsDataForWindow_outcome env (startDate w0) (endDate w0)
                (analyticsState env w0 st0)) as (-> & _).
    rewrite (analyticsState_keeps env authCalls). now rewrite Hlogin.
Qed.

End Partition.

Lemma website_failures_are_isolated_witness :
  let env := envOfRows (fun _ => None) [] (pagesBySite "A" "C" "D") in
  let st := stateOf ["A"; "B"; "C"] [] (Some (configWithErrors "B")) (Some "token") in
  errorCountOf (systemconfig (snd (syncWebsiteGuarded env "B" 1 2 2 (0, 0) st))) "B" = 4
  /\ statusOf (systemconfig (snd (syncWebsiteGuarded env "A" 1 2 2 (0, 0) st))) "A"
     = Some (syncedStatus 1700000000002 2 2).
Proof.
  intros env st. split.
  - destruct (website_failures_are_isolated env "B" 1 2 2 (0, 0) st)
      as (_ & Hthrown & _).
    destruct (Hthrown (JsError ERROR_MESSAGES.API_REQUEST_FAILED)) as [Hinc _];
      [vm_compute; reflexivity|].
    destruct Hinc as [Hcount _]; [reflexivity | reflexivity |].
    rewrite Hcount. vm_compute. reflexivity.
  - destruct (website_failures_are_isolated env "A" 1 2 2 (0, 0) st)
      as (_ & _ & Hsome & _).
    destruct (Hsome [sampleSession "s1"; sampleSession "s2"]) as [Hok _];
      [vm_compute; reflexivity | discriminate | reflexivity |].
    destruct Hok as [Hstatus _]; [reflexivity|].
    exact Hstatus.
Defined.

(** C2 as stated fails: the sync of a website for which the API has no
    session in the window succeeds, yet no status is written for it; the
    stored error count stays 3 and the stored session count stays 5. *)
Lemma website_without_sessions_keeps_status :
  let env := envOfRows (fun _ => None) [] (pagesBySite "A" "C" "D") in
  let st := stateOf ["D"] [] (Some (configWithErrors "D")) (Some "token") in
  fst (syncWebsite env "D" 1 2 2 (0, 0) st) = Returned (0, 0)
  /\ fst (websiteFetch env "D" 1 2 st) = Returned []
  /\ statusOf (systemconfig (snd (syncWebsiteGuarded env "D" 1 2 2 (0, 0) st))) "D"
     = Some {| lastSync := Some 1699000000000; lastDaySynced := Some "2023-11-03";
               sessionsProcessed := Some 5; errorCount := Some 3 |}.
Proof.
  repeat split; vm_compute; reflexivity.
Qed.

(** The scenario of the specification: websites A, B, C where the API
    fails for B. After the run A and C have a status with [errorCount = 0]
    and their session counts, B's error count went from 3 to 4, and the
    watermark is the run-start instant. *)
Example partition_isolation_scenario :
  let env := envOfRows (fun _ => None) [] (pagesBySite "A" "C" "D") in
  let st := stateOf ["A"; "B"; "C"] [] (Some (configWithErrors "B")) None in
  let final := systemconfig (snd (syncAllData env st)) in
  fst (syncAllData env st) = Returned tt
  /\ (statusOf final "A" ≫= errorCount) = Some 0
  /\ (statusOf final "A" ≫= sessionsProcessed) = Some 2
  /\ (statusOf final "B" ≫= errorCount) = Some 4
  /\ (statusOf final "C" ≫= errorCount) = Some 0
  /\ (statusOf final "C" ≫= sessionsProcessed) = Some 1
  /\ watermark final = Some 1700000000000.
Proof.
  repeat split; vm_compute; reflexivity.
Qed.

(** ** The configured website ids *)

Section WebsiteIds.

Context (env : Env).

(** With no website configured the loop of the analytics phase has no
    turn: no GET, no write to [systemconfigs], no user touched. *)
Lemma syncAnalyticsDataForWindow_no_website t1 t2 st :
  websiteIds st = [] ->
  pageRequests (snd (syncAnalyticsDataForWindow env t1 t2 st)) = pageRequests st
  /\ systemconfig (snd (syncAnalyticsDataForWindow env t1 t2 st)) = systemconfig st
  /\ users (snd (syncAnalyticsDataForWindow env t1 t2 st)) = users st
  /\ storeOps (snd (syncAnalyticsDataForWindow env t1 t2 st)) = storeOps st.
Proof.
  intros Hids. unfold syncAnalyticsDataForWindow, authenticate, clearToken. run_m.
  destruct (login env (authCalls st)); simpl; [|auto].
  rewrite Hids. simpl. auto.
Qed.

(** C10. Whatever the value [raw] of [UMAMI_WEBSITE_IDS] (unset is [None]),
    [getWebsiteIds] returns the tokens of [raw || '']: the string is cut
    into its pieces between commas, every piece is taken without the white
    space around it, and the pieces that are empty then are left out, the
    order kept. No returned id is empty, starts or ends with a white space
    character, or contains a comma. An unset or empty variable gives the
    empty list, and the analytics phase of a service constructed in such an
    environment asks the API for nothing and writes nothing. *)
Theorem getWebsiteIds_tokens (raw : option string)
  (Hraw : processEnv env "UMAMI_WEBSITE_IDS" = raw) :
  let str := Js.orElse raw "" in
  (exists pieces, piecesOf str pieces /\ tokensOf pieces (getWebsiteIds env))
  /\ Forall cleanId (getWebsiteIds env)
  /\ (raw = None \/ raw = Some "" ->
      getWebsiteIds env = []
      /\ forall docs config st t1 t2,
           newUmamiService env docs config = Returned st ->
           websiteIds st = []
           /\ pageRequests (snd (syncAnalyticsDataForWindow env t1 t2 st)) = []
           /\ systemconfig (snd (syncAnalyticsDataForWindow env t1 t2 st)) = config
           /\ users (snd (syncAnalyticsDataForWindow env t1 t2 st)) = docs
           /\ storeOps (snd (syncAnalyticsDataForWindow env t1 t2 st)) = 0%nat).
Proof.
  intros str. unfold getWebsiteIds. rewrite Hraw. fold str.
  split; [|split].
  - exists (Js.split "," str). split; [apply split_piecesOf | apply trimmed_tokens].
  - apply trimmed_tokens_clean, split_pieces.
  - intros Hnone.
    assert (List.filter Js.truthy (map Js.trim (Js.split "," str)) = []) as Hempty
      by (unfold str; destruct Hnone as [-> | ->]; vm_compute; reflexivity).
    split; [exact Hempty|].
    intros docs config st t1 t2. unfold newUmamiService.
    destruct (_ && _); [|discriminate]. intros [= <-].
    assert (getWebsiteIds env = []) as Hids
      by (unfold getWebsiteIds; rewrite Hraw; exact Hempty).
    split; [exact Hids|].
    match goal with |- context [syncAnalyticsDataForWindow env t1 t2 ?s0] =>
      destruct (syncAnalyticsDataForWindow_no_website t1 t2 s0 Hids) as (H1 & H2 & H3 & H4) end.
    rewrite H1, H2, H3, H4. auto.
Qed.

End WebsiteIds.

Lemma getWebsiteIds_tokens_witness :
  Forall cleanId (getWebsiteIds (envOfVars (oneVar "UMAMI_WEBSITE_IDS" " a1 ,,b2,  ")))
  /\ getWebsiteIds (envOfVars apiVars) = []
  /\ exists st,
       newUmamiService (envOfVars apiVars) [] None = Returned st
       /\ pageRequests (snd (syncAnalyticsDataForWindow (envOfVars apiVars) 1 2 st)) = [].
Proof.
  split; [|split].
  - exact (proj1 (proj2 (getWebsiteIds_tokens
                           (envOfVars (oneVar "UMAMI_WEBSITE_IDS" " a1 ,,b2,  "))
                           (Some " a1 ,,b2,  ") eq_refl))).
  - exact (proj1 (proj2 (proj2 (getWebsiteIds_tokens (envOfVars apiVars) None eq_refl))
                    (or_introl eq_refl))).
  - eexists. split; [reflexivity|].
    refine (proj1 (proj2 (proj2 (proj2 (proj2 (getWebsiteIds_tokens (envOfVars apiVars) None
                                                 eq_refl)) (or_introl eq_refl))
                                   [] None _ 1 2 eq_refl))).
Defined.

Example getWebsiteIds_sample :
  getWebsiteIds (envOfVars (oneVar "UMAMI_WEBSITE_IDS" " a1 ,,b2,  ")) = ["a1"; "b2"].
Proof. vm_compute. reflexivity. Qed.

(** White space outside ASCII is trimmed as well. *)
Example getWebsiteIds_nbsp :
  getWebsiteIds
    (envOfVars (oneVar "UMAMI_WEBSITE_IDS"
                  (Js.utf8 160 +:+ "a1" +:+ Js.utf8 8195 +:+ "," +:+ Js.utf8 65279)))
  = ["a1"].
Proof. vm_compute. reflexivity. Qed.

(** ** The statements at work on sample worlds *)

Lemma syncAllData_watermark_witness :
  let env := envOfRows (fun _ => None) [] noPages in
  let failing := envFailingAt 1 [] noPages in
  let st := stateOf ["site"] [] None None in
  (fst (syncAllData env st) = Returned tt
   /\ watermarkOf (snd (syncAllData env st)) = Some 1700000000000
   /\ lastSessionSyncOf (snd (syncAllData env st)) = Some 1700000000000
   /\ lastAnalyticsSyncOf (snd (syncAllData env st)) = Some 1700000000000
   /\ In watermarkWritten (logs (snd (syncAllData env st))))
  /\ (fst (syncAllData failing (stateOf [] [] None None)) = Returned tt
      /\ systemconfig (snd (syncAllData failing (stateOf [] [] None None))) = None
      /\ In watermarkWriteFailed (logs (snd (syncAllData failing (stateOf [] [] None None)))))
  /\ (fst (syncAllData envDisconnected st)
      = Thrown (JsError "Database connection not established")
      /\ watermarkOf (snd (syncAllData envDisconnected st)) = None).
Proof.
  intros env failing st. split; [|split].
  - destruct (syncAllData_watermark env st) as (Hdone & _).
    destruct (Hdone firstWindow) as (Hret & _ & Hwm & Hok & _);
      [vm_compute; reflexivity | vm_compute; reflexivity | vm_compute; reflexivity |].
    destruct Hok as (Hs & Ha & _ & Hlog); [reflexivity|].
    split; [exact Hret|]. split; [exact Hwm|]. split; [exact Hs|].
    split; [exact Ha | exact Hlog].
  - destruct (syncAllData_watermark failing (stateOf [] [] None None)) as (Hdone & _).
    destruct (Hdone firstWindow) as (Hret & _ & _ & _ & Hfail);
      [vm_compute; reflexivity | vm_compute; reflexivity | vm_compute; reflexivity |].
    destruct Hfail as (Hcfg & Hlog); [vm_compute; reflexivity|].
    split; [exact Hret|]. split; [|exact Hlog].
    rewrite Hcfg. vm_compute. reflexivity.
  - destruct (syncAllData_watermark envDisconnected st) as (_ & Habort & _).
    apply Habort. vm_compute. reflexivity.
Defined.

(** C1 as stated fails: in this run planning, the session phase and the
    analytics phase all return, the final write to the store throws, the
    failure is swallowed, the run returns normally, and [lastSuccessfulSync]
    is still absent instead of equal to the run-start instant. *)
Lemma syncAllData_completes_without_watermark :
  let env := envFailingAt 1 [] noPages in
  let st := stateOf [] [] None None in
  planned env st = Returned firstWindow
  /\ sessionOutcome env firstWindow st = Returned tt
  /\ analyticsOutcome env firstWindow st = Returned tt
  /\ fst (syncAllData env st) = Returned tt
  /\ watermarkOf (snd (syncAllData env st)) = None
  /\ watermarkOf (snd (syncAllData env st)) <> Some (clock env (ticks st)).
Proof.
  repeat split; try (vm_compute; reflexivity).
  vm_compute. discriminate.
Qed.

Lemma empty_batch_short_circuit_witness :
  let env := envOfRows (fun _ => None) [] noPages in
  let st := stateOf ["site"] [sampleUser "ann@example.com"] None None in
  sessionOutcome env firstWindow st = Returned tt
  /\ users (analyticsState env firstWindow st) = [sampleUser "ann@example.com"]
  /\ authCalls (snd (syncAllData env st)) = 1%nat.
Proof.
  intros env st.
  destruct (empty_batch_short_circuit env st firstWindow) as (Hs & Hu & _ & _ & Ha);
    [vm_compute; reflexivity | reflexivity |].
  split; [exact Hs|]. split; [exact Hu | exact Ha].
Defined.

Lemma unconfigured_rows_short_circuit_witness :
  let env := envOfRows (fun _ => None) [sampleRow "s1" "ann@example.com"] noPages in
  let st := stateOf ["site"] [sampleUser "ann@example.com"] None None in
  sessionOutcome env firstWindow st = Returned tt
  /\ users (analyticsState env firstWindow st) = [sampleUser "ann@example.com"]
  /\ authCalls (snd (syncAllData env st)) = 1%nat
  /\ watermarkOf (snd (syncAllData env st)) = Some 1700000000000.
Proof.
  intros env st.
  destruct (unconfigured_rows_short_circuit env st firstWindow
              [sampleRow "s1" "ann@example.com"])
    as (_ & Hs & Hu & _ & _ & Ha & Hadv).
  - vm_compute. reflexivity.
  - reflexivity.
  - discriminate.
  - destruct Hadv as [_ Hwm]; [vm_compute; reflexivity | reflexivity |].
    split; [exact Hs|]. split; [exact Hu|]. split; [exact Ha | exact Hwm].
Defined.

(** * Further properties *)

(** ** The API adapter: tokens and failing pages *)

Section ApiExtra.

Context (env : Env) (w : string) (s e : Z).

Lemma fetchSessionsPage_no_token p ps st :
  noToken st ->
  fst (fetchSessionsPage env w s e p ps st) = Thrown requestFailed
  /\ pageRequests (snd (fetchSessionsPage env w s e p ps st)) = pageRequests st.
Proof.
  intros Hno. unfold fetchSessionsPage, getToken, axiosGet. run_m.
  destruct Hno as [-> | ->]; simpl; auto.
Qed.

Lemma fetchSessionsPage_failed p st :
  hasToken st ->
  sessionsPage env (length (pageRequests st)) (pageRequest w s e p) = None ->
  fst (fetchSessionsPage env w s e p DEFAULT_CONFIG.API_PAGE_SIZE st) = Thrown requestFailed
  /\ pageRequests (snd (fetchSessionsPage env w s e p DEFAULT_CONFIG.API_PAGE_SIZE st))
     = pageRequests st ++ [pageRequest w s e p].
Proof.
  intros (t & Ht & Htruthy) Hr.
  unfold fetchSessionsPage, getToken, axiosGet. run_m.
  rewrite Ht, Htruthy. simpl.
  change {| rq_path := Js.replace API_ENDPOINTS.SESSIONS "{websiteId}" w;
            rq_startAt := s; rq_endAt := e; rq_page := p;
            rq_pageSize := DEFAULT_CONFIG.API_PAGE_SIZE |}
    with (pageRequest w s e p).
  rewrite Hr. simpl. auto.
Qed.

(** What [fetchAllSessions] makes of a page loop that throws. *)
Lemma fetchAllSessionsWithFuel_thrown fuel st err st1 :
  paginate env fuel w s e 1 true [] (started st) = (Thrown err, st1) ->
  fst (fetchAllSessionsWithFuel env fuel w s e st) = Thrown err
  /\ pageRequests (snd (fetchAllSessionsWithFuel env fuel w s e st)) = pageRequests st1.
Proof.
  intros H. unfold fetchAllSessionsWithFuel.
  cbv beta iota zeta delta [bind tryCatch rethrowing ret throw modify log].
  change (setLogs (logs st ++ [(Info, LOG_MESSAGES.WEBSITE_SYNC_STARTED)]) st)
    with (started st).
  rewrite H. auto.
Qed.

(** The loop over full pages that ends in a request the API fails. *)
Lemma paginate_page_failure fulls : forall fuel p acc st,
  hasToken st ->
  serves env w s e (length (pageRequests st)) p fulls ->
  Forall (fun r => fullPage r = true) fulls ->
  sessionsPage env (length (pageRequests st) + length fulls)
    (pageRequest w s e (p + Z.of_nat (length fulls))) = None ->
  p + Z.of_nat (length fulls) <= 1000 ->
  (length fulls < fuel)%nat ->
  exists st',
    paginate env fuel w s e p true acc st = (Thrown requestFailed, st')
    /\ pageRequests st' = pageRequests st ++ requestsFrom w s e p (S (length fulls)).
Proof.
  induction fulls as [|r fulls IH]; intros fuel p acc st Htok Hserve Hfull Hfail Hp Hfuel.
  - destruct fuel as [|fuel]; [simpl in Hfuel; lia|].
    simpl in Hfail. rewrite Nat.add_0_r, Z.add_0_r in Hfail.
    destruct (fetchSessionsPage_failed p st Htok Hfail) as [Hthrown Hreq].
    rewrite paginate_step. unfold bind.
    destruct (fetchSessionsPage env w s e p DEFAULT_CONFIG.API_PAGE_SIZE st) as [o st1].
    simpl in *. subst o. exists st1. split; [reflexivity|].
    now rewrite requestsFrom_cons.
  - destruct fuel as [|fuel]; [simpl in Hfuel; lia|].
    inversion Hfull as [|? ? Hr Hfulls]; subst.
    simpl in Hp, Hfuel, Hfail.
    rewrite paginate_step. unfold bind at 1.
    rewrite (fetchSessionsPage_ok env w s e p st r Htok (serves_head _ _ _ _ _ _ _ _ Hserve)).
    fold (fullPage r). rewrite Hr.
    destruct (p + 1 >? 1000) eqn:Hc; [lia|].
    destruct (IH fuel (p + 1) (acc ++ data r) (afterPage (pageRequest w s e p) st))
      as (st' & Hrun & Hreq).
    + apply hasToken_afterPage, Htok.
    + simpl. rewrite length_app. simpl.
      replace (length (pageRequests st) + 1)%nat with (S (length (pageRequests st))) by lia.
      apply serves_tail with (r := r). exact Hserve.
    + exact Hfulls.
    + simpl. rewrite length_app. simpl.
      replace (length (pageRequests st) + 1 + length fulls)%nat
        with (length (pageRequests st) + S (length fulls))%nat by lia.
      replace (p + 1 + Z.of_nat (length fulls)) with (p + Z.of_nat (S (length fulls))) by lia.
      exact Hfail.
    + lia.
    + lia.
    + exists st'. split; [exact Hrun|].
      rewrite Hreq. simpl. rewrite (requestsFrom_cons w s e p (S (length fulls))).
      now rewrite <- app_assoc.
Qed.

(** X1. Without a usable token (none, or an empty one) [fetchAllSessions]
    throws the generic request failure and issues no GET at all. *)
Theorem fetchAllSessions_without_token (st : State) :
  noToken st ->
  fst (fetchAllSessions env w s e st) = Thrown requestFailed
  /\ pageRequests (snd (fetchAllSessions env w s e st)) = pageRequests st.
Proof.
  intros Hno. unfold fetchAllSessions.
  destruct (fetchSessionsPage_no_token 1 DEFAULT_CONFIG.API_PAGE_SIZE (started st) Hno)
    as [Hthrown Hreq].
  assert (exists st1, paginate env 1000 w s e 1 true [] (started st)
                      = (Thrown requestFailed, st1)
                      /\ pageRequests st1 = pageRequests st) as (st1 & Hrun & Hst1).
  { change 1000%nat with (S 999). rewrite paginate_step. unfold bind.
    destruct (fetchSessionsPage env w s e 1 DEFAULT_CONFIG.API_PAGE_SIZE (started st))
      as [o st1]. cbn [fst snd] in *. subst o. exists st1.
    split; [reflexivity | exact Hreq]. }
  destruct (fetchAllSessionsWithFuel_thrown 1000 st _ _ Hrun) as [-> ->].
  split; [reflexivity | exact Hst1].
Qed.

(** X2. When the API serves full pages and then fails a request,
    [fetchAllSessions] throws the request failure instead of returning the
    pages it already has, after exactly one GET per served page plus the
    failed one. *)
Theorem fetchAllSessions_page_failure (st : State) (fulls : list UmamiApiResponse) :
  hasToken st ->
  serves env w s e (length (pageRequests st)) 1 fulls ->
  Forall (fun r => fullPage r = true) fulls ->
  sessionsPage env (length (pageRequests st) + length fulls)
    (pageRequest w s e (1 + Z.of_nat (length fulls))) = None ->
  (length fulls < 1000)%nat ->
  fst (fetchAllSessions env w s e st) = Thrown requestFailed
  /\ pageRequests (snd (fetchAllSessions env w s e st))
     = pageRequests st ++ requestsFrom w s e 1 (S (length fulls)).
Proof.
  intros Htok Hserve Hfull Hfail Hlen.
  destruct (paginate_page_failure fulls 1000 1 [] (started st))
    as (st1 & Hrun & Hreq); try assumption; try lia.
  unfold fetchAllSessions.
  destruct (fetchAllSessionsWithFuel_thrown 1000 st _ _ Hrun) as [-> ->].
  split; [reflexivity | exact Hreq].
Qed.

(** X3. The token through [authenticate], [getToken] and [clearToken]: a
    successful login stores its token, which [getToken] then returns unless
    it is empty; a failed login throws the authentication failure and
    leaves a token obtained earlier in place; after [clearToken],
    [getToken] throws. *)
Theorem token_lifecycle (st : State) :
  (forall token,
     login env (authCalls st) = Some token ->
     fst (authenticate env st) = Returned token
     /\ currentToken (snd (authenticate env st)) = Some token
     /\ fst (getToken (snd (authenticate env st)))
        = if Js.truthy token then Returned token else Thrown tokenMissing)
  /\ (login env (authCalls st) = None ->
      fst (authenticate env st) = Thrown authFailed
      /\ currentToken (snd (authenticate env st)) = currentToken st
      /\ fst (getToken (snd (authenticate env st))) = fst (getToken st))
  /\ fst (getToken (snd (clearToken st))) = Thrown tokenMissing.
Proof.
  unfold authenticate, getToken, clearToken. run_m. split; [|split].
  - intros token ->. simpl. destruct (Js.truthy token); repeat split; reflexivity.
  - intros ->. simpl. repeat split; try reflexivity.
    destruct (currentToken st) as [t|]; [destruct (Js.truthy t)|]; reflexivity.
  - reflexivity.
Qed.

End ApiExtra.

Lemma fetchAllSessions_without_token_witness :
  fst (fetchAllSessions (envOfPages threePages) "site" 0 1 (stateOf ["site"] [] None None))
  = Thrown requestFailed
  /\ pageRequests (snd (fetchAllSessions (envOfPages threePages) "site" 0 1
                          (stateOf ["site"] [] None (Some ""))))
     = [].
Proof.
  split.
  - apply (fetchAllSessions_without_token (envOfPages threePages) "site" 0 1).
    left. reflexivity.
  - apply (fetchAllSessions_without_token (envOfPages threePages) "site" 0 1
             (stateOf ["site"] [] None (Some ""))).
    right. reflexivity.
Defined.

Lemma fetchAllSessions_page_failure_witness :
  let run := fetchAllSessions (envOfPages (pagesThenFailure 2)) "site" 0 1
               (stateOf ["site"] [] None (Some "token")) in
  fst run = Thrown requestFailed
  /\ pageRequests (snd run)
     = [pageRequest "site" 0 1 1; pageRequest "site" 0 1 2; pageRequest "site" 0 1 3].
Proof.
  apply (fetchAllSessions_page_failure (envOfPages (pagesThenFailure 2)) "site" 0 1
           (stateOf ["site"] [] None (Some "token")) [pageOf 2 2; pageOf 2 2]).
  - apply hasToken_stateOf.
  - intros k r. destruct k as [|[|k]]; simpl; intros [= <-]; reflexivity.
  - repeat constructor.
  - reflexivity.
  - simpl. lia.
Defined.

Lemma token_lifecycle_witness :
  let env := envOfLogins (fun n => if Nat.eqb n 0 then Some "abc" else None) in
  let st := stateOf ["site"] [] None None in
  fst (getToken (snd (authenticate env st))) = Returned "abc"
  /\ fst (getToken (snd (authenticate env (snd (authenticate env st))))) = Returned "abc".
Proof.
  intros env st. split.
  - exact (proj2 (proj2 (proj1 (token_lifecycle env st) "abc" eq_refl))).
  - destruct (proj1 (proj2 (token_lifecycle env (snd (authenticate env st)))) eq_refl)
      as (_ & _ & ->).
    reflexivity.
Defined.

(** ** Runs that abort, and the run after a run *)

Section RunExtra.

Context (env : Env).

Lemma analytics_auth_failure t1 t2 st :
  login env (authCalls st) = None ->
  fst (syncAnalyticsDataForWindow env t1 t2 st) = Thrown authFailed
  /\ pageRequests (snd (syncAnalyticsDataForWindow env t1 t2 st)) = pageRequests st
  /\ storeOps (snd (syncAnalyticsDataForWindow env t1 t2 st)) = storeOps st
  /\ users (snd (syncAnalyticsDataForWindow env t1 t2 st)) = users st
  /\ systemconfig (snd (syncAnalyticsDataForWindow env t1 t2 st)) = systemconfig st.
Proof.
  intros Hlogin. unfold syncAnalyticsDataForWindow, authenticate, clearToken. run_m.
  rewrite Hlogin. simpl. repeat split; reflexivity.
Qed.

(** X4. A failed authentication is fatal to the run: the analytics phase
    throws the authentication failure without asking the API for any page
    and without any operation on the document store, and a run that got
    that far throws the same error and leaves the watermark, the users and
    the per-website statuses as the session phase left them. *)
Theorem auth_failure_is_run_level (st : State) (w : SyncWindow) :
  planned env st = Returned w ->
  sessionOutcome env w st = Returned tt ->
  login env (authCalls st) = None ->
  analyticsOutcome env w st = Thrown authFailed
  /\ pageRequests (finalizingState env w st) = pageRequests st
  /\ storeOps (finalizingState env w st) = storeOps (analyticsState env w st)
  /\ fst (syncAllData env st) = Thrown authFailed
  /\ systemconfig (snd (syncAllData env st)) = systemconfig st
  /\ users (snd (syncAllData env st)) = users (analyticsState env w st).
Proof.
  intros Hplan Hsess Hlogin.
  assert (login env (authCalls (analyticsState env w st)) = None) as Hlogin'
    by now rewrite (analyticsState_keeps env authCalls).
  destruct (analytics_auth_failure (startDate w) (endDate w) (analyticsState env w st) Hlogin')
    as (Hout & Hreq & Hops & Husers & Hcfg).
  split; [exact Hout|].
  split; [unfold finalizingState; rewrite Hreq; apply (analyticsState_keeps env pageRequests)|].
  split; [exact Hops|].
  rewrite (syncAllData_session_returned env st w Hplan Hsess).
  rewrite orFailed_fst, !orFailed_keeps by typeclasses eauto.
  unfold finishRun. cbv beta iota zeta delta [bind].
  destruct (syncAnalyticsDataForWindow env (startDate w) (endDate w) (analyticsState env w st))
    as [o s4]. cbn [fst snd] in *. subst o. cbn [fst snd].
  split; [reflexivity|]. split; [|exact Husers].
  rewrite Hcfg. apply (analyticsState_keeps env systemconfig).
Qed.

(** X5. A run that aborts while planning or in the session phase never
    contacts the analytics API: no login, no page request, and the token
    field is as it was. *)
Theorem early_abort_spares_the_api (st : State) (e : Error) :
  planned env st = Thrown e
  \/ (exists w, planned env st = Returned w /\ sessionOutcome env w st = Thrown e) ->
  fst (syncAllData env st) = Thrown e
  /\ authCalls (snd (syncAllData env st)) = authCalls st
  /\ pageRequests (snd (syncAllData env st)) = pageRequests st
  /\ currentToken (snd (syncAllData env st)) = currentToken st.
Proof.
  intros [Hplan | (w & Hplan & Hsess)].
  - destruct (syncAllData_planning_thrown env st e Hplan) as [-> ->].
    unfold failed, planningState.
    rewrite (no_logs (π := authCalls)), (no_logs (π := pageRequests)),
      (no_logs (π := currentToken)).
    rewrite (keeps_determineSyncWindow env authCalls),
      (keeps_determineSyncWindow env pageRequests),
      (keeps_determineSyncWindow env currentToken).
    repeat split; reflexivity.
  - destruct (syncAllData_session_thrown env st w e Hplan Hsess) as [-> ->].
    unfold failed.
    rewrite (no_logs (π := authCalls)), (no_logs (π := pageRequests)),
      (no_logs (π := currentToken)).
    rewrite (analyticsState_keeps env authCalls), (analyticsState_keeps env pageRequests),
      (analyticsState_keeps env currentToken).
    repeat split; reflexivity.
Qed.

(** X6. When the relational source cannot be queried, the session phase
    and the run throw the source's connection error; no user is touched,
    the [systemconfigs] document is as it was and the API is not
    contacted. *)
Theorem source_failure_is_run_level (st : State) (w : SyncWindow) :
  planned env st = Returned w ->
  sessionRows env (startDate w) = None ->
  sessionOutcome env w st = Thrown sourceUnavailable
  /\ fst (syncAllData env st) = Thrown sourceUnavailable
  /\ users (snd (syncAllData env st)) = users st
  /\ systemconfig (snd (syncAllData env st)) = systemconfig st
  /\ authCalls (snd (syncAllData env st)) = authCalls st.
Proof.
  intros Hplan Hrows.
  assert (sessionOutcome env w st = Thrown sourceUnavailable) as Hsess.
  { unfold sessionOutcome, syncSessionIdsForWindow, getSessionsAfterDate. run_m.
    now rewrite Hrows. }
  split; [exact Hsess|].
  destruct (syncAllData_session_thrown env st w _ Hplan Hsess) as [-> ->].
  unfold failed.
  rewrite (no_logs (π := users)), (no_logs (π := systemconfig)), (no_logs (π := authCalls)).
  rewrite (analyticsState_keeps env systemconfig), (analyticsState_keeps env authCalls).
  repeat split; try reflexivity.
  unfold analyticsState, syncSessionIdsForWindow, getSessionsAfterDate. run_m.
  rewrite Hrows. simpl. apply (sessionState_keeps env users w st).
Qed.

End RunExtra.

(** X7. Window overlap: after a run that completed and whose watermark
    write took effect, planning from the store it leaves (by any later
    service instance, in any later world with a connected store that
    answers) gives an incremental window that starts exactly 12 hours
    before the instant at which that run began. *)
Theorem next_window_overlaps (env env' : Env) (st st' : State) (w : SyncWindow) :
  planned env st = Returned w ->
  sessionOutcome env w st = Returned tt ->
  analyticsOutcome env w st = Returned tt ->
  storeFails env (storeOps (finalizingState env w st)) = false ->
  systemconfig st' = systemconfig (snd (syncAllData env st)) ->
  connected env' = true -> storeFails env' (storeOps st') = false ->
  validTime (clock env (ticks st) - 12 * 3600000) ->
  fst (determineSyncWindow env' st')
  = Returned {| startDate := clock env (ticks st) - 12 * 3600000;
                endDate := clock env' (ticks st'); syncType := incremental |}.
Proof.
  intros Hplan Hsess Hana Hok Hcfg Hconn Hread Hvalid.
  destruct (syncAllData_completed env st w Hplan Hsess Hana) as [_ Hwm].
  rewrite Hok in Hwm.
  apply (determineSyncWindow_incremental env' st' (clock env (ticks st))); try assumption.
  unfold watermarkOf in *. now rewrite Hcfg.
Qed.

Lemma auth_failure_is_run_level_witness :
  let st := stateOf ["site"] [sampleUser "ann@example.com"] None None in
  fst (syncAllData envLoginDown st) = Thrown authFailed
  /\ systemconfig (snd (syncAllData envLoginDown st)) = None.
Proof.
  intros st.
  destruct (auth_failure_is_run_level envLoginDown st firstWindow)
    as (_ & _ & _ & Hrun & Hcfg & _);
    [vm_compute; reflexivity | vm_compute; reflexivity | reflexivity |].
  split; [exact Hrun | exact Hcfg].
Defined.

Lemma early_abort_spares_the_api_witness :
  let st := stateOf ["site"] [] None None in
  authCalls (snd (syncAllData envDisconnected st)) = 0%nat
  /\ pageRequests (snd (syncAllData envSourceDown st)) = [].
Proof.
  intros st. split.
  - refine (proj1 (proj2 (early_abort_spares_the_api envDisconnected st
                            (JsError "Database connection not established") _))).
    left. vm_compute. reflexivity.
  - refine (proj1 (proj2 (proj2 (early_abort_spares_the_api envSourceDown st
                                   sourceUnavailable _)))).
    right. exists firstWindow. split; vm_compute; reflexivity.
Defined.

Lemma source_failure_is_run_level_witness :
  let st := stateOf ["site"] [sampleUser "ann@example.com"] None None in
  fst (syncAllData envSourceDown st) = Thrown sourceUnavailable
  /\ users (snd (syncAllData envSourceDown st)) = [sampleUser "ann@example.com"].
Proof.
  intros st.
  destruct (source_failure_is_run_level envSourceDown st firstWindow)
    as (_ & Hrun & Husers & _); [vm_compute; reflexivity | reflexivity |].
  split; [exact Hrun | exact Husers].
Defined.

Lemma next_window_overlaps_witness :
  let env := envOfRows (fun _ => None) [] noPages in
  let st := stateOf [] [] None None in
  let st' := stateOf [] [] (systemconfig (snd (syncAllData env st))) None in
  fst (determineSyncWindow env st')
  = Returned {| startDate := clock env (ticks st) - 12 * 3600000;
                endDate := clock env (ticks st'); syncType := incremental |}.
Proof.
  intros env st st'.
  assert (planned env st = Returned firstWindow) as H1 by (vm_compute; reflexivity).
  assert (sessionOutcome env firstWindow st = Returned tt) as H2
    by (vm_compute; reflexivity).
  assert (analyticsOutcome env firstWindow st = Returned tt) as H3
    by (vm_compute; reflexivity).
  assert (validTime (clock env (ticks st) - 12 * 3600000)) as Hv
    by (unfold validTime; vm_compute; split; discriminate).
  assert (storeFails env (storeOps (finalizingState env firstWindow st)) = false) as H4
    by (vm_compute; reflexivity).
  assert (systemconfig st' = systemconfig (snd (syncAllData env st))) as H5
    by (vm_compute; reflexivity).
  assert (storeFails env (storeOps st') = false) as H6 by (vm_compute; reflexivity).
  exact (next_window_overlaps env env st st' firstWindow H1 H2 H3 H4 H5 eq_refl H6 Hv).
Defined.

(** ** The per-website status over failures and successes *)

Section StatusExtra.

Context (env : Env).

Lemma incrementWebsiteErrorCount_ops w st :
  connected env = true ->
  storeOps (snd (incrementWebsiteErrorCount env w st)) = S (storeOps st)
  /\ ticks (snd (incrementWebsiteErrorCount env w st)) = ticks st.
Proof.
  intros Hconn.
  unfold incrementWebsiteErrorCount, getConnection, configUpdateOne, storeOp.
  run_m. rewrite Hconn. simpl.
  destruct (storeFails env (storeOps st)); simpl; auto.
Qed.

Lemma updateWebsiteSyncStatus_ops w day n st :
  connected env = true ->
  storeOps (snd (updateWebsiteSyncStatus env w day n st)) = S (storeOps st).
Proof.
  intros Hconn.
  unfold updateWebsiteSyncStatus, getConnection, now, configUpdateOne, storeOp.
  run_m. rewrite Hconn. simpl.
  destruct (storeFails env (storeOps st)); simpl; auto.
Qed.

Lemma statusOf_incremented c w :
  statusOf
    (upsertUmamiSync
       (withStatuses (fun m => <[w := incErrorCount (default emptyStatus (m !! w))]> m)) c) w
  = Some (incErrorCount (default emptyStatus (statusOf c w))).
Proof.
  unfold statusOf, upsertUmamiSync. simpl. rewrite lookup_insert_eq.
  destruct c as [d|]; simpl; [reflexivity|]. now rewrite lookup_empty.
Qed.

(** X8. With the store connected and its writes succeeding: recording a
    failure of a website adds one to its error count and keeps what the
    last successful sync stored ([lastSync], [lastDaySynced],
    [sessionsProcessed]), creating a status with only the count when there
    was none; a successful sync after a failure resets the count to 0; a
    failure after a successful sync gives count 1 and keeps the data of
    that sync. *)
Theorem errorCount_lifecycle (w : string) (st : State) :
  connected env = true ->
  storeFails env (storeOps st) = false ->
  storeFails env (S (storeOps st)) = false ->
  let failedOnce := snd (incrementWebsiteErrorCount env w st) in
  statusOf (systemconfig failedOnce) w
  = Some {| lastSync := statusOf (systemconfig st) w ≫= lastSync;
            lastDaySynced := statusOf (systemconfig st) w ≫= lastDaySynced;
            sessionsProcessed := statusOf (systemconfig st) w ≫= sessionsProcessed;
            errorCount := Some (errorCountOf (systemconfig st) w + 1) |}
  /\ (forall day n,
        statusOf (systemconfig (snd (updateWebsiteSyncStatus env w day n failedOnce))) w
        = Some {| lastSync := Some (clock env (ticks st)); lastDaySynced := Some day;
                  sessionsProcessed := Some n; errorCount := Some 0 |})
  /\ (forall day n,
        let synced := snd (updateWebsiteSyncStatus env w day n st) in
        statusOf (systemconfig (snd (incrementWebsiteErrorCount env w synced))) w
        = Some {| lastSync := Some (clock env (ticks st)); lastDaySynced := Some day;
                  sessionsProcessed := Some n; errorCount := Some 1 |}).
Proof.
  intros Hconn Hok1 Hok2 failedOnce. split; [|split].
  - subst failedOnce.
    destruct (incrementWebsiteErrorCount_spec env w st) as [_ ->].
    rewrite Hconn, Hok1. cbn [andb negb]. rewrite statusOf_incremented.
    unfold errorCountOf. destruct (statusOf (systemconfig st) w) as [status|]; reflexivity.
  - intros day n.
    destruct (incrementWebsiteErrorCount_ops w st Hconn) as [Hops Hticks].
    fold failedOnce in Hops, Hticks.
    destruct (updateWebsiteSyncStatus_spec env w day n failedOnce Hconn) as [_ ->].
    rewrite Hops, Hok2, Hticks. rewrite statusOf_insert. now rewrite decide_True.
  - intros day n synced.
    pose proof (updateWebsiteSyncStatus_ops w day n st Hconn) as Hops.
    fold synced in Hops.
    destruct (incrementWebsiteErrorCount_spec env w synced) as [_ ->].
    rewrite Hconn, Hops, Hok2. cbn [andb negb]. rewrite statusOf_incremented.
    subst synced.
    destruct (updateWebsiteSyncStatus_spec env w day n st Hconn) as [_ ->].
    rewrite Hok1. rewrite statusOf_insert. now rewrite decide_True.
Qed.

End StatusExtra.

Lemma errorCount_lifecycle_witness :
  let env := envOfRows (fun _ => None) [] noPages in
  let st := stateOf ["B"] [] (Some (configWithErrors "B")) None in
  statusOf (systemconfig (snd (incrementWebsiteErrorCount env "B" st))) "B"
  = Some {| lastSync := Some 1699000000000; lastDaySynced := Some "2023-11-03";
            sessionsProcessed := Some 5; errorCount := Some 4 |}.
Proof.
  intros env st.
  destruct (errorCount_lifecycle env "B" st eq_refl eq_refl eq_refl) as [H _].
  rewrite H. vm_compute. reflexivity.
Defined.

(** ** What a run does to the [users] collection *)

Section UserFields.

Context {Y : Type} (g : User -> Y).

#[global] Instance userField_NoLogs : NoLogs (userField g).
Proof. field_instance. Qed.
#[global] Instance userField_NoTicks : NoTicks (userField g).
Proof. field_instance. Qed.
#[global] Instance userField_NoStoreOps : NoStoreOps (userField g).
Proof. field_instance. Qed.
#[global] Instance userField_NoToken : NoToken (userField g).
Proof. field_instance. Qed.
#[global] Instance userField_NoAuthCalls : NoAuthCalls (userField g).
Proof. field_instance. Qed.
#[global] Instance userField_NoPageRequests : NoPageRequests (userField g).
Proof. field_instance. Qed.
#[global] Instance userField_NoStatuses : NoStatuses (userField g).
Proof. field_instance. Qed.
#[global] Instance userField_NoConfig : NoConfig (userField g).
Proof. field_instance. Qed.

Lemma updateFirst_map p f us :
  (forall u, p u = true -> g (f u) = g u) -> map g (snd (updateFirst p f us)) = map g us.
Proof.
  intros Hf. induction us as [|u us IH]; simpl; [reflexivity|].
  destruct (p u) eqn:Hp; simpl; [now rewrite Hf|].
  destruct (updateFirst p f us) as [r us']. simpl in *. now rewrite IH.
Qed.

Context (env : Env).

Lemma keeps_usersUpdateOne_field p f :
  (forall u, p u = true -> g (f u) = g u) -> keeps (userField g) (usersUpdateOne env p f).
Proof.
  intros Hf st. unfold usersUpdateOne, storeOp, userField.
  destruct (storeFails env (storeOps st)); simpl; [reflexivity|].
  pose proof (updateFirst_map p f (users st) Hf) as H.
  destruct (updateFirst p f (users st)) as [r us]. simpl in *. exact H.
Qed.

Section SessionWrites.

Hypothesis session_write :
  forall session t u, matchesRow env session u = true -> g (setSession session t u) = g u.

Lemma keeps_updateUserSessions_field sessions :
  forall n, keeps (userField g) (updateUserSessions env sessions n).
Proof.
  induction sessions as [|session rest IH]; intros n; simpl; [keeps|].
  apply keeps_bind; [|intros; apply IH].
  unfold updateUserSession.
  apply keeps_tryCatch; [|intros; keeps].
  apply keeps_bind; [keeps|]. intros t.
  apply keeps_bind; [|intros; keeps].
  apply keeps_usersUpdateOne_field. intros u Hu. now apply session_write.
Qed.

Lemma keeps_updateUserSessionsSequential_field sessions :
  keeps (userField g) (updateUserSessionsSequential env sessions).
Proof.
  unfold updateUserSessionsSequential.
  apply keeps_bind; [keeps|]. intros _.
  apply keeps_bind; [keeps|]. intros _.
  apply keeps_bind; [apply keeps_updateUserSessions_field | intros; keeps].
Qed.

Lemma keeps_syncSessionIdsForWindow_field t1 t2 :
  keeps (userField g) (syncSessionIdsForWindow env t1 t2).
Proof.
  unfold syncSessionIdsForWindow, updateUserSessionsSequential.
  apply keeps_rethrowing; [typeclasses eauto|].
  apply keeps_bind; [keeps|]. intros _.
  apply keeps_bind; [apply keeps_getSessionsAfterDate; typeclasses eauto|]. intros rows.
  apply keeps_bind; [keeps|]. intros _.
  apply keeps_if; [keeps|].
  apply keeps_bind; [keeps|]. intros s.
  apply keeps_bind; [keeps|]. intros _.
  apply keeps_if; [keeps|].
  apply keeps_bind; [|intros; keeps].
  apply keeps_bind; [keeps|]. intros _.
  apply keeps_bind; [keeps|]. intros _.
  apply keeps_bind; [apply keeps_updateUserSessions_field | intros; keeps].
Qed.

End SessionWrites.

Section AnalyticsWrites.

Hypothesis analytics_write :
  forall session t u, hasSession session u = true -> g (setAnalytics session t u) = g u.

Lemma keeps_updateAnalyticsAll_field sessions :
  forall n, keeps (userField g) (updateAnalyticsAll env sessions n).
Proof.
  induction sessions as [|session rest IH]; intros n; simpl; [keeps|].
  apply keeps_bind; [|intros; apply IH].
  unfold updateAnalyticsFor, updateSingleUserAnalytics.
  apply keeps_tryCatch; [|intros; keeps].
  apply keeps_bind; [|intros; keeps].
  apply keeps_bind; [keeps|]. intros _.
  apply keeps_rethrowing; [typeclasses eauto|].
  apply keeps_bind; [keeps|]. intros t.
  apply keeps_usersUpdateOne_field. intros u Hu. now apply analytics_write.
Qed.

Lemma keeps_syncWebsites_field ids t1 t2 t3 :
  forall totals, keeps (userField g) (syncWebsites env ids t1 t2 t3 totals).
Proof.
  induction ids as [|w rest IH]; intros totals; simpl; [keeps|].
  apply keeps_bind; [|intros; apply IH].
  unfold syncWebsiteGuarded, syncWebsite.
  apply keeps_tryCatch.
  - apply keeps_bind; [keeps|]. intros _.
    apply keeps_bind; [apply keeps_fetchAllSessions; typeclasses eauto|]. intros sessions.
    apply keeps_bind; [keeps|]. intros _.
    apply keeps_if; [keeps|].
    apply keeps_bind; [apply keeps_updateAnalyticsAll_field|]. intros n.
    apply keeps_bind; [apply keeps_updateWebsiteSyncStatus; typeclasses eauto|].
    intros _. keeps.
  - intros err. apply keeps_bind; [keeps|]. intros _.
    apply keeps_bind; [apply keeps_incrementWebsiteErrorCount; typeclasses eauto|].
    intros _. keeps.
Qed.

Lemma keeps_syncAnalyticsDataForWindow_field t1 t2 :
  keeps (userField g) (syncAnalyticsDataForWindow env t1 t2).
Proof.
  unfold syncAnalyticsDataForWindow.
  apply keeps_bind; [keeps|]. intros _.
  apply keeps_tryFinally; [|keeps].
  apply keeps_rethrowing; [typeclasses eauto|].
  apply keeps_bind; [keeps|]. intros _.
  apply keeps_bind; [keeps|]. intros _.
  apply keeps_bind; [keeps|]. intros s.
  apply keeps_bind; [apply keeps_syncWebsites_field | intros; keeps].
Qed.

End AnalyticsWrites.

Lemma keeps_syncAllData_field :
  (forall session t u, matchesRow env session u = true -> g (setSession session t u) = g u) ->
  (forall session t u, hasSession session u = true -> g (setAnalytics session t u) = g u) ->
  keeps (userField g) (syncAllData env).
Proof.
  intros Hs Ha. unfold syncAllData.
  apply keeps_bind; [keeps|]. intros t0.
  apply keeps_rethrowing; [typeclasses eauto|].
  apply keeps_bind; [keeps|]. intros _.
  apply keeps_bind; [apply keeps_determineSyncWindow; typeclasses eauto|]. intros w.
  apply keeps_bind; [keeps|]. intros _.
  apply keeps_bind; [now apply keeps_syncSessionIdsForWindow_field|]. intros _.
  apply keeps_bind; [now apply keeps_syncAnalyticsDataForWindow_field|]. intros _.
  apply keeps_bind; [apply keeps_updateLastSuccessfulSync; typeclasses eauto|].
  intros _. keeps.
Qed.

End UserFields.

(** X9. A run never creates, deletes, reorders or re-keys a user: however
    it ends, the [users] collection holds the same emails in the same
    order as before (the updates match existing documents only and never
    write [email]). *)
Theorem syncAllData_keeps_the_users (env : Env) (st : State) :
  map email (users (snd (syncAllData env st))) = map email (users st)
  /\ length (users (snd (syncAllData env st))) = length (users st).
Proof.
  assert (map email (users (snd (syncAllData env st))) = map email (users st)) as H
    by (apply (keeps_syncAllData_field email env); reflexivity).
  split; [exact H|].
  rewrite <- (length_map email), H. apply length_map.
Qed.

(** X10. The two phases write disjoint parts of a user: the session phase
    never changes anybody's [umamiAnalytics], and the analytics phase never
    changes anybody's [session_id]. The same holds of the batch update of
    the session phase on any batch it is given. *)
Theorem phases_write_disjoint_fields (env : Env) (t1 t2 : Z) (st : State) :
  map umamiAnalytics (users (snd (syncSessionIdsForWindow env t1 t2 st)))
  = map umamiAnalytics (users st)
  /\ map user_session_id (users (snd (syncAnalyticsDataForWindow env t1 t2 st)))
     = map user_session_id (users st)
  /\ (forall rows,
        map umamiAnalytics (users (snd (updateUserSessionsSequential env rows st)))
        = map umamiAnalytics (users st)).
Proof.
  split; [|split].
  - apply (keeps_syncSessionIdsForWindow_field umamiAnalytics env); reflexivity.
  - apply (keeps_syncAnalyticsDataForWindow_field user_session_id env); reflexivity.
  - intros rows.
    apply (keeps_updateUserSessionsSequential_field umamiAnalytics env); reflexivity.
Qed.

(** ** Sequences of update-the-first-match writes *)

Section FirstMatch.

Context {A I K : Type} `{EqDecision K}.
Context (key : A -> K) (ikey : I -> K) (write : I -> A -> A).
Hypothesis write_key : forall i a, key (write i a) = key a.
Hypothesis write_over : forall i j a, write j (write i a) = write j a.

Local Abbreviation step := (writeFirst key ikey write).
Local Abbreviation run := (writeAll key ikey write).

Lemma step_same i j l : ikey i = ikey j -> step j (step i l) = step j l.
Proof.
  intros Hij. unfold writeFirst. induction l as [|a l IH]; simpl; [reflexivity|].
  rewrite Hij. destruct (bool_decide (key a = ikey j)) eqn:Ha; simpl.
  - rewrite write_key, Ha. now rewrite write_over.
  - rewrite Ha. f_equal. rewrite <- Hij in IH |- *. rewrite Hij. rewrite Hij in IH.
    exact IH.
Qed.

Lemma step_comm i j l : ikey i <> ikey j -> step i (step j l) = step j (step i l).
Proof.
  intros Hij. unfold writeFirst. induction l as [|a l IH]; simpl; [reflexivity|].
  destruct (bool_decide (key a = ikey j)) eqn:Haj;
    destruct (bool_decide (key a = ikey i)) eqn:Hai; simpl.
  - apply bool_decide_eq_true in Haj, Hai. congruence.
  - rewrite write_key, Haj, Hai. reflexivity.
  - rewrite write_key, Haj, Hai. reflexivity.
  - rewrite Haj, Hai. now rewrite IH.
Qed.

Lemma run_cons i items l : run (i :: items) l = run items (step i l).
Proof. reflexivity. Qed.

Lemma run_app items1 items2 l : run (items1 ++ items2) l = run items2 (run items1 l).
Proof. unfold writeAll. apply fold_left_app. Qed.

(** A write is forgotten when a later item of the sequence has its key. *)
Lemma run_absorb items : forall i l,
  Exists (fun j => ikey j = ikey i) items -> run items (step i l) = run items l.
Proof.
  induction items as [|j items IH]; intros i l Hex; [inversion Hex|].
  rewrite !run_cons.
  destruct (decide (ikey i = ikey j)) as [Heq|Hne].
  - now rewrite step_same.
  - rewrite <- step_comm by congruence. apply IH.
    inversion Hex as [? ? Hj|? ? Hrest]; subst; [congruence | exact Hrest].
Qed.

(** A write moves past a sequence none of whose items has its key. *)
Lemma run_comm items : forall i l,
  Forall (fun j => ikey j <> ikey i) items -> run items (step i l) = step i (run items l).
Proof.
  induction items as [|j items IH]; intros i l Hall; [reflexivity|].
  inversion Hall as [|? ? Hj Hrest]; subst.
  rewrite !run_cons. rewrite <- step_comm by congruence. now apply IH.
Qed.

(** Running the same sequence a second time changes nothing. *)
Lemma run_idempotent items : forall l, run items (run items l) = run items l.
Proof.
  induction items as [|i items IH]; intros l; [reflexivity|].
  rewrite !run_cons.
  destruct (decide (Exists (fun j => ikey j = ikey i) items)) as [Hex|Hno].
  - rewrite run_absorb by exact Hex. apply IH.
  - assert (Forall (fun j => ikey j <> ikey i) items) as Hall.
    { apply Forall_forall. intros j Hj Heq. apply Hno.
      apply Exists_exists. exists j. split; [exact Hj | exact Heq]. }
    rewrite (run_comm items i (run items (step i l)) Hall).
    rewrite IH.
    rewrite <- (run_comm items i (step i l) Hall).
    now rewrite step_same.
Qed.

Lemma find_step_same i l a :
  List.find (fun a => bool_decide (key a = ikey i)) l = Some a ->
  List.find (fun a => bool_decide (key a = ikey i)) (step i l) = Some (write i a).
Proof.
  unfold writeFirst. induction l as [|b l IH]; simpl; [discriminate|].
  destruct (bool_decide (key b = ikey i)) eqn:Hb; simpl.
  - intros [= ->]. now rewrite write_key, Hb.
  - rewrite Hb. exact IH.
Qed.

Lemma find_step_some i k l a :
  List.find (fun a => bool_decide (key a = k)) l = Some a ->
  exists a', List.find (fun a => bool_decide (key a = k)) (step i l) = Some a'.
Proof.
  unfold writeFirst. revert a. induction l as [|b l IH]; intros a; simpl; [discriminate|].
  destruct (bool_decide (key b = ikey i)) eqn:Hbi; simpl.
  - rewrite write_key. destruct (bool_decide (key b = k)); eauto.
  - destruct (bool_decide (key b = k)); eauto.
Qed.

Lemma find_run_some items : forall k l a,
  List.find (fun a => bool_decide (key a = k)) l = Some a ->
  exists a', List.find (fun a => bool_decide (key a = k)) (run items l) = Some a'.
Proof.
  induction items as [|i items IH]; intros k l a Hfind; [eauto|].
  rewrite run_cons.
  destruct (find_step_some i k l a Hfind) as (a' & Ha').
  exact (IH k _ a' Ha').
Qed.

(** The last item with a given key decides what the first element with
    that key holds in the end. *)
Lemma run_last_wins before i after l a :
  Forall (fun j => ikey j <> ikey i) after ->
  List.find (fun a => bool_decide (key a = ikey i)) l = Some a ->
  exists a',
    List.find (fun a => bool_decide (key a = ikey i)) (run (before ++ i :: after) l)
    = Some (write i a').
Proof.
  intros Hafter Hfind.
  rewrite run_app, run_cons, (run_comm after i _ Hafter).
  destruct (find_run_some (before ++ after) (ikey i) l a Hfind) as (a' & Ha').
  rewrite run_app in Ha'. exists a'. now apply find_step_same.
Qed.

End FirstMatch.

(** ** The update loops as sequences of first-match writes *)

Section LoopsExtra.

Context (env : Env).

Lemma updateFirst_replaceFirst p f us : snd (updateFirst p f us) = replaceFirst p f us.
Proof.
  induction us as [|u us IH]; simpl; [reflexivity|].
  destruct (p u); [reflexivity|].
  destruct (updateFirst p f us) as [r us']. simpl in *. now rewrite IH.
Qed.

Lemma replaceFirst_map {A B} (h : A -> B) p f p' f' l :
  (forall a, p a = p' (h a)) -> (forall a, h (f a) = f' (h a)) ->
  map h (replaceFirst p f l) = replaceFirst p' f' (map h l).
Proof.
  intros Hp Hf. induction l as [|a l IH]; simpl; [reflexivity|].
  rewrite <- Hp. destruct (p a); simpl; [now rewrite Hf | now rewrite IH].
Qed.

Lemma find_map_stampless p docs u :
  (forall v, p (stampless v) = p v) ->
  List.find p (map stampless docs) = Some u ->
  exists v, List.find p docs = Some v /\ stampless v = u.
Proof.
  intros Hp. induction docs as [|d docs IH]; simpl; [discriminate|].
  rewrite Hp. destruct (p d); [intros [= <-]; eauto | exact IH].
Qed.

Lemma find_stampless_map p docs v :
  (forall v, p (stampless v) = p v) ->
  List.find p docs = Some v ->
  List.find p (map stampless docs) = Some (stampless v).
Proof.
  intros Hp. induction docs as [|d docs IH]; simpl; [discriminate|].
  rewrite Hp. destruct (p d); [now intros [= ->] | exact IH].
Qed.

Lemma matchesRow_decide row u :
  matchesRow env row u = bool_decide (email u = identityOf env row).
Proof.
  unfold matchesRow, identityOf.
  destruct (String.eqb_spec (email u) (toLowerCase env (distinct_id row))) as [E|E].
  - now rewrite bool_decide_eq_true_2.
  - now rewrite bool_decide_eq_false_2.
Qed.

(** One analytics write and one session write, seen without stamps. *)
Lemma analytics_write_stampless session t docs :
  map stampless
    (snd (updateFirst (fun u => bool_decide (user_session_id u = Some (us_id session)))
            (setAnalytics session t) docs))
  = analyticsWritten [session] (map stampless docs).
Proof.
  rewrite updateFirst_replaceFirst. unfold analyticsWritten, writeAll, writeFirst. simpl.
  apply replaceFirst_map; intros u; reflexivity.
Qed.

Lemma session_write_stampless row t docs :
  map stampless (snd (updateFirst (matchesRow env row) (setSession row t) docs))
  = sessionsWritten env [row] (map stampless docs).
Proof.
  rewrite updateFirst_replaceFirst. unfold sessionsWritten, writeAll, writeFirst. simpl.
  apply replaceFirst_map; intros u; [exact (matchesRow_decide row u) | reflexivity].
Qed.

Lemma analyticsWritten_cons session sessions docs :
  analyticsWritten (session :: sessions) docs
  = analyticsWritten sessions (analyticsWritten [session] docs).
Proof. reflexivity. Qed.

Lemma sessionsWritten_cons row rows docs :
  sessionsWritten env (row :: rows) docs
  = sessionsWritten env rows (sessionsWritten env [row] docs).
Proof. reflexivity. Qed.

(** With a reliable store the analytics loop leaves, stamps aside, what
    the sequence of its writes leaves. *)
Lemma updateAnalyticsAll_written sessions :
  reliableStore env -> forall n st,
  map stampless (users (snd (updateAnalyticsAll env sessions n st)))
  = analyticsWritten sessions (map stampless (users st)).
Proof.
  intros [Hconn Hok]. induction sessions as [|session rest IH]; intros n st.
  - reflexivity.
  - rewrite analyticsWritten_cons,
      <- (analytics_write_stampless session (clock env (ticks st)) (users st)).
    simpl updateAnalyticsAll.
    unfold updateAnalyticsFor, updateSingleUserAnalytics, getConnection, now,
      usersUpdateOne, storeOp.
    run_m. rewrite Hconn. simpl. rewrite Hok. simpl.
    destruct (updateFirst _ _ (users st)) as [r docs] eqn:Hupd. simpl.
    rewrite IH. simpl. reflexivity.
Qed.

(** With a reliable store the session loop leaves, stamps aside, what the
    sequence of its writes leaves. *)
Lemma sessionBatch_written rows :
  reliableStore env -> forall tick op docs,
  map stampless (snd (sessionBatch env rows tick op docs))
  = sessionsWritten env rows (map stampless docs).
Proof.
  intros [Hconn Hok]. induction rows as [|row rest IH]; intros tick op docs.
  - reflexivity.
  - rewrite sessionsWritten_cons, <- (session_write_stampless row (clock env tick)).
    simpl sessionBatch. rewrite Hok.
    destruct (updateFirst _ _ docs) as [r docs1]. simpl.
    specialize (IH (S tick) (S op) docs1).
    destruct (sessionBatch env rest (S tick) (S op) docs1) as [k docs2].
    simpl in *. exact IH.
Qed.

Lemma updateUserSessions_written rows n st :
  reliableStore env ->
  map stampless (users (snd (updateUserSessions env rows n st)))
  = sessionsWritten env rows (map stampless (users st)).
Proof.
  intros Hrel.
  destruct (updateUserSessions_batch env rows n st) as (st' & Hrun & Hu & _).
  rewrite Hrun. simpl. rewrite Hu. now apply sessionBatch_written.
Qed.

End LoopsExtra.

(** Two hosts with the same [toLowerCase] make the same session writes. *)
Lemma sessionsWritten_same_host env env' rows : forall docs,
  (forall s, toLowerCase env' s = toLowerCase env s) ->
  sessionsWritten env' rows docs = sessionsWritten env rows docs.
Proof.
  intros docs Hsame. revert docs.
  induction rows as [|row rows IH]; intros docs; [reflexivity|].
  rewrite (sessionsWritten_cons env' row rows), (sessionsWritten_cons env row rows), IH.
  f_equal.
  unfold sessionsWritten, writeAll, writeFirst, identityOf. simpl. now rewrite Hsame.
Qed.

Lemma writeAnalytics_over i j u : writeAnalytics j (writeAnalytics i u) = writeAnalytics j u.
Proof. reflexivity. Qed.

Lemma writeSession_over i j u : writeSession j (writeSession i u) = writeSession j u.
Proof. reflexivity. Qed.

(** X11. Idempotence of the update loops. When the store is connected and
    no write fails, running the per-website analytics loop again over the
    same fetched records, or the session loop again over the same batch of
    rows (on a host with the same [toLowerCase]), from the collection the
    first pass left, changes nothing in the users but their [updatedAt]
    stamps. *)
Theorem update_loops_are_idempotent (env env' : Env) (st st' : State) :
  reliableStore env -> reliableStore env' ->
  (forall sessions n n',
     users st' = users (snd (updateAnalyticsAll env sessions n st)) ->
     map stampless (users (snd (updateAnalyticsAll env' sessions n' st')))
     = map stampless (users st'))
  /\ (forall rows n n',
        (forall s, toLowerCase env' s = toLowerCase env s) ->
        users st' = users (snd (updateUserSessions env rows n st)) ->
        map stampless (users (snd (updateUserSessions env' rows n' st')))
        = map stampless (users st')).
Proof.
  intros Hrel Hrel'. split.
  - intros sessions n n' Hst'.
    rewrite (updateAnalyticsAll_written env' sessions Hrel'), Hst'.
    rewrite (updateAnalyticsAll_written env sessions Hrel).
    unfold analyticsWritten. apply run_idempotent; [reflexivity | apply writeAnalytics_over].
  - intros rows n n' Hsame Hst'.
    rewrite (updateUserSessions_written env' rows n' st' Hrel'), Hst'.
    rewrite (updateUserSessions_written env rows n st Hrel).
    rewrite (sessionsWritten_same_host env env' rows _ Hsame).
    unfold sessionsWritten. apply run_idempotent; [reflexivity | apply writeSession_over].
Qed.

(** X12. The latest session wins. When the store is connected and no
    write fails, and some user has the identity (lower-cased
    [distinct_id]) of a row of the batch, then after the session loop the
    first user with that email carries the [session_id] of the last row of
    the batch that has this identity. *)
Theorem latest_session_wins (env : Env) (st : State) (before after : list MySqlSession)
  (row : MySqlSession) (n : Z) (u : User) :
  reliableStore env ->
  Forall (fun later => identityOf env later <> identityOf env row) after ->
  userByEmail (identityOf env row) (users st) = Some u ->
  exists u',
    userByEmail (identityOf env row)
      (users (snd (updateUserSessions env (before ++ row :: after) n st))) = Some u'
    /\ user_session_id u' = Some (session_id row).
Proof.
  intros Hrel Hafter Hfind.
  pose proof (updateUserSessions_written env (before ++ row :: after) n st Hrel) as Hw.
  assert (forall v, bool_decide (email (stampless v) = identityOf env row)
                    = bool_decide (email v = identityOf env row)) as Hp by reflexivity.
  pose proof (find_stampless_map _ _ _ Hp Hfind) as Hfind'.
  destruct (run_last_wins email (identityOf env) writeSession (fun _ _ => eq_refl)
              before row after (map stampless (users st)) (stampless u) Hafter Hfind')
    as (a' & Ha').
  fold (sessionsWritten env (before ++ row :: after) (map stampless (users st))) in Ha'.
  rewrite <- Hw in Ha'.
  destruct (find_map_stampless _ _ _ Hp Ha') as (v & Hv & Hstamp).
  exists v. split; [exact Hv|].
  change (user_session_id v) with (user_session_id (stampless v)). now rewrite Hstamp.
Qed.

(** ** Documents the phases cannot reach, and a misconfigured first run *)

Lemma lowerChar_idempotent c : Js.lowerChar (Js.lowerChar c) = Js.lowerChar c.
Proof.
  destruct c as [b0 b1 b2 b3 b4 b5 b6 b7].
  destruct b0, b1, b2, b3, b4, b5, b6, b7; reflexivity.
Qed.

Lemma lowerAscii_idempotent s : Js.lowerAscii (Js.lowerAscii s) = Js.lowerAscii s.
Proof.
  induction s as [|c s IH]; simpl; [reflexivity|].
  now rewrite lowerChar_idempotent, IH.
Qed.

Lemma lookup_unless reachable (l l' : list User) i u :
  map (unless reachable) l' = map (unless reachable) l ->
  l !! i = Some u -> reachable u = false -> l' !! i = Some u.
Proof.
  revert l' i. induction l as [|a l IH]; intros l' i Hmap Hl Hu; [discriminate|].
  destruct l' as [|a' l']; [discriminate|].
  simpl in Hmap. injection Hmap as Ha Hrest.
  destruct i as [|i]; simpl in *.
  - injection Hl as ->. unfold unless in Ha. rewrite Hu in Ha.
    destruct (reachable a'); [discriminate|]. congruence.
  - now apply IH.
Qed.

(** X13. The batch update of the session phase only reaches users whose
    stored email is in lower case: it looks for the lower-cased
    [distinct_id] among the emails as stored, and lower-casing gives
    strings that lower-casing leaves alone. A user whose stored email
    lower-casing would change is left exactly as it was, at the same place
    of the collection, whatever the rows of the batch. *)
Theorem session_update_needs_lowercase_email (env : Env) (rows : list MySqlSession)
  (st : State) (i : nat) (u : User) :
  lowerCaseStable env ->
  users st !! i = Some u ->
  toLowerCase env (email u) <> email u ->
  users (snd (updateUserSessionsSequential env rows st)) !! i = Some u.
Proof.
  intros Hstable Hi Hcase.
  apply (lookup_unless (lowerCaseEmail env) (users st)); [|exact Hi|].
  - apply (keeps_updateUserSessionsSequential_field (unless (lowerCaseEmail env)) env).
    intros row t v Hmatch. unfold unless, lowerCaseEmail. simpl.
    unfold matchesRow in Hmatch. apply String.eqb_eq in Hmatch.
    rewrite bool_decide_eq_true_2; [reflexivity|].
    rewrite Hmatch. apply Hstable.
  - unfold lowerCaseEmail. now rewrite bool_decide_eq_false_2.
Qed.

(** X14. The analytics phase only reaches users that carry a session id: a
    user without one is left exactly as it was, at the same place of the
    collection, whatever the API returns. *)
Theorem analytics_phase_needs_session_id (env : Env) (t1 t2 : Z) (st : State)
  (i : nat) (u : User) :
  users st !! i = Some u ->
  user_session_id u = None ->
  users (snd (syncAnalyticsDataForWindow env t1 t2 st)) !! i = Some u.
Proof.
  intros Hi Hnone.
  apply (lookup_unless hasSessionId (users st)); [|exact Hi|].
  - apply (keeps_syncAnalyticsDataForWindow_field (unless hasSessionId) env).
    intros session t v Hmatch. unfold unless, hasSessionId. simpl.
    unfold hasSession in Hmatch. apply bool_decide_eq_true in Hmatch.
    now rewrite Hmatch.
  - unfold hasSessionId. now rewrite Hnone.
Qed.

(** X15. [INITIAL_SYNC_DAYS] is only read by a first run, and an
    unparsable value is not replaced by the default: with no watermark
    stored, planning throws the RangeError of the invalid start date and
    the run throws it too; with a watermark stored, the same environment
    plans the incremental window as usual. *)
Theorem unparsable_initial_sync_days (env : Env) (st : State) :
  connected env = true -> storeFails env (storeOps st) = false ->
  initialSyncDays env = None ->
  (watermarkOf st = None ->
   fst (determineSyncWindow env (planningState st)) = Thrown invalidTime
   /\ fst (syncAllData env st) = Thrown invalidTime)
  /\ (forall T,
        watermarkOf st = Some T -> validTime (T - 12 * 3600000) ->
        planned env st
        = Returned {| startDate := T - 12 * 3600000;
                      endDate := clock env (S (ticks st)); syncType := incremental |}).
Proof.
  intros Hconn Hread Hdays. split.
  - intros Hw.
    assert (planned env st = Thrown invalidTime) as Hplan.
    { unfold planned, determineSyncWindow, getConnection, configFindOne, storeOp, now,
        toISOString.
      run_m. rewrite Hconn. simpl. rewrite Hread. simpl.
      unfold watermarkOf in Hw. rewrite Hw. simpl.
      unfold initialSyncDays in Hdays. rewrite Hdays. reflexivity. }
    split; [exact Hplan|].
    now destruct (syncAllData_planning_thrown env st _ Hplan).
  - intros T Hw Hvalid. unfold planned.
    exact (determineSyncWindow_incremental env (planningState st) T Hconn Hread Hw Hvalid).
Qed.

Lemma session_update_needs_lowercase_email_witness :
  let env := envOfRows (fun _ => None) [] noPages in
  let st := stateOf ["site"] [sampleUser "Ann@Example.com"; sampleUser "ann@example.com"]
              None None in
  users (snd (updateUserSessionsSequential env [sampleRow "s1" "Ann@Example.com"] st))
    !! 0%nat
  = Some (sampleUser "Ann@Example.com").
Proof.
  intros env st.
  apply (session_update_needs_lowercase_email env [sampleRow "s1" "Ann@Example.com"] st 0
           (sampleUser "Ann@Example.com")).
  - intros s. apply lowerAscii_idempotent.
  - reflexivity.
  - vm_compute. discriminate.
Defined.

Lemma analytics_phase_needs_session_id_witness :
  let env := envOfRows (fun _ => None) [] (pagesBySite "A" "C" "D") in
  let st := stateOf ["A"] [sampleUser "ann@example.com"] None None in
  users (snd (syncAnalyticsDataForWindow env 1 2 st)) !! 0%nat
  = Some (sampleUser "ann@example.com").
Proof.
  intros env st.
  apply (analytics_phase_needs_session_id env 1 2 st 0 (sampleUser "ann@example.com"));
    reflexivity.
Defined.

Lemma unparsable_initial_sync_days_witness :
  let env := envOfRows (oneVar "INITIAL_SYNC_DAYS" "week") [] noPages in
  fst (syncAllData env (stateOf ["site"] [] None None)) = Thrown invalidTime
  /\ planned env (stateOf ["site"] [] (Some (configAt 1699990000000)) None)
     = Returned {| startDate := 1699990000000 - 12 * 3600000;
                   endDate := 1700000000001; syncType := incremental |}.
Proof.
  intros env. split.
  - refine (proj2 (proj1 (unparsable_initial_sync_days env (stateOf ["site"] [] None None)
                            eq_refl eq_refl eq_refl) eq_refl)).
  - refine (proj2 (unparsable_initial_sync_days env
                     (stateOf ["site"] [] (Some (configAt 1699990000000)) None)
                     eq_refl eq_refl eq_refl) 1699990000000 eq_refl _).
    unfold validTime. vm_compute. split; discriminate.
Defined.

Lemma update_loops_are_idempotent_witness :
  let env := envOfRows (fun _ => None) [] noPages in
  let docs := [{| email := "ann@example.com"; user_session_id := Some "s1";
                  umamiAnalytics := None; updatedAt := None |}] in
  let st := stateOf ["site"] docs None None in
  let once := snd (updateAnalyticsAll env [sampleSession "s1"; sampleSession "s1"] 0 st) in
  map stampless
    (users (snd (updateAnalyticsAll env [sampleSession "s1"; sampleSession "s1"] 0 once)))
  = map stampless (users once).
Proof.
  intros env docs st once.
  assert (reliableStore env) as Hrel by (split; [reflexivity | intros; reflexivity]).
  exact (proj1 (update_loops_are_idempotent env env st once Hrel Hrel)
           [sampleSession "s1"; sampleSession "s1"] 0 0 eq_refl).
Defined.

Lemma latest_session_wins_witness :
  let env := envOfRows (fun _ => None) [] noPages in
  let st := stateOf ["site"] [sampleUser "ann@example.com"] None None in
  let batch := [sampleRow "s1" "ann@example.com"; sampleRow "s2" "zed@example.com";
                sampleRow "s3" "Ann@Example.com"; sampleRow "s4" "zed@example.com"] in
  exists u',
    userByEmail "ann@example.com" (users (snd (updateUserSessions env batch 0 st))) = Some u'
    /\ user_session_id u' = Some "s3".
Proof.
  intros env st batch.
  assert (reliableStore env) as Hrel by (split; [reflexivity | intros; reflexivity]).
  refine (latest_session_wins env st
            [sampleRow "s1" "ann@example.com"; sampleRow "s2" "zed@example.com"]
            [sampleRow "s4" "zed@example.com"]
            (sampleRow "s3" "Ann@Example.com") 0 (sampleUser "ann@example.com")
            Hrel _ eq_refl).
  repeat constructor. vm_compute. discriminate.
Defined.

(** ** The batch loop of the earlier service *)

Section Batches.

Context {A : Type}.

Lemma slice_forward (l : list A) i b :
  0 <= i < Z.of_nat (length l) -> 1 <= b ->
  slice l (Some i) (Some (i + b))
  = take (Z.to_nat (Z.min (i + b) (Z.of_nat (length l)) - i)) (drop (Z.to_nat i) l).
Proof.
  intros Hi Hb. unfold slice, relativeIndex. simpl.
  destruct (i <? 0) eqn:E1; [apply Z.ltb_lt in E1; lia|].
  destruct (i + b <? 0) eqn:E2; [apply Z.ltb_lt in E2; lia|].
  replace (Z.min i (Z.of_nat (length l))) with i by lia. reflexivity.
Qed.

Lemma batchesFrom_partition (b : Z) (l : list A) :
  1 <= b ->
  forall fuel i,
    0 <= i -> Z.of_nat (length l) - i <= Z.of_nat fuel ->
    exists bs,
      batchesFrom fuel (Some b) l (Some i) = Some bs
      /\ concat bs = drop (Z.to_nat i) l
      /\ Forall (fun c => 1 <= Z.of_nat (length c) <= b) bs.
Proof.
  intros Hb. induction fuel as [|fuel IH]; intros i Hi Hfuel.
  - exists []. simpl.
    destruct (i <? Z.of_nat (length l)) eqn:E; [apply Z.ltb_lt in E; lia|].
    apply Z.ltb_ge in E. split; [reflexivity|]. split; [|constructor].
    symmetry. apply drop_ge. lia.
  - simpl. destruct (i <? Z.of_nat (length l)) eqn:E.
    + apply Z.ltb_lt in E.
      destruct (IH (i + b)) as (bs & Hrun & Hcat & Hall); [lia | lia |].
      rewrite Hrun. simpl. eexists. split; [reflexivity|].
      rewrite (slice_forward l i b) by lia.
      split.
      * simpl. rewrite Hcat.
        destruct (Z.le_gt_cases (i + b) (Z.of_nat (length l))) as [Hle|Hgt].
        -- replace (Z.min (i + b) (Z.of_nat (length l)) - i) with b by lia.
           replace (Z.to_nat (i + b)) with (Z.to_nat i + Z.to_nat b)%nat by lia.
           rewrite <- drop_drop. apply take_drop.
        -- rewrite (drop_ge l (Z.to_nat (i + b))) by lia.
           rewrite app_nil_r. apply take_ge. rewrite length_drop. lia.
      * constructor; [|exact Hall].
        rewrite length_take, length_drop. lia.
    + apply Z.ltb_ge in E. exists []. split; [reflexivity|]. split; [|constructor].
      symmetry. apply drop_ge. lia.
Qed.

(** X16. With a batch size of at least 1 the loop ends within one turn per
    session, and its batches, put end to end, are exactly the sessions:
    nothing is skipped, repeated or reordered; no batch is empty and none
    is longer than the batch size. *)
Theorem batches_partition (fuel : nat) (b : Z) (sessions : list A) :
  1 <= b -> (length sessions <= fuel)%nat ->
  exists bs,
    batches fuel (Some b) sessions = Some bs
    /\ concat bs = sessions
    /\ Forall (fun c => 1 <= Z.of_nat (length c) <= b) bs.
Proof.
  intros Hb Hfuel.
  destruct (batchesFrom_partition b sessions Hb fuel 0) as (bs & Hrun & Hcat & Hall);
    [lia | lia |].
  exists bs. split; [exact Hrun|]. split; [exact Hcat | exact Hall].
Qed.

Lemma batchesFrom_stuck (b : Z) (l : list A) :
  b <= 0 -> l <> [] ->
  forall fuel i, i <= 0 -> batchesFrom fuel (Some b) l (Some i) = None.
Proof.
  intros Hb Hl. induction fuel as [|fuel IH]; intros i Hi; simpl.
  - destruct (i <? Z.of_nat (length l)) eqn:E; [reflexivity|].
    apply Z.ltb_ge in E. destruct l; [contradiction | simpl in E; lia].
  - destruct (i <? Z.of_nat (length l)) eqn:E.
    + rewrite IH by lia. reflexivity.
    + apply Z.ltb_ge in E. destruct l; [contradiction | simpl in E; lia].
Qed.

(** X17. Two settings of [BATCH_SIZE] the loop does not survive: with a
    batch size of 0 or less and at least one session the loop condition
    never becomes false, whatever the fuel (the loop can only be left by an
    exception of its body); with a batch size that does not parse ([NaN])
    it ends after a single, empty batch, so that no session is processed. *)
Theorem batches_degenerate_sizes (sessions : list A) :
  sessions <> [] ->
  (forall b fuel, b <= 0 -> batches fuel (Some b) sessions = None)
  /\ (forall fuel, batches (S fuel) None sessions = Some [[]]).
Proof.
  intros Hne. split.
  - intros b fuel Hb. apply batchesFrom_stuck; [exact Hb | exact Hne | lia].
  - intros fuel. unfold batches. simpl.
    destruct (0 <? Z.of_nat (length sessions)) eqn:E.
    + destruct fuel; simpl; f_equal; f_equal;
        unfold slice, relativeIndex; simpl; rewrite Z.sub_diag; apply take_0.
    + apply Z.ltb_ge in E. destruct sessions; [contradiction | simpl in E; lia].
Qed.

End Batches.

Lemma batches_partition_witness :
  exists bs,
    batches 5 (batchSizeOf (envOfVars (oneVar "BATCH_SIZE" "2"))) ["a"; "b"; "c"; "d"; "e"]
    = Some bs
    /\ concat bs = ["a"; "b"; "c"; "d"; "e"]
    /\ Forall (fun c => 1 <= Z.of_nat (length c) <= 2) bs.
Proof.
  apply (batches_partition 5 2 ["a"; "b"; "c"; "d"; "e"]); simpl; lia.
Defined.

Lemma batches_degenerate_sizes_witness :
  batches 1000 (batchSizeOf (envOfVars (oneVar "BATCH_SIZE" "0"))) ["a"; "b"] = None
  /\ batches 1000 (batchSizeOf (envOfVars (oneVar "BATCH_SIZE" "many"))) ["a"; "b"]
     = Some [[]].
Proof.
  split.
  - exact (proj1 (batches_degenerate_sizes ["a"; "b"] ltac:(discriminate)) 0 1000%nat
             ltac:(lia)).
  - exact (proj2 (batches_degenerate_sizes ["a"; "b"] ltac:(discriminate)) 999%nat).
Defined.

Example batches_of_five :
  batches 5 (Some 2) ["a"; "b"; "c"; "d"; "e"] = Some [["a"; "b"]; ["c"; "d"]; ["e"]].
Proof. reflexivity. Qed.

(** ** What the analytics phase asks of the API *)

Lemma getSubstitution_plain matched before after replacement :
  Js.contains "$" replacement = false ->
  Js.getSubstitution matched before after replacement = replacement.
Proof.
  induction replacement as [|c r IH]; simpl; [reflexivity|].
  rewrite orb_false_iff. intros [Hc Hr]. rewrite Hc. now rewrite IH.
Qed.

(** For an id without a dollar sign the path is the endpoint with the id
    in the place of the placeholder. *)
Lemma sessionsPath_plain w :
  Js.contains "$" w = false -> sessionsPath w = "/api/websites/" +:+ w +:+ "/sessions".
Proof.
  intros Hw. unfold sessionsPath, Js.replace.
  change (Js.splitAtFirst "{websiteId}" API_ENDPOINTS.SESSIONS)
    with (Some ("/api/websites/", "/sessions")).
  cbv iota beta. now rewrite getSubstitution_plain.
Qed.

Lemma Forall2_no_pages t1 t2 ids :
  Forall2 (fun w block => firstPages w t1 t2 block) ids (map (fun _ => []) ids).
Proof.
  induction ids as [|w ids IH]; simpl; constructor; [|exact IH].
  exists O. split; [lia | reflexivity].
Qed.

(** X18. The GETs of the analytics phase come after those already issued,
    in one block per configured website, in the order of the websites; the
    block of a website holds the GETs for its pages 1, 2, and so on, at
    most 1000 of them, each over the window the phase was given and with
    the default page size. The path asked is the endpoint with the website
    id substituted by [replace], that is, with the id in the place of the
    placeholder when the id has no dollar sign. *)
Theorem analytics_phase_requests (env : Env) (t1 t2 : Z) (st : State) :
  (exists blocks,
     pageRequests (snd (syncAnalyticsDataForWindow env t1 t2 st))
     = pageRequests st ++ concat blocks
     /\ Forall2 (fun w block =>
                   exists n, (n <= 1000)%nat /\ length block = n
                     /\ forall k, (k < n)%nat ->
                          block !! k
                          = Some {| rq_path := sessionsPath w; rq_startAt := t1;
                                    rq_endAt := t2; rq_page := 1 + Z.of_nat k;
                                    rq_pageSize := 100 |})
          (websiteIds st) blocks)
  /\ (forall w,
        sessionsPath w = Js.replace "/api/websites/{websiteId}/sessions" "{websiteId}" w
        /\ (Js.contains "$" w = false ->
            sessionsPath w = "/api/websites/" +:+ w +:+ "/sessions")).
Proof.
  split; [|intros w; split; [reflexivity | apply sessionsPath_plain]].
  assert (exists blocks,
            pageRequests (snd (syncAnalyticsDataForWindow env t1 t2 st))
            = pageRequests st ++ concat blocks
            /\ Forall2 (fun w block => firstPages w t1 t2 block) (websiteIds st) blocks)
    as (blocks & Hreq & Hblocks).
  { destruct (login env (authCalls st)) as [token|] eqn:Hlogin.
    - rewrite (syncAnalyticsDataForWindow_loop env t1 t2 st token Hlogin). unfold turnStart.
      destruct (loopStart_token env st token Hlogin) as (_ & Hreq0 & _).
      destruct (syncWebsites_trace env t1 t2 t2 (websiteIds st) (0, 0) (loopStart env st))
        as (blocks & Hreq & Hblocks).
      exists blocks. rewrite Hreq, Hreq0. split; [reflexivity|].
      eapply Forall2_impl; [exact Hblocks|]. now intros w block [H _].
    - exists (map (fun _ => []) (websiteIds st)). split; [|apply Forall2_no_pages].
      rewrite (syncAnalyticsDataForWindow_no_login env t1 t2 st Hlogin).
      assert (concat (map (fun _ : string => @nil PageRequest) (websiteIds st)) = []) as ->
        by (induction (websiteIds st); simpl; auto).
      now rewrite app_nil_r. }
  exists blocks. split; [exact Hreq|].
  eapply Forall2_impl; [exact Hblocks|].
  intros w block (n & Hn & ->). exists n. split; [exact Hn|].
  unfold requestsFrom. rewrite length_map, length_seq. split; [reflexivity|].
  intros k Hk. rewrite list_lookup_fmap, lookup_seq_lt by exact Hk. reflexivity.
Qed.

(** ** The session phase on the rows the adapter delivers *)

Section NobodyUpdated.

Context (env : Env).

Lemma analyticsState_users w st : users (analyticsState env w st) = users st.
Proof.
  unfold analyticsState.
  destruct (sessionRows env (startDate w)) as [rows|] eqn:Hrows.
  - destruct (syncSessionIdsForWindow_rows env (startDate w) (endDate w)
                (sessionState env w st) rows Hrows) as (st' & Hrun & Hu & _).
    rewrite Hrun. simpl. rewrite Hu. apply (sessionState_keeps env users).
  - destruct (syncSessionIdsForWindow_source_down env (startDate w) (endDate w)
                (sessionState env w st) Hrows) as (_ & Hu & _).
    rewrite Hu. apply (sessionState_keeps env users).
Qed.

Lemma keeps_finishRun_sessionIds t0 w :
  keeps (userField user_session_id) (finishRun env t0 w).
Proof.
  unfold finishRun.
  apply keeps_bind; [apply keeps_syncAnalyticsDataForWindow_field; reflexivity|]. intros _.
  apply keeps_bind; [apply keeps_updateLastSuccessfulSync; typeclasses eauto|].
  intros _. keeps.
Qed.

End NobodyUpdated.

(** X19. The session phase updates nobody. The rows the adapter delivers
    have no [website_id], so the filter on configured websites rejects
    every one of them: whatever the source returns, the phase leaves the
    [users] collection as it was and issues no operation on the document
    store; it returns when the source answers and throws the source's
    connection error when it does not, and it never throws the
    zero-updates failure. As the analytics phase does not write
    [session_id] either, a run leaves every user's [session_id] as it was. *)
Theorem session_phase_updates_nobody (env : Env) (t1 t2 : Z) (st : State) :
  (forall rows, sessionRows env t1 = Some rows -> configuredRows st rows = [])
  /\ users (snd (syncSessionIdsForWindow env t1 t2 st)) = users st
  /\ storeOps (snd (syncSessionIdsForWindow env t1 t2 st)) = storeOps st
  /\ fst (syncSessionIdsForWindow env t1 t2 st)
     = match sessionRows env t1 with
       | Some _ => Returned tt
       | None => Thrown sourceUnavailable
       end
  /\ map user_session_id (users (snd (syncAllData env st)))
     = map user_session_id (users st).
Proof.
  split; [intros rows _; apply configuredRows_nil|].
  assert (users (snd (syncSessionIdsForWindow env t1 t2 st)) = users st
          /\ storeOps (snd (syncSessionIdsForWindow env t1 t2 st)) = storeOps st
          /\ fst (syncSessionIdsForWindow env t1 t2 st)
             = match sessionRows env t1 with
               | Some _ => Returned tt
               | None => Thrown sourceUnavailable
               end) as (Hu & Hs & Ho).
  { destruct (sessionRows env t1) as [rows|] eqn:Hrows.
    - destruct (syncSessionIdsForWindow_rows env t1 t2 st rows Hrows)
        as (st' & Hrun & Hu & Hs & _).
      rewrite Hrun. auto.
    - destruct (syncSessionIdsForWindow_source_down env t1 t2 st Hrows) as (Ho & Hu & Hs).
      auto. }
  split; [exact Hu|]. split; [exact Hs|]. split; [exact Ho|].
  destruct (planned env st) as [w|e1|] eqn:Hplan.
  - destruct (sessionOutcome env w st) as [[]|e2|] eqn:Hsess.
    + rewrite (syncAllData_session_returned env st w Hplan Hsess).
      change (map user_session_id (users ?s)) with (userField user_session_id s).
      rewrite (orFailed_keeps (userField user_session_id)).
      rewrite (keeps_finishRun_sessionIds env). unfold userField.
      now rewrite analyticsState_users.
    + destruct (syncAllData_session_thrown env st w e2 Hplan Hsess) as [_ ->].
      unfold failed. simpl. now rewrite analyticsState_users.
    + exfalso. revert Hsess. apply terminates_syncSessionIdsForWindow.
  - destruct (syncAllData_planning_thrown env st e1 Hplan) as [_ ->].
    unfold failed. simpl.
    rewrite (keeps_determineSyncWindow env users). reflexivity.
  - exfalso. revert Hplan. apply determineSyncWindow_not_diverged.
Qed.

(** A run over a source with a row for a user of a configured setup: the
    user's session id is still absent afterwards. *)
Example session_id_not_synced :
  let env := envOfRows (fun _ => None) [sampleRow "s1" "ann@example.com"] noPages in
  let st := stateOf ["site"] [sampleUser "ann@example.com"] None None in
  fst (syncAllData env st) = Returned tt
  /\ users (snd (syncAllData env st)) = [sampleUser "ann@example.com"].
Proof. split; vm_compute; reflexivity. Qed.
